(** * OME-Files C++: a shallow embedding of the OME-TIFF codec core

    The first part embeds the C++ sources, one module per unit:

    - [FormatTools]    plane index arithmetic ([getIndex], [getZCTCoords]);
    - [Metadata]       the metadata store interface the library consumes;
    - [FormatWriter]   the writer base class (ome/files/detail/FormatWriter);
    - [OMETIFF]        the per-plane state of reader and writer;
    - [OMETIFFReader]  the TiffData pre-scan and the dimension fix-ups;
    - [Field]          the three-array TIFF field codec (ome/files/tiff/Field);
    - [RawStream]      the raw stream helpers of the OME-TIFF writer;
    - [OMETIFFWriter]  the OME-TIFF writer: the post-close ImageDescription
                       patch, tile accessors, plane bookkeeping and [close].

    The second part states and proves their properties.

    Unsigned C++ integers ([dimension_size_type] is [std::size_t], 64 bits)
    are integers of [Z] with the wrap-around written out.  Functions that may
    throw return a value of [result]; member functions that mutate the object
    thread it through the state monad [M], in which an exception keeps the
    state reached when it was thrown. *)

From Stdlib Require Import ZArith List Bool String Lia.
From coqutil Require Import Byte Word.LittleEndianList.
Import ListNotations.
Local Open Scope string_scope.
Local Open Scope list_scope.
Local Open Scope Z_scope.

(** ** Exceptions and the error monad *)

(** The C++ exception classes that the modelled code throws; the payload
    carries the values that the message is formatted from. *)
Inductive exn : Type :=
| logic_error (what : string) (args : list Z)
| out_of_range (what : string)
| runtime_error (what : string)
| FormatException (what : string) (args : list Z)
| TiffException (what : string)
| MetadataException (what : string).

Definition result (A : Type) : Type := (exn + A)%type.

Definition Ok {A} (a : A) : result A := inr a.
Definition Throw {A} (e : exn) : result A := inl e.

Definition rbind {A B} (r : result A) (k : A -> result B) : result B :=
  match r with
  | inl e => inl e
  | inr a => k a
  end.

Declare Scope result_scope.
Delimit Scope result_scope with res.
Notation "x <- c ;; k" := (rbind c (fun x => k))
  (at level 61, c at next level, right associativity) : result_scope.
Notation "' p <- c ;; k" := (rbind c (fun x => let p := x in k))
  (at level 61, p pattern, c at next level, right associativity) : result_scope.
Notation "c ;;; k" := (rbind c (fun _ => k))
  (at level 61, right associativity) : result_scope.

(** A member function that mutates an object of type [S]. *)
Definition M (S A : Type) : Type := S -> result A * S.

Definition mret {S A} (a : A) : M S A := fun s => (Ok a, s).
Definition mthrow {S A} (e : exn) : M S A := fun s => (Throw e, s).
Definition mbind {S A B} (m : M S A) (k : A -> M S B) : M S B :=
  fun s => match m s with
           | (inl e, s') => (inl e, s')
           | (inr a, s') => k a s'
           end.
Definition mget {S} : M S S := fun s => (Ok s, s).
Definition mput {S} (s : S) : M S unit := fun _ => (Ok tt, s).
(** A [const] member function, run on the current object. *)
Definition mconst {S A} (f : S -> result A) : M S A := fun s => (f s, s).

Declare Scope M_scope.
Delimit Scope M_scope with M.
Notation "x <- c ;; k" := (mbind c (fun x => k))
  (at level 61, c at next level, right associativity) : M_scope.
Notation "c ;;; k" := (mbind c (fun _ => k))
  (at level 61, right associativity) : M_scope.

(** ** Machine integers *)

(** [std::size_t] arithmetic on the 64-bit targets the library builds for. *)
Definition size_bits : Z := 64.
Definition wrap (z : Z) : Z := z mod 2 ^ size_bits.
Definition wmul (a b : Z) : Z := wrap (a * b).
Definition wadd (a b : Z) : Z := wrap (a + b).
Definition wsub (a b : Z) : Z := wrap (a - b).

Definition in_size_t (z : Z) : Prop := 0 <= z < 2 ^ size_bits.

(** [v.at(i)] on a [std::vector]. *)
Definition at_ {A} (v : list A) (i : Z) : result A :=
  if i <? 0 then Throw (out_of_range "vector::at")
  else match nth_error v (Z.to_nat i) with
       | Some a => Ok a
       | None => Throw (out_of_range "vector::at")
       end.

(** [std::accumulate(v.begin(), v.end(), dimension_size_type(0))]. *)
Definition accumulate (v : list Z) : Z :=
  fold_left wadd v 0.

(** The sum of the elements, without wrap-around. *)
Fixpoint sum (v : list Z) : Z :=
  match v with
  | [] => 0
  | x :: rest => x + sum rest
  end.

(** ** Dimension order *)

Inductive DimensionOrder : Type :=
| XYZCT | XYZTC | XYCTZ | XYCZT | XYTCZ | XYTZC.

(** ** Pixel type *)

(** [ome::xml::model::enums::PixelType]. *)
Inductive PixelType : Type :=
| INT8 | INT16 | INT32 | UINT8 | UINT16 | UINT32
| FLOAT | DOUBLE | COMPLEXFLOAT | COMPLEXDOUBLE | BIT.

Definition PixelType_eqb (a b : PixelType) : bool :=
  match a, b with
  | INT8, INT8 | INT16, INT16 | INT32, INT32
  | UINT8, UINT8 | UINT16, UINT16 | UINT32, UINT32
  | FLOAT, FLOAT | DOUBLE, DOUBLE
  | COMPLEXFLOAT, COMPLEXFLOAT | COMPLEXDOUBLE, COMPLEXDOUBLE
  | BIT, BIT => true
  | _, _ => false
  end.

Module FormatTools.

Inductive axis : Type := AxisZ | AxisC | AxisT.

(** The three axes after XY, fastest first. *)
Definition axes (order : DimensionOrder) : axis * axis * axis :=
  match order with
  | XYZCT => (AxisZ, AxisC, AxisT)
  | XYZTC => (AxisZ, AxisT, AxisC)
  | XYCTZ => (AxisC, AxisT, AxisZ)
  | XYCZT => (AxisC, AxisZ, AxisT)
  | XYTCZ => (AxisT, AxisC, AxisZ)
  | XYTZC => (AxisT, AxisZ, AxisC)
  end.

Definition axis_eqb (a b : axis) : bool :=
  match a, b with
  | AxisZ, AxisZ | AxisC, AxisC | AxisT, AxisT => true
  | _, _ => false
  end.

Definition pick (a : axis) (z c t : Z) : Z :=
  match a with AxisZ => z | AxisC => c | AxisT => t end.

(** Modelled from the spec: [ome::files::getIndex] of FormatTools, which the
    sources here only call.  The plane index is
    [innerStride0*i0 + innerStride1*i1 + innerStride2*i2] for the three axes
    taken in the order of the last three letters of the dimension order, and
    the call fails with [out_of_range] when a coordinate exceeds its
    extent. *)
Definition getIndex (order : DimensionOrder) (zSize cSize tSize num : Z)
           (z c t : Z) : result Z :=
  if zSize <=? z then Throw (out_of_range "Invalid Z index")
  else if cSize <=? c then Throw (out_of_range "Invalid C index")
  else if tSize <=? t then Throw (out_of_range "Invalid T index")
  else
    let '(a0, a1, a2) := axes order in
    let len0 := pick a0 zSize cSize tSize in
    let len1 := pick a1 zSize cSize tSize in
    let v0 := pick a0 z c t in
    let v1 := pick a1 z c t in
    let v2 := pick a2 z c t in
    Ok (v0 + v1 * len0 + v2 * len0 * len1).

(** Modelled from the spec: [ome::files::getZCTCoords] of FormatTools, the
    inverse of [getIndex]; it fails with [out_of_range] when the index
    reaches the image count. *)
Definition getZCTCoords (order : DimensionOrder) (zSize cSize tSize num : Z)
           (index : Z) : result (Z * Z * Z) :=
  if num <=? index then Throw (out_of_range "Invalid image index")
  else
    let '(a0, a1, a2) := axes order in
    let len0 := pick a0 zSize cSize tSize in
    let len1 := pick a1 zSize cSize tSize in
    let v0 := index mod len0 in
    let v1 := (index / len0) mod len1 in
    let v2 := (index / len0) / len1 in
    let coord (a : axis) :=
      if axis_eqb a a0 then v0 else if axis_eqb a a1 then v1 else v2 in
    Ok (coord AxisZ, coord AxisC, coord AxisT).

End FormatTools.

(** ** The metadata store *)

Module Metadata.

(** One [TiffData] element of a [Pixels] element; every attribute may be
    unset, in which case its getter throws. *)
Record TiffData : Type := mkTiffData {
  IFD : option Z;
  PlaneCount : option Z;
  FirstZ : option Z;
  FirstC : option Z;
  FirstT : option Z;
  UUIDFileName : option string;
  UUIDValue : option string
}.

Record Channel : Type := mkChannel {
  SamplesPerPixel : option Z;
  Name : option string
}.

Record Image : Type := mkImage {
  SizeX : Z;
  SizeY : Z;
  SizeZ : Z;
  SizeT : Z;
  SizeC : Z;
  PixelsDimensionOrder : DimensionOrder;
  Channels : list Channel;
  TiffDataList : list TiffData
}.

(** The store itself: one entry per image. *)
Definition MetadataRetrieve : Type := list Image.

(** Modelled from the spec: the metadata store interface of section 6
    ([getImageCount], [getPixelsSize{X,Y,Z,T,C}], [getChannelCount],
    [getChannelSamplesPerPixel], [getTiffDataCount], [getTiffData...]),
    implemented by the OME-XML library; a call fails when the index is out of
    range or the value is unset. *)
Definition getImageCount (m : MetadataRetrieve) : Z :=
  Z.of_nat (List.length m).

Definition getImage (m : MetadataRetrieve) (i : Z) : result Image :=
  at_ m i.

Definition getPixelsSizeX (m : MetadataRetrieve) (i : Z) : result Z :=
  rbind (getImage m i) (fun im => Ok (SizeX im)).
Definition getPixelsSizeY (m : MetadataRetrieve) (i : Z) : result Z :=
  rbind (getImage m i) (fun im => Ok (SizeY im)).
Definition getPixelsSizeZ (m : MetadataRetrieve) (i : Z) : result Z :=
  rbind (getImage m i) (fun im => Ok (SizeZ im)).
Definition getPixelsSizeT (m : MetadataRetrieve) (i : Z) : result Z :=
  rbind (getImage m i) (fun im => Ok (SizeT im)).
Definition getPixelsSizeC (m : MetadataRetrieve) (i : Z) : result Z :=
  rbind (getImage m i) (fun im => Ok (SizeC im)).
Definition getPixelsDimensionOrder (m : MetadataRetrieve) (i : Z)
  : result DimensionOrder :=
  rbind (getImage m i) (fun im => Ok (PixelsDimensionOrder im)).
Definition getChannelCount (m : MetadataRetrieve) (i : Z) : result Z :=
  rbind (getImage m i) (fun im => Ok (Z.of_nat (List.length (Channels im)))).

Definition unset {A} (o : option A) (what : string) : result A :=
  match o with
  | Some a => Ok a
  | None => Throw (MetadataException what)
  end.

Definition getChannelSamplesPerPixel (m : MetadataRetrieve) (i c : Z)
  : result Z :=
  rbind (getImage m i) (fun im =>
  rbind (at_ (Channels im) c) (fun ch =>
  unset (SamplesPerPixel ch) "SamplesPerPixel")).

Definition getTiffDataCount (m : MetadataRetrieve) (i : Z) : result Z :=
  rbind (getImage m i) (fun im => Ok (Z.of_nat (List.length (TiffDataList im)))).

Definition getTiffData (m : MetadataRetrieve) (i td : Z) : result TiffData :=
  rbind (getImage m i) (fun im => at_ (TiffDataList im) td).

Definition getTiffDataIFD (m : MetadataRetrieve) (i td : Z) : result Z :=
  rbind (getTiffData m i td) (fun d => unset (IFD d) "IFD").
Definition getTiffDataPlaneCount (m : MetadataRetrieve) (i td : Z) : result Z :=
  rbind (getTiffData m i td) (fun d => unset (PlaneCount d) "PlaneCount").
Definition getTiffDataFirstZ (m : MetadataRetrieve) (i td : Z) : result Z :=
  rbind (getTiffData m i td) (fun d => unset (FirstZ d) "FirstZ").
Definition getTiffDataFirstC (m : MetadataRetrieve) (i td : Z) : result Z :=
  rbind (getTiffData m i td) (fun d => unset (FirstC d) "FirstC").
Definition getTiffDataFirstT (m : MetadataRetrieve) (i td : Z) : result Z :=
  rbind (getTiffData m i td) (fun d => unset (FirstT d) "FirstT").

End Metadata.

(** ** The writer base class: ome::files::detail::FormatWriter *)

Module FormatWriter.

(** [Resolution] is a [std::array<dimension_size_type, 3>]: X, Y, Z. *)
Record Resolution : Type := mkResolution {
  resX : Z;
  resY : Z;
  resZ : Z
}.

Record t : Type := mkFormatWriter {
  currentId : option string;
  series : Z;
  resolution : Z;
  plane : Z;
  compression : option string;
  interleaved : option bool;
  sequential : bool;
  framesPerSecond : Z;
  tile_size_x : option Z;
  tile_size_y : option Z;
  (* a shared pointer: null once [close] has reset it *)
  metadataRetrieve : option Metadata.MetadataRetrieve;
  resolutionLevels : list (list Resolution)
}.

Definition set_cursor (w : t) (s r p : Z) : t :=
  mkFormatWriter (currentId w) s r p (compression w) (interleaved w)
    (sequential w) (framesPerSecond w) (tile_size_x w) (tile_size_y w)
    (metadataRetrieve w) (resolutionLevels w).

Definition set_currentId (w : t) (id : option string) : t :=
  mkFormatWriter id (series w) (resolution w) (plane w) (compression w)
    (interleaved w) (sequential w) (framesPerSecond w) (tile_size_x w)
    (tile_size_y w) (metadataRetrieve w) (resolutionLevels w).

(** Modelled from the spec: [assertId] of the format handler base, which
    enforces that "all cursor accessors require currentId to be set"
    (InvalidState, a [std::logic_error]). *)
Definition assertId (id : option string) (notNull : bool) : result unit :=
  match id, notNull with
  | None, true =>
      Throw (logic_error "Current file should not be null; call setId() first" [])
  | Some _, false =>
      Throw (logic_error "Current file should be null; call close() first" [])
  | _, _ => Ok tt
  end.

(** [metadataRetrieve->...]: the pointer must not be null. *)
Definition deref (w : t) : result Metadata.MetadataRetrieve :=
  match metadataRetrieve w with
  | Some m => Ok m
  | None => Throw (runtime_error "null MetadataRetrieve dereferenced")
  end.

Definition close (w : t) : t :=
  mkFormatWriter None 0 0 0 None (interleaved w) false 0
    (tile_size_x w) (tile_size_y w) None [].

(** The constructor: the store is a [DummyMetadata], which holds no image. *)
Definition init : t :=
  mkFormatWriter None 0 0 0 None None false 0 None None (Some []) [].

(** [getAllResolutions]: the full resolution of every image, taken from the
    store, placed before the sub-resolutions [rl] that the resolution
    annotations of the store list. *)
Fixpoint getAllResolutions (images : list Metadata.Image)
         (rl : list (list Resolution)) : result (list (list Resolution)) :=
  match images, rl with
  | [], _ => Ok rl
  | im :: images', series :: rl' =>
      rbind (getAllResolutions images' rl') (fun rest =>
      Ok ((mkResolution (Metadata.SizeX im) (Metadata.SizeY im)
                        (Metadata.SizeZ im) :: series) :: rest))
  | _ :: _, [] => Throw (out_of_range "MetadataList::at")
  end.

(** [setMetadataRetrieve]; [rl] is what [getResolutions] reads from the
    resolution annotations of the store. *)
Definition setMetadataRetrieve (retrieve : option Metadata.MetadataRetrieve)
           (rl : list (list Resolution)) : M t unit :=
  fun w =>
    match assertId (currentId w) false with
    | inl e => (Throw e, w)
    | inr _ =>
        match retrieve with
        | None => (Throw (logic_error "MetadataStore can not be null" []), w)
        | Some m =>
            let w1 :=
              mkFormatWriter (currentId w) (series w) (resolution w) (plane w)
                (compression w) (interleaved w) (sequential w)
                (framesPerSecond w) (tile_size_x w) (tile_size_y w)
                (Some m) (resolutionLevels w) in
            match getAllResolutions m rl with
            | inl e => (Throw e, w1)
            | inr levels =>
                (Ok tt,
                 mkFormatWriter (currentId w) (series w) (resolution w)
                   (plane w) (compression w) (interleaved w) (sequential w)
                   (framesPerSecond w) (tile_size_x w) (tile_size_y w)
                   (Some m) levels)
            end
        end
    end.

Definition getSeriesCount (w : t) : result Z :=
  (m <- deref w ;; Ok (Metadata.getImageCount m))%res.

Definition getSeries (w : t) : result Z :=
  (assertId (currentId w) true ;;; Ok (series w))%res.

Definition getPlane (w : t) : result Z :=
  (assertId (currentId w) true ;;; Ok (plane w))%res.

Definition getResolution (w : t) : result Z :=
  (assertId (currentId w) true ;;; Ok (resolution w))%res.

Definition currentLevel (w : t) : result Resolution :=
  (s <- getSeries w ;;
   levels <- at_ (resolutionLevels w) s ;;
   r <- getResolution w ;;
   at_ levels r)%res.

Definition nonzero (size : Z) : Z := if size =? 0 then 1 else size.

Definition getSizeX (w : t) : result Z :=
  (l <- currentLevel w ;; Ok (nonzero (resX l)))%res.

Definition getSizeY (w : t) : result Z :=
  (l <- currentLevel w ;; Ok (nonzero (resY l)))%res.

Definition getSizeZ (w : t) : result Z :=
  (l <- currentLevel w ;; Ok (nonzero (resZ l)))%res.

Definition getSizeT (w : t) : result Z :=
  (s <- getSeries w ;;
   m <- deref w ;;
   sizeT <- Metadata.getPixelsSizeT m s ;;
   Ok (nonzero sizeT))%res.

Definition getSizeC (w : t) : result Z :=
  (s <- getSeries w ;;
   m <- deref w ;;
   sizeC <- Metadata.getPixelsSizeC m s ;;
   Ok (nonzero sizeC))%res.

Definition getEffectiveSizeC (w : t) : result Z :=
  (s <- getSeries w ;;
   m <- deref w ;;
   Metadata.getChannelCount m s)%res.

Definition getRGBChannelCount (w : t) (channel : Z) : result Z :=
  (s <- getSeries w ;;
   m <- deref w ;;
   match Metadata.getChannelSamplesPerPixel m s channel with
   | inr samples => Ok samples
   | inl (MetadataException _) => Ok 1 (* No SamplesPerPixel; default to 1. *)
   | inl e => Throw e
   end)%res.

Definition isRGB (w : t) (channel : Z) : result bool :=
  (n <- getRGBChannelCount w channel ;; Ok (1 <? n))%res.

Definition getDimensionOrder (w : t) : result DimensionOrder :=
  (s <- getSeries w ;;
   m <- deref w ;;
   Metadata.getPixelsDimensionOrder m s)%res.

Definition getImageCount (w : t) : result Z :=
  (z <- getSizeZ w ;;
   t <- getSizeT w ;;
   c <- getEffectiveSizeC w ;;
   Ok (wmul (wmul z t) c))%res.

Definition getIndex (w : t) (z c t : Z) : result Z :=
  (assertId (currentId w) true ;;;
   order <- getDimensionOrder w ;;
   sizeZ <- getSizeZ w ;;
   effC <- getEffectiveSizeC w ;;
   sizeT <- getSizeT w ;;
   num <- getImageCount w ;;
   FormatTools.getIndex order sizeZ effC sizeT num z c t)%res.

Definition getZCTCoords (w : t) (index : Z) : result (Z * Z * Z) :=
  (assertId (currentId w) true ;;;
   order <- getDimensionOrder w ;;
   sizeZ <- getSizeZ w ;;
   effC <- getEffectiveSizeC w ;;
   sizeT <- getSizeT w ;;
   num <- getImageCount w ;;
   FormatTools.getZCTCoords order sizeZ effC sizeT num index)%res.

Definition getResolutionCount (w : t) : result Z :=
  (assertId (currentId w) true ;;;
   s <- getSeries w ;;
   levels <- at_ (resolutionLevels w) s ;;
   Ok (Z.of_nat (List.length levels)))%res.

Definition setSeries (s : Z) : M t unit :=
  (mconst (fun w => assertId (currentId w) true) ;;;
   count <- mconst getSeriesCount ;;
   if count <=? s
   then mthrow (logic_error "Invalid series: %1%" [s])
   else
     currentSeries <- mconst getSeries ;;
     if negb (currentSeries =? s) &&
        ((0 <? s) && negb (currentSeries =? wsub s 1))
     then mthrow (logic_error "Series set out of order: %1% (currently %2%)"
                              [s; currentSeries])
     else fun w => (Ok tt, set_cursor w s 0 0))%M.

Definition setPlane (p : Z) : M t unit :=
  (mconst (fun w => assertId (currentId w) true) ;;;
   count <- mconst getImageCount ;;
   if count <=? p
   then mthrow (logic_error "Invalid plane: %1%" [p])
   else
     currentPlane <- mconst getPlane ;;
     if negb (currentPlane =? p) &&
        ((0 <? p) && negb (currentPlane =? wsub p 1))
     then mthrow (logic_error "Plane set out of order: %1% (currently %2%)"
                              [p; currentPlane])
     else fun w => (Ok tt, set_cursor w (series w) (resolution w) p))%M.

Definition setResolution (r : Z) : M t unit :=
  (mconst (fun w => assertId (currentId w) true) ;;;
   count <- mconst getResolutionCount ;;
   if count <=? r
   then mthrow (logic_error "Invalid resolution: %1%" [r])
   else fun w => (Ok tt, set_cursor w (series w) r 0))%M.

(** The path is kept as given: canonicalisation is the file system's. *)
Definition setId (id : string) : M t unit :=
  fun w =>
    match currentId w with
    | Some cur => if String.eqb id cur then (Ok tt, w)
                  else (Ok tt, set_currentId w (Some id))
    | None => (Ok tt, set_currentId w (Some id))
    end.

Definition getTileSizeX (w : t) : result Z :=
  match tile_size_x w with
  | None =>
      match metadataRetrieve w with
      | None => Throw (logic_error "MetadataStore can not be null" [])
      | Some m =>
          match currentId w with
          | Some _ => getSizeX w (* after setId *)
          | None => Metadata.getPixelsSizeX m 0 (* fallback before setId *)
          end
      end
  | Some size => Ok size
  end.

Definition getTileSizeY (w : t) : result Z :=
  match tile_size_y w with
  | None =>
      match metadataRetrieve w with
      | None => Throw (logic_error "MetadataStore can not be null" [])
      | Some m =>
          match currentId w with
          | Some _ => getSizeX w (* after setId *)
          | None => Metadata.getPixelsSizeX m 0 (* fallback before setId *)
          end
      end
  | Some size => Ok size
  end.

(** [WriterProperties], restricted to the compression tables: the
    compression types of the format, a [std::set], and the compression types
    available for each pixel type, a [std::map] of sets.  The properties are
    fixed when the writer is constructed and are passed to the member
    functions that consult them. *)
Record WriterProperties : Type := mkWriterProperties {
  compression_types : list string;
  pixel_compression_types : list (PixelType * list string)
}.

(** [set.find(x) != set.end()]. *)
Definition contains (set : list string) (x : string) : bool :=
  existsb (String.eqb x) set.

(** [pixel_compression_types.find(type)]. *)
Fixpoint find_type (m : list (PixelType * list string)) (type : PixelType)
  : option (list string) :=
  match m with
  | [] => None
  | (k, v) :: rest => if PixelType_eqb k type then Some v else find_type rest type
  end.

Definition getPixelTypes (props : WriterProperties) (codec : string)
  : list PixelType :=
  map fst (filter (fun ci => contains (snd ci) codec)
                  (pixel_compression_types props)).

Definition isSupportedType (props : WriterProperties) (type : PixelType)
           (codec : string) : bool :=
  match find_type (pixel_compression_types props) type with
  | Some codecs => contains codecs codec
  | None => false
  end.

Definition getCompressionTypes (props : WriterProperties) (type : PixelType)
  : list string :=
  match find_type (pixel_compression_types props) type with
  | Some codecs => codecs
  | None => []
  end.

Definition set_compression (w : t) (c : option string) : t :=
  mkFormatWriter (currentId w) (series w) (resolution w) (plane w) c
    (interleaved w) (sequential w) (framesPerSecond w) (tile_size_x w)
    (tile_size_y w) (metadataRetrieve w) (resolutionLevels w).

Definition setCompression (props : WriterProperties) (compression : string)
  : M t unit :=
  fun w =>
    if contains (compression_types props) compression
    then (Ok tt, set_compression w (Some compression))
    else (Throw (logic_error
                   (String.append "Invalid compression type: " compression) []),
          w).

Definition getCompression (w : t) : option string := compression w.

End FormatWriter.

(** ** Per-plane state shared by the OME-TIFF reader and writer *)

Module OMETIFF.

Inductive Status : Type := UNKNOWN | PRESENT | ABSENT.

Definition Status_eqb (a b : Status) : bool :=
  match a, b with
  | UNKNOWN, UNKNOWN | PRESENT, PRESENT | ABSENT, ABSENT => true
  | _, _ => false
  end.

(** [detail::OMETIFFPlane]: owning file, IFD index within that file, whether
    the mapping is certain, and the plane status. *)
Record OMETIFFPlane : Type := mkPlane {
  id : string;
  index : Z;
  certain : bool;
  status : Status
}.

(** A default-constructed plane, as [std::vector::resize] creates it. *)
Definition defaultPlane : OMETIFFPlane := mkPlane "" 0 false UNKNOWN.

End OMETIFF.

(** ** The OME-TIFF reader *)

Module OMETIFFReader.

Import Metadata.

(** [OMETIFFMetadata], restricted to the dimension fields that the fix-ups
    read and write, and the plane table. *)
Record CoreMetadata : Type := mkCore {
  sizeX : Z;
  sizeY : Z;
  sizeZ : Z;
  sizeT : Z;
  sizeC : list Z;
  imageCount : Z;
  dimensionOrder : DimensionOrder;
  tiffPlanes : list OMETIFF.OMETIFFPlane
}.

(** [core]: per series, per resolution, a possibly null pointer. *)
Definition Core : Type := list (list (option CoreMetadata)).

Fixpoint replace_nth {A} (n : nat) (l : list A) (a : A) : list A :=
  match l, n with
  | [], _ => []
  | _ :: tl, O => a :: tl
  | hd :: tl, S n' => hd :: replace_nth n' tl a
  end.

(** [core.at(series).at(resolution) = p]. *)
Definition core_assign (core : Core) (series resolution : Z)
           (p : option CoreMetadata) : result Core :=
  (row <- at_ core series ;;
   at_ row resolution ;;;
   Ok (replace_nth (Z.to_nat series) core
                   (replace_nth (Z.to_nat resolution) row p)))%res.

(** [try { x = getter(); } catch (const std::exception&) { }]. *)
Definition try_assign {A} (r : result A) (old : A) : A :=
  match r with
  | inr v => v
  | inl _ => old
  end.

(** [std::min] on an optional running minimum. *)
Definition update_start (start : option Z) (first : Z) : option Z :=
  match start with
  | None => Some first
  | Some s => Some (Z.min s first)
  end.

(** The three in/out parameters of [seriesIndexStart]. *)
Record IndexStart : Type := mkIndexStart {
  zIndexStart : option Z;
  tIndexStart : option Z;
  cIndexStart : option Z
}.

(** The body of the pre-scan loop for TiffData number [td]. *)
Definition seriesIndexStart_step (meta : MetadataRetrieve) (series : Z)
           (st : IndexStart) (td : Z) : IndexStart :=
  let firstC := try_assign (getTiffDataFirstC meta series td) 0 in
  let c' := update_start (cIndexStart st) firstC in
  let firstZ := try_assign (getTiffDataFirstC meta series td) 0 in
  let z' := update_start (zIndexStart st) firstZ in
  let firstT := try_assign (getTiffDataFirstT meta series td) 0 in
  let t' := update_start (tIndexStart st) firstT in
  mkIndexStart z' t' c'.

Definition seriesIndexStart (meta : MetadataRetrieve) (series : Z)
           (st : IndexStart) : result IndexStart :=
  (tiffDataCount <- getTiffDataCount meta series ;;
   Ok (fold_left (seriesIndexStart_step meta series)
                 (map Z.of_nat (seq 0 (Z.to_nat tiffDataCount))) st))%res.

(** The in/out parameters of [getTiffDataValues]. *)
Record TiffDataValues : Type := mkValues {
  tdIFD : option Z;
  numPlanes : Z;
  firstZ : Z;
  firstT : Z;
  firstC : Z
}.

(** What [findTiffData] passes in for every TiffData. *)
Definition initialValues : TiffDataValues := mkValues None 0 0 0 0.

Definition getTiffDataValues (meta : MetadataRetrieve) (series tiffData : Z)
           (v : TiffDataValues) : M Core (bool * TiffDataValues) :=
  fun core =>
    let tdIFD1 :=
      match getTiffDataIFD meta series tiffData with
      | inr i => Some i
      | inl _ => tdIFD v
      end in
    let numPlanes1 :=
      match getTiffDataPlaneCount meta series tiffData with
      | inr n => n
      | inl _ => match tdIFD1 with
                 | Some _ => 1
                 | None => numPlanes v
                 end
      end in
    let finish (valid : bool) (core' : Core) :=
      let tdIFD2 := match tdIFD1 with
                    | Some i => Some i
                    | None => Some 0 (* Start at first IFD in file if unspecified. *)
                    end in
      let firstC1 := try_assign (getTiffDataFirstC meta series tiffData) (firstC v) in
      let firstT1 := try_assign (getTiffDataFirstT meta series tiffData) (firstT v) in
      let firstZ1 := try_assign (getTiffDataFirstZ meta series tiffData) (firstZ v) in
      (Ok (valid, mkValues tdIFD2 numPlanes1 firstZ1 firstT1 firstC1), core') in
    if numPlanes1 =? 0
    then match core_assign core series 0 None with
         | inl e => (Throw e, core)
         | inr core' => finish false core'
         end
    else finish true core.

(** The plane count that [getTiffDataValues] settles on for a TiffData
    element when it is called with [initialValues]. *)
Definition settledPlaneCount (d : TiffData) : Z :=
  match PlaneCount d, IFD d with
  | Some n, _ => n
  | None, Some _ => 1
  | None, None => 0
  end.

(** "Subtract index start to correct for this." *)
Definition subtract_start (start : option Z) (first : Z) : Z :=
  match start with
  | Some s => if s <=? first then first - s else first
  | None => first
  end.

(** One iteration of the TiffData loop of [findTiffData], up to the plane
    index: [None] stands for [break]. *)
Definition findTiffData_index (meta : MetadataRetrieve) (series td : Z)
           (st : IndexStart) (order : DimensionOrder)
           (sizeZ effSizeC sizeT num : Z)
  : M Core (option (Z * TiffDataValues)) :=
  (r <- getTiffDataValues meta series td initialValues ;;
   let '(valid, v) := r in
   if negb valid then mret None
   else
     let firstC := subtract_start (cIndexStart st) (firstC v) in
     let firstZ := subtract_start (zIndexStart st) (firstZ v) in
     let firstT := subtract_start (tIndexStart st) (firstT v) in
     if (sizeZ <=? firstZ) || (effSizeC <=? firstC) || (sizeT <=? firstT)
     then mret None (* Found invalid TiffData *)
     else
       mbind
         (mconst (fun _ => FormatTools.getIndex order sizeZ effSizeC sizeT num
                                                firstZ firstC firstT))
         (fun index =>
            mret (Some (index,
                        mkValues (tdIFD v) (numPlanes v) firstZ firstT firstC))))%M.

(** The plane indexes that [findTiffData] computes for a series, in TiffData
    order, up to the first [break]. *)
Fixpoint findTiffData_indexes (meta : MetadataRetrieve) (series : Z)
         (st : IndexStart) (order : DimensionOrder)
         (sizeZ effSizeC sizeT num : Z) (tds : list Z)
  : M Core (list (Z * TiffDataValues)) :=
  match tds with
  | [] => mret []
  | td :: rest =>
      (r <- findTiffData_index meta series td st order sizeZ effSizeC sizeT num ;;
       match r with
       | None => mret []
       | Some p =>
           ps <- findTiffData_indexes meta series st order
                                      sizeZ effSizeC sizeT num rest ;;
           mret (p :: ps)
       end)%M
  end.

Definition findTiffData_series (meta : MetadataRetrieve) (series : Z)
           (effSizeC : Z) : M Core (list (Z * TiffDataValues)) :=
  (order <- mconst (fun _ => getPixelsDimensionOrder meta series) ;;
   sizeT <- mconst (fun _ => getPixelsSizeT meta series) ;;
   sizeZ <- mconst (fun _ => getPixelsSizeZ meta series) ;;
   let num := effSizeC * sizeT * sizeZ in
   tiffDataCount <- mconst (fun _ => getTiffDataCount meta series) ;;
   st <- mconst (fun _ => seriesIndexStart meta series
                            (mkIndexStart None None None)) ;;
   findTiffData_indexes meta series st order sizeZ effSizeC sizeT num
                        (map Z.of_nat (seq 0 (Z.to_nat tiffDataCount))))%M.

Definition set_dims (cm : CoreMetadata) (z t : Z) (c : list Z) : CoreMetadata :=
  mkCore (sizeX cm) (sizeY cm) z t c (imageCount cm) (dimensionOrder cm)
         (tiffPlanes cm).

(** The body of [fixDimensions] for a non-null [coreMeta]. *)
Definition fixDimensions_core (cm : CoreMetadata) : CoreMetadata :=
  let channelCount := accumulate (sizeC cm) in
  if (imageCount cm <? wmul (wmul (sizeZ cm) (sizeT cm)) channelCount)
     && (channelCount =? Z.of_nat (List.length (sizeC cm)))
  then
    if sizeZ cm =? imageCount cm
    then set_dims cm (sizeZ cm) 1 [1]
    else if sizeT cm =? imageCount cm
    then set_dims cm 1 (sizeT cm) [1]
    else if channelCount =? imageCount cm
    then set_dims cm 1 1 (sizeC cm)
    else set_dims cm 1 (imageCount cm) [1]
  else cm.

(** The guard of [fixDimensions] in unbounded arithmetic: more images by
    dimensions than by count, and no channel with several samples. *)
Definition fix_guard (cm : CoreMetadata) : Prop :=
  imageCount cm < sizeZ cm * sizeT cm * sum (sizeC cm) /\
  sum (sizeC cm) = Z.of_nat (List.length (sizeC cm)).

Definition fixDimensions (series : Z) : M Core unit :=
  fun core =>
    match (row <- at_ core series ;; at_ row 0)%res with
    | inl e => (Throw e, core)
    | inr None => (Ok tt, core)
    | inr (Some cm) =>
        match core_assign core series 0 (Some (fixDimensions_core cm)) with
        | inl e => (Throw e, core)
        | inr core' => (Ok tt, core')
        end
    end.

(** A FirstZ, FirstC or FirstT attribute as the reader takes it: 0 when it
    is not set. *)
Definition first_or_zero (o : option Z) : Z :=
  match o with
  | Some v => v
  | None => 0
  end.

(** Modelled from the spec: [getCoreMetadata(series, resolution)] of the
    reader base class, which the reader steps use for "the core metadata of
    the series": the entry of [core] must exist and must not be null. *)
Definition getCoreMetadata (core : Core) (series resolution : Z)
  : result CoreMetadata :=
  (row <- at_ core series ;;
   p <- at_ row resolution ;;
   match p with
   | Some cm => Ok cm
   | None => Throw (logic_error "CoreMetadata null: series %1%, resolution %2%"
                                [series; resolution])
   end)%res.

(** [auto& coreMeta = getCoreMetadata(series, 0); body]: [body] works on the
    object in [core], so what it did stays done when it throws. *)
Definition with_core (series : Z) (body : M CoreMetadata unit) : M Core unit :=
  fun core =>
    match getCoreMetadata core series 0 with
    | inl e => (Throw e, core)
    | inr cm =>
        let '(r, cm') := body cm in
        (r, replace_nth (Z.to_nat series) core
              (replace_nth 0 (nth (Z.to_nat series) core []) (Some cm')))
    end.

(** [for (s = first; s < first + n; ++s) body(s);] *)
Fixpoint for_each (n : nat) (s : Z) (body : Z -> M Core unit) : M Core unit :=
  match n with
  | O => mret tt
  | S n' => (body s ;;; for_each n' (s + 1) body)%M
  end.

(** The body of [fixImageCounts] for one series. *)
Definition fixImageCounts_core : M CoreMetadata unit :=
  fun fullsize =>
    if (imageCount fullsize =? 1)
       && (negb (sizeZ fullsize =? 1)
           || negb (sizeT fullsize =? 1)
           || negb (Z.of_nat (List.length (sizeC fullsize)) =? 1))
    then
      let fullsize1 := set_dims fullsize 1 1 (sizeC fullsize) in
      (* Only one channel, but may contain samples. *)
      match at_ (sizeC fullsize1) 0 with
      | inl e => (Throw e, fullsize1)
      | inr samples => (Ok tt, set_dims fullsize1 1 1 [samples])
      end
    else (Ok tt, fullsize).

Definition fixImageCounts : M Core unit :=
  fun core =>
    for_each (List.length core) 0
             (fun series => with_core series fixImageCounts_core) core.

(** The body of [checkChannelSamplesPerPixel] for series [s]; the samples of
    every channel are read from channel 0. *)
Definition checkChannelSamplesPerPixel_core (meta : MetadataRetrieve) (s : Z)
  : M CoreMetadata unit :=
  fun coreMeta =>
    match getChannelCount meta s with
    | inl e => (Throw e, coreMeta)
    | inr channelCount =>
        if 0 <? channelCount
        then
          let samplesPerPixel :=
            try_assign (getChannelSamplesPerPixel meta s 0) 1 in
          (Ok tt,
           set_dims coreMeta (sizeZ coreMeta) (sizeT coreMeta)
                    (repeat samplesPerPixel (Z.to_nat channelCount)))
        else (* No Channels specified *)
          match getPixelsSizeC meta s with
          | inl e => (Throw e, coreMeta)
          | inr channels =>
              (Ok tt,
               set_dims coreMeta (sizeZ coreMeta) (sizeT coreMeta)
                        (repeat 1 (Z.to_nat channels)))
          end
    end.

Definition checkChannelSamplesPerPixel (meta : MetadataRetrieve) : M Core unit :=
  for_each (Z.to_nat (getImageCount meta)) 0
           (fun s => with_core s (checkChannelSamplesPerPixel_core meta s)).

(** The characters of [" \r\n\t\f\v"]. *)
Definition code (c : Ascii.ascii) : Z := Z.of_nat (Ascii.nat_of_ascii c).

Definition blank (c : Ascii.ascii) : bool :=
  (code c =? 32) || ((9 <=? code c) && (code c <=? 13)).

(** [s.find_last_not_of(" \r\n\t\f\v")] for the string [s] whose first
    character has index [pos]; [None] is [npos]. *)
Fixpoint find_last_not_of (s : string) (pos : nat) : option nat :=
  match s with
  | EmptyString => None
  | String c rest =>
      match find_last_not_of rest (S pos) with
      | Some l => Some l
      | None => if blank c then None else Some pos
      end
  end.

(** The "basic sanity check before parsing" of [cacheMetadata]: whether the
    text of the ImageDescription is refused as a "badly formed or invalid XML
    document". *)
Definition badly_formed (omexml : string) : bool :=
  let lpos := find_last_not_of omexml 0 in
  (String.length omexml =? 0)%nat
  || match String.get 0 omexml with
     | Some c => negb (code c =? 60) (* '<' *)
     | None => true
     end
  || match lpos with
     | None => true
     | Some l => match String.get l omexml with
                 | Some c => negb (code c =? 62) (* '>' *)
                 | None => true
                 end
     end.

End OMETIFFReader.

(** ** The TIFF field codec: fields holding three arrays of 16-bit values *)

Module Field.

Definition TIFFTAG_BITSPERSAMPLE : Z := 258.
Definition TIFFTAG_SAMPLESPERPIXEL : Z := 277.
Definition TIFFTAG_TRANSFERFUNCTION : Z := 301.
Definition TIFFTAG_COLORMAP : Z := 320.
Definition TIFFTAG_EXTRASAMPLES : Z := 338.

Definition TIFF_VARIABLE : Z := -1.
Definition TIFF_SPP : Z := -2.
Definition TIFF_VARIABLE2 : Z := -3.

(** A pointer to 16-bit values handed to or returned by the TIFF library: the
    array it points at.  [range p count] is [vector(p, p + count)]; elements
    past the end of the array are outside the model and read as 0. *)
Definition pointer : Type := list Z.

Definition range (p : pointer) (count : Z) : list Z :=
  map (fun i => nth i p 0) (seq 0 (Z.to_nat count)).

(** [v.data()]. *)
Definition data (v : list Z) : pointer := v.

(** What the variadic raw call stored for a tag. *)
Inductive RawField : Type :=
| Raw16 (v : Z)
| RawCount16 (n : Z) (p : pointer)
| Raw1 (p0 : pointer)
| Raw3 (p0 p1 p2 : pointer)
| RawCount3 (n : Z) (p0 p1 p2 : pointer).

(** Modelled from the spec: the external TIFF handle delivering raw field
    get and set ([IFD::getRawField], [IFD::getRawFieldDefaulted],
    [IFD::setRawField]); a directory is the association list of the fields
    set so far, and getting a field that is not set, or with another shape
    than it was set with, fails. *)
Definition IFD : Type := list (Z * RawField).

Fixpoint lookup (ifd : IFD) (tag : Z) : option RawField :=
  match ifd with
  | [] => None
  | (k, v) :: rest => if k =? tag then Some v else lookup rest tag
  end.

Definition setRawField (ifd : IFD) (tag : Z) (v : RawField) : IFD :=
  (tag, v) :: filter (fun kv => negb (fst kv =? tag)) ifd.

Definition failed_get {A} : result A :=
  Throw (TiffException "Failed to get field").

Definition getRawField16 (ifd : IFD) (tag : Z) : result Z :=
  match lookup ifd tag with
  | Some (Raw16 v) => Ok v
  | _ => failed_get
  end.

(** [getRawFieldDefaulted(TIFFTAG_EXTRASAMPLES, &count, &types)]: the count
    defaults to 0. *)
Definition getExtraSamples (ifd : IFD) : result Z :=
  match lookup ifd TIFFTAG_EXTRASAMPLES with
  | Some (RawCount16 n _) => Ok n
  | None => Ok 0
  | _ => failed_get
  end.

Definition getRawField1 (ifd : IFD) (tag : Z) : result pointer :=
  match lookup ifd tag with
  | Some (Raw1 p0) => Ok p0
  | Some (Raw3 p0 _ _) => Ok p0
  | _ => failed_get
  end.

Definition getRawField3 (ifd : IFD) (tag : Z)
  : result (pointer * pointer * pointer) :=
  match lookup ifd tag with
  | Some (Raw3 p0 p1 p2) => Ok (p0, p1, p2)
  | _ => failed_get
  end.

Definition getRawFieldCount3 (ifd : IFD) (tag : Z)
  : result (Z * (pointer * pointer * pointer)) :=
  match lookup ifd tag with
  | Some (RawCount3 n p0 p1 p2) => Ok (n, (p0, p1, p2))
  | _ => failed_get
  end.

(** [1U << bps] in 32-bit unsigned arithmetic. *)
Definition shl1 (bps : Z) : Z := Z.shiftl 1 bps mod 2 ^ 32.

(** [std::array<std::vector<uint16_t>, 3>]. *)
Definition array3 : Type := (list Z * list Z * list Z)%type.

Definition generic_array_get3 (ifd : IFD) (tag : Z) (readcount : Z)
  : result array3 :=
  let full (ps : pointer * pointer * pointer) (count : Z) : result array3 :=
    let '(p0, p1, p2) := ps in
    Ok (range p0 count, range p1 count, range p2 count) in
  (if tag =? TIFFTAG_COLORMAP
   then
     bps <- getRawField16 ifd TIFFTAG_BITSPERSAMPLE ;;
     ps <- getRawField3 ifd tag ;;
     full ps (shl1 bps)
   else if tag =? TIFFTAG_TRANSFERFUNCTION
   then
     spp <- getRawField16 ifd TIFFTAG_SAMPLESPERPIXEL ;;
     bps <- getRawField16 ifd TIFFTAG_BITSPERSAMPLE ;;
     extrasamples <- getExtraSamples ifd ;;
     if spp - extrasamples =? 1
     then
       p0 <- getRawField1 ifd tag ;;
       Ok (range p0 (shl1 bps), [], [])
     else
       ps <- getRawField3 ifd tag ;;
       full ps (shl1 bps)
   else if readcount =? TIFF_SPP
   then
     spp <- getRawField16 ifd TIFFTAG_SAMPLESPERPIXEL ;;
     ps <- getRawField3 ifd tag ;;
     full ps spp
   else if readcount =? TIFF_VARIABLE
   then
     r <- getRawFieldCount3 ifd tag ;;
     full (snd r) (fst r mod 2 ^ 16)
   else if readcount =? TIFF_VARIABLE2
   then
     r <- getRawFieldCount3 ifd tag ;;
     full (snd r) (fst r mod 2 ^ 32)
   else
     ps <- getRawField3 ifd tag ;;
     full ps (readcount mod 2 ^ 32))%res.

Definition len (v : list Z) : Z := Z.of_nat (List.length v).

Definition generic_array_set3 (ifd : IFD) (tag : Z) (writecount : Z)
           (value : array3) : result IFD :=
  let '(v0, v1, v2) := value in
  let size := 3 (* value.size() of the std::array *) in
  let three := Raw3 (data v0) (data v1) (data v2) in
  (if negb (len v0 =? len v1) || negb (len v0 =? len v2)
   then Throw (TiffException "Field array sizes are not equal")
   else if tag =? TIFFTAG_COLORMAP
   then Ok (setRawField ifd tag three)
   else if tag =? TIFFTAG_TRANSFERFUNCTION
   then
     spp <- getRawField16 ifd TIFFTAG_SAMPLESPERPIXEL ;;
     extrasamples <- getExtraSamples ifd ;;
     if 1 <? spp - extrasamples
     then Ok (setRawField ifd tag three)
     else Ok (setRawField ifd tag (Raw1 (data v0)))
   else if writecount =? TIFF_SPP
   then
     spp <- getRawField16 ifd TIFFTAG_SAMPLESPERPIXEL ;;
     if negb (size =? spp)
     then Throw (TiffException "Field array size does not match SamplesPerPixel")
     else Ok (setRawField ifd tag three)
   else if writecount =? TIFF_VARIABLE
   then
     if 65535 <? len v0
     then Throw (TiffException "Field array size is greater than maximum write count")
     else Ok (setRawField ifd tag (RawCount3 size (data v0) (data v1) (data v2)))
   else if writecount =? TIFF_VARIABLE2
   then
     if 4294967295 <? len v0
     then Throw (TiffException "Field array size is greater than maximum write count")
     else Ok (setRawField ifd tag (RawCount3 size (data v0) (data v1) (data v2)))
   else Ok (setRawField ifd tag three))%res.

End Field.

(** ** Raw byte streams: the helpers of OMETIFFWriter.cpp *)

Module RawStream.

(** The content of a file opened as a read/write byte stream. *)
Definition stream : Type := list byte.

Inductive EndianType : Type := ENDIAN_BIG | ENDIAN_LITTLE | ENDIAN_NATIVE.

Definition size (s : list byte) : Z := Z.of_nat (List.length s).

(** The value of [n] bytes in a given byte order.  [ENDIAN_NATIVE] is the
    order of the x86-64 hosts the library is built on. *)
Definition decode (endian : EndianType) (bs : list byte) : Z :=
  match endian with
  | ENDIAN_BIG => le_combine (rev bs)
  | ENDIAN_LITTLE => le_combine bs
  | ENDIAN_NATIVE => le_combine bs
  end.

(** The [n] bytes of a value in a given byte order; the conversion to the
    [n]-byte type truncates. *)
Definition encode (endian : EndianType) (n : nat) (v : Z) : list byte :=
  match endian with
  | ENDIAN_BIG => rev (le_split n v)
  | ENDIAN_LITTLE => le_split n v
  | ENDIAN_NATIVE => le_split n v
  end.

(** [std::streamoff] is a signed 64-bit integer: an unsigned offset with the
    top bit set is negative, and seeking to it fails. *)
Definition seekable (off : Z) : bool := off <? 2 ^ 63.

(** [in.read] of [n] bytes at the current position [pos]. *)
Definition read_here (n : nat) (endian : EndianType) (pos : Z) (s : stream)
  : result Z :=
  if size s <? pos + Z.of_nat n
  then Throw (runtime_error "Failed to read value from stream")
  else Ok (decode endian (firstn n (skipn (Z.to_nat pos) s))).

(** The value of the [n] bytes at offset [off]. *)
Definition field (n : nat) (endian : EndianType) (off : Z) (s : stream) : Z :=
  decode endian (firstn n (skipn (Z.to_nat off) s)).

(** The first [T] bytes of a file, and the bytes from offset [T] on. *)
Definition prefix (T : Z) (s : stream) : stream := firstn (Z.to_nat T) s.
Definition suffix (T : Z) (s : stream) : stream := skipn (Z.to_nat T) s.

(** [read_raw<T, B, L, N>(in, off, endian)]. *)
Definition read_raw (n : nat) (endian : EndianType) (off : Z) : M stream Z :=
  mconst (fun s =>
            if negb (seekable off)
            then Throw (runtime_error "Bad istream offset")
            else read_here n endian off s).

Definition read_raw_uint16 := read_raw 2.
Definition read_raw_uint32 := read_raw 4.
Definition read_raw_uint64 := read_raw 8.

(** Writing [bs] at offset [off]: the bytes there are overwritten, and the
    file grows when the write runs past its end. *)
Definition overwrite (s : stream) (off : nat) (bs : list byte) : stream :=
  firstn off s ++ repeat Byte.x00 (off - List.length s) ++ bs
         ++ skipn (off + List.length bs) s.

(** [write_raw<T, B, L, N>(in, off, endian, value)]. *)
Definition write_raw (n : nat) (endian : EndianType) (off : Z) (value : Z)
  : M stream unit :=
  fun s =>
    if negb (seekable off)
    then (Throw (runtime_error "Bad ostream offset"), s)
    else (Ok tt, overwrite s (Z.to_nat off) (encode endian n value)).

Definition write_raw_uint32 := write_raw 4.
Definition write_raw_uint64 := write_raw 8.

(** [std::isspace] in the classic locale. *)
Definition isspace (b : byte) : bool :=
  let c := byte.unsigned b in
  (c =? 32) || ((9 <=? c) && (c <=? 13)).

(** [in >> c]: skip white space, then extract one character; the result is
    the character and the position after it, or [None] at end of file. *)
Fixpoint extract_char (rest : list byte) (pos : Z) : option (byte * Z) :=
  match rest with
  | [] => None
  | b :: tl => if isspace b then extract_char tl (pos + 1)
               else Some (b, pos + 1)
  end.

End RawStream.

(** ** The OME-TIFF writer *)

Module OMETIFFWriter.

Import RawStream.

Definition default_description : string := "OME-TIFF".

Definition TIFFTAG_IMAGEDESCRIPTION : Z := 270.
Definition TIFF_ASCII : Z := 2.

Definition char_I : byte := Byte.x49.
Definition char_M : byte := Byte.x4d.

(** Offset of directory entry [i] of the directory at [ifd0Offset], in
    [uint64_t] arithmetic. *)
Definition tagOffset (bigOffsets : bool) (ifd0Offset i : Z) : Z :=
  if bigOffsets then wadd (wadd ifd0Offset 8) (wmul i 20)
  else wadd (wadd ifd0Offset 2) (wmul i 12).

(** The layout of a directory, as section 6 of the specification gives it:
    classic TIFF has a 16-bit entry count and entries of 12 bytes (2+2+4+4),
    BigTIFF a 64-bit entry count and entries of 20 bytes (2+2+8+8). *)
Definition entries_start (bigOffsets : bool) : Z := if bigOffsets then 8 else 2.
Definition entry_size (bigOffsets : bool) : Z := if bigOffsets then 20 else 12.
Definition value_size (bigOffsets : bool) : nat := if bigOffsets then 8%nat else 4%nat.

Definition entryOffset (bigOffsets : bool) (ifd0Offset i : Z) : Z :=
  ifd0Offset + entries_start bigOffsets + i * entry_size bigOffsets.

(** The four fields of directory entry [i] in the file [s]: tag at +0, type at
    +2, count at +4, value or offset at +8 (classic) or +12 (BigTIFF). *)
Definition entry_tag (e : EndianType) (big : bool) (ifd0 i : Z) (s : stream) : Z :=
  field 2 e (entryOffset big ifd0 i) s.
Definition entry_type (e : EndianType) (big : bool) (ifd0 i : Z) (s : stream) : Z :=
  field 2 e (entryOffset big ifd0 i + 2) s.
Definition entry_count (e : EndianType) (big : bool) (ifd0 i : Z) (s : stream) : Z :=
  field (value_size big) e (entryOffset big ifd0 i + 4) s.
Definition entry_value (e : EndianType) (big : bool) (ifd0 i : Z) (s : stream) : Z :=
  field (value_size big) e
        (entryOffset big ifd0 i + 4 + Z.of_nat (value_size big)) s.

(** The file once the count and offset fields of entry [i] have been
    overwritten with [xmlsize + 1] and [descOffset]. *)
Definition patched (e : EndianType) (big : bool) (ifd0 descOffset xmlsize : Z)
           (h : stream) (i : Z) : stream :=
  overwrite
    (overwrite h (Z.to_nat (entryOffset big ifd0 i + 4))
               (encode e (value_size big) (wadd xmlsize 1)))
    (Z.to_nat (entryOffset big ifd0 i + 4 + Z.of_nat (value_size big)))
    (encode e (value_size big) descOffset).

(** The loop over the directory entries of IFD 0; [n] entries remain, [i] is
    the loop counter and [found] the flag. *)
Fixpoint patch_entries (endian : EndianType) (bigOffsets : bool)
         (ifd0Offset descOffset xmlsize : Z) (n : nat) (i : Z) (found : bool)
  : M stream bool :=
  match n with
  | O => mret found
  | S n' =>
      let tagOff := tagOffset bigOffsets ifd0Offset i in
      (tagid <- read_raw_uint16 endian (wadd tagOff 0) ;;
       tagtype <- read_raw_uint16 endian (wadd tagOff 2) ;;
       if negb (tagid =? TIFFTAG_IMAGEDESCRIPTION)
       then patch_entries endian bigOffsets ifd0Offset descOffset xmlsize
                          n' (i + 1) found
       else if negb (tagtype =? TIFF_ASCII)
       then mthrow (FormatException "Invalid TIFF ImageDescription type %1%"
                                    [tagtype])
       else
         count <- (if bigOffsets
                   then read_raw_uint64 endian (wadd tagOff 4)
                   else read_raw_uint32 endian (wadd tagOff 4)) ;;
         if negb (count =? Z.of_nat (String.length default_description) + 1)
         then mthrow (FormatException "TIFF ImageDescription size is incorrect" [])
         else
           (if bigOffsets
            then write_raw_uint64 endian (wadd tagOff 4) (wadd xmlsize 1) ;;;
                 write_raw_uint64 endian (wadd tagOff 12) descOffset
            else write_raw_uint32 endian (wadd tagOff 4) (wadd xmlsize 1) ;;;
                 write_raw_uint32 endian (wadd tagOff 8) descOffset) ;;;
           patch_entries endian bigOffsets ifd0Offset descOffset xmlsize
                         n' (i + 1) true)%M
  end.

Definition bad_endian {A} (cs : list Z) : M stream A :=
  mthrow (FormatException
            "%1% is not a valid TIFF file: Invalid endian header" cs).

(** The TIFF header as [saveComment] reads it: byte order, BigTIFF flag and
    the offset of IFD 0.  At the end of the file no character is extracted, and
    what the array then holds does not spell a byte order. *)
Definition read_header : M stream (EndianType * bool * Z) :=
  (s <- mget ;;
   match extract_char s 0 with
   | None => bad_endian []
   | Some (c0, p0) =>
       match extract_char (skipn (Z.to_nat p0) s) p0 with
       | None => bad_endian [byte.unsigned c0]
       | Some (c1, pos) =>
           endian <-
             (if Byte.eqb c0 char_I && Byte.eqb c1 char_I then mret ENDIAN_LITTLE
              else if Byte.eqb c0 char_M && Byte.eqb c1 char_M then mret ENDIAN_BIG
              else bad_endian [byte.unsigned c0; byte.unsigned c1]) ;;
           version <- mconst (read_here 2 endian pos) ;;
           bigOffsets <-
             (if version =? 42 then mret false
              else if version =? 43 then mret true
              else mthrow (FormatException
                             "%1% is not a valid TIFF file: Invalid version %2%"
                             [version])) ;;
           offsetSize <-
             (if bigOffsets : bool then mconst (read_here 2 endian (pos + 2))
              else mret 4) ;;
           if negb (offsetSize =? 4) && negb (offsetSize =? 8)
           then mthrow (FormatException
                          "%1% uses a nonstandard offset size of %2% bytes"
                          [offsetSize])
           else
             ifd0Offset <-
               (if bigOffsets then read_raw_uint64 endian 8
                else read_raw_uint32 endian 4) ;;
             mret (endian, bigOffsets, ifd0Offset)
       end
   end)%M.

(** [in.seekp(0, std::ios::end); descOffset = in.tellp(); in << xml << '\0';] *)
Definition append_xml (xml : list byte) : M stream Z :=
  fun s => (Ok (size s), s ++ xml ++ [Byte.x00]).

Definition saveComment (xml : list byte) : M stream unit :=
  (h <- read_header ;;
   let '(endian, bigOffsets, ifd0Offset) := h in
   descOffset <- append_xml xml ;;
   entries <- (if bigOffsets then read_raw_uint64 endian ifd0Offset
               else read_raw_uint16 endian ifd0Offset) ;;
   found <- patch_entries endian bigOffsets ifd0Offset descOffset (size xml)
                          (Z.to_nat entries) 0 false ;;
   if negb found
   then mthrow (FormatException "Could not find TIFF ImageDescription tag" [])
   else mret tt)%M.

(** What the post-close patch achieves on a file [f] that became [f']: the
    header of [f] names a byte order, a format and IFD 0; in the file [g] with
    the XML text and a NUL appended, IFD 0 has an ImageDescription entry; every
    such entry had type ASCII and the count of the placeholder, and in [f'] has
    its count field (at +4) equal to [len(xml) + 1] and its offset field (at +8
    for classic TIFF, +12 for BigTIFF) equal to the offset of the appended
    text, both as 32-bit (classic) or 64-bit (BigTIFF) values; and where IFD 0
    lies within [f], the entries read the same in [f] as in [g], and [f'] is
    [f] patched, followed by the XML text and a single NUL. *)
Definition description_patched (xml : list byte) (f f' : stream) : Prop :=
  exists endian big ifd0 entries,
    read_header f = (Ok (endian, big, ifd0), f) /\
    let g := f ++ xml ++ [Byte.x00] in
    let bits := if (big : bool) then 64 else 32 in
    entries = field (if big then 8%nat else 2%nat) endian ifd0 g /\
    (exists i, 0 <= i < entries /\
               entry_tag endian big ifd0 i g = TIFFTAG_IMAGEDESCRIPTION) /\
    (forall i,
        0 <= i < entries ->
        entry_tag endian big ifd0 i g = TIFFTAG_IMAGEDESCRIPTION ->
        entry_type endian big ifd0 i g = TIFF_ASCII /\
        entry_count endian big ifd0 i g
        = Z.of_nat (String.length default_description) + 1 /\
        entry_tag endian big ifd0 i f' = TIFFTAG_IMAGEDESCRIPTION /\
        entry_type endian big ifd0 i f' = TIFF_ASCII /\
        entry_count endian big ifd0 i f' = (size xml + 1) mod 2 ^ bits /\
        entry_value endian big ifd0 i f' = size f mod 2 ^ bits) /\
    (entryOffset big ifd0 entries <= size f ->
     size f' = size f + size xml + 1 /\
     suffix (size f) f' = xml ++ [Byte.x00] /\
     forall i,
       0 <= i < entries ->
       entry_tag endian big ifd0 i g = entry_tag endian big ifd0 i f /\
       entry_type endian big ifd0 i g = entry_type endian big ifd0 i f /\
       entry_count endian big ifd0 i g = entry_count endian big ifd0 i f).

(** *** The TIFF handle as the writer drives it *)

Inductive TileType : Type := STRIP | TILE.
Inductive PlanarConfiguration : Type := CONTIG | SEPARATE.
Inductive PhotometricInterpretation : Type := MIN_IS_BLACK | RGB.

Definition SUBFILETYPE_REDUCEDIMAGE : Z := 1.
Definition SUBFILETYPE_PAGE : Z := 2.

(** Modelled from the spec: the directory object of the external TIFF handle
    ([tiff::IFD]), a record of the fields that [setupIFD] sets, each getter
    returning what the matching setter stored. *)
Record IFD : Type := mkIFD {
  imageWidth : Z;
  imageHeight : Z;
  tileType : TileType;
  tileWidth : Z;
  tileHeight : Z;
  samplesPerPixel : Z;
  planarConfiguration : PlanarConfiguration;
  photometricInterpretation : PhotometricInterpretation;
  imageDescription : option string;
  subfileType : Z;
  subIFDCount : option Z
}.

Definition emptyIFD : IFD :=
  mkIFD 0 0 STRIP 0 0 1 CONTIG MIN_IS_BLACK None 0 None.

Definition getTileWidth (ifd : IFD) : Z := tileWidth ifd.
Definition getTileHeight (ifd : IFD) : Z := tileHeight ifd.

(** Modelled from the spec: the external TIFF handle ([tiff::TIFF]): the
    directory being built and the directories written so far. *)
Record TIFF : Type := mkTIFF {
  currentDirectory : IFD;
  directories : list IFD
}.

Definition writeCurrentDirectory (tf : TIFF) : TIFF :=
  mkTIFF emptyIFD (directories tf ++ [currentDirectory tf]).

Record TIFFState : Type := mkTIFFState {
  uuid : string;
  tiff : TIFF;
  ifdCount : Z
}.

(** [std::map<path, TIFFState>], as an association list. *)
Definition tiff_map : Type := list (string * TIFFState).

Fixpoint find (m : tiff_map) (k : string) : option TIFFState :=
  match m with
  | [] => None
  | (k', v) :: rest => if String.eqb k' k then Some v else find rest k
  end.

Fixpoint assign (m : tiff_map) (k : string) (v : TIFFState) : tiff_map :=
  match m with
  | [] => []
  | (k', v') :: rest =>
      if String.eqb k' k then (k', v) :: rest else (k', v') :: assign rest k v
  end.

Record t : Type := mkWriter {
  base : FormatWriter.t;
  tiffs : tiff_map;
  (* an iterator into [tiffs]: the key it points at, [None] for [end()] *)
  currentTIFF : option string;
  flags : string;
  (* [seriesState[s].planes] *)
  seriesState : list (list OMETIFF.OMETIFFPlane);
  (* after the first [setId] this is the object [metadataRetrieve] points at *)
  omeMeta : option Metadata.MetadataRetrieve;
  bigTIFF : option bool
}.

Definition set_base (w : t) (b : FormatWriter.t) : t :=
  mkWriter b (tiffs w) (currentTIFF w) (flags w) (seriesState w) (omeMeta w)
           (bigTIFF w).
Definition set_tiffs (w : t) (m : tiff_map) : t :=
  mkWriter (base w) m (currentTIFF w) (flags w) (seriesState w) (omeMeta w)
           (bigTIFF w).
Definition set_currentTIFF (w : t) (c : option string) : t :=
  mkWriter (base w) (tiffs w) c (flags w) (seriesState w) (omeMeta w)
           (bigTIFF w).
Definition set_seriesState (w : t) (st : list (list OMETIFF.OMETIFFPlane)) : t :=
  mkWriter (base w) (tiffs w) (currentTIFF w) (flags w) st (omeMeta w)
           (bigTIFF w).
(** The store is shared: [omeMeta] and [metadataRetrieve] are one object. *)
Definition set_store (w : t) (m : Metadata.MetadataRetrieve) : t :=
  let b := base w in
  mkWriter
    (FormatWriter.mkFormatWriter
       (FormatWriter.currentId b) (FormatWriter.series b)
       (FormatWriter.resolution b) (FormatWriter.plane b)
       (FormatWriter.compression b) (FormatWriter.interleaved b)
       (FormatWriter.sequential b) (FormatWriter.framesPerSecond b)
       (FormatWriter.tile_size_x b) (FormatWriter.tile_size_y b)
       (Some m) (FormatWriter.resolutionLevels b))
    (tiffs w) (currentTIFF w) (flags w) (seriesState w) (Some m) (bigTIFF w).

(** Run a base-class member function on the base sub-object. *)
Definition on_base {A} (m : M FormatWriter.t A) : M t A :=
  fun w => let '(r, b) := m (base w) in (r, set_base w b).

Definition const_base {A} (f : FormatWriter.t -> result A) : M t A :=
  mconst (fun w => f (base w)).

(** [currentTIFF->second]: the iterator must not be [end()]. *)
Definition current (w : t) : result (string * TIFFState) :=
  match currentTIFF w with
  | None => Throw (runtime_error "end() iterator dereferenced")
  | Some k => match find (tiffs w) k with
              | Some st => Ok (k, st)
              | None => Throw (runtime_error "end() iterator dereferenced")
              end
  end.

Definition update_current (f : TIFFState -> TIFFState) : M t unit :=
  fun w => match current w with
           | inl e => (Throw e, w)
           | inr (k, st) => (Ok tt, set_tiffs w (assign (tiffs w) k (f st)))
           end.

Definition update_ifd (f : IFD -> IFD) : M t unit :=
  update_current (fun st =>
    mkTIFFState (uuid st)
                (mkTIFF (f (currentDirectory (tiff st))) (directories (tiff st)))
                (ifdCount st)).

Definition getCurrentDirectory (w : t) : result IFD :=
  (c <- current w ;; Ok (currentDirectory (tiff (snd c))))%res.

Definition nonzero_or_unset (size : option Z) : bool :=
  match size with
  | None => true
  | Some v => negb (v =? 0)
  end.

Definition getTileSizeX (w : t) : result Z :=
  match FormatWriter.currentId (base w) with
  | Some _ =>
      if nonzero_or_unset (FormatWriter.tile_size_x (base w))
      then (ifd <- getCurrentDirectory w ;; Ok (getTileWidth ifd))%res
      else FormatWriter.getTileSizeX (base w)
  | None => FormatWriter.getTileSizeX (base w)
  end.

Definition getTileSizeY (w : t) : result Z :=
  match FormatWriter.currentId (base w) with
  | Some _ =>
      if nonzero_or_unset (FormatWriter.tile_size_y (base w))
      then (ifd <- getCurrentDirectory w ;; Ok (getTileWidth ifd))%res
      else FormatWriter.getTileSizeY (base w)
  | None => FormatWriter.getTileSizeY (base w)
  end.

Definition nextIFD : M t unit :=
  update_current (fun st =>
    mkTIFFState (uuid st) (writeCurrentDirectory (tiff st))
                (wadd (ifdCount st) 1)).

Definition nextSUBIFD : M t unit :=
  update_current (fun st =>
    mkTIFFState (uuid st) (writeCurrentDirectory (tiff st)) (ifdCount st)).

Definition setTile (ty : TileType) (w h : Z) (ifd : IFD) : IFD :=
  mkIFD (imageWidth ifd) (imageHeight ifd) ty w h (samplesPerPixel ifd)
        (planarConfiguration ifd) (photometricInterpretation ifd)
        (imageDescription ifd) (subfileType ifd) (subIFDCount ifd).

Definition setImageSize (w h : Z) (ifd : IFD) : IFD :=
  mkIFD w h (tileType ifd) (tileWidth ifd) (tileHeight ifd)
        (samplesPerPixel ifd) (planarConfiguration ifd)
        (photometricInterpretation ifd) (imageDescription ifd)
        (subfileType ifd) (subIFDCount ifd).

Definition setSamples (spp : Z) (pc : PlanarConfiguration)
           (ph : PhotometricInterpretation) (ifd : IFD) : IFD :=
  mkIFD (imageWidth ifd) (imageHeight ifd) (tileType ifd) (tileWidth ifd)
        (tileHeight ifd) spp pc ph (imageDescription ifd) (subfileType ifd)
        (subIFDCount ifd).

Definition setDescription (d : string) (ifd : IFD) : IFD :=
  mkIFD (imageWidth ifd) (imageHeight ifd) (tileType ifd) (tileWidth ifd)
        (tileHeight ifd) (samplesPerPixel ifd) (planarConfiguration ifd)
        (photometricInterpretation ifd) (Some d) (subfileType ifd)
        (subIFDCount ifd).

Definition setSubfile (ty : Z) (n : option Z) (ifd : IFD) : IFD :=
  mkIFD (imageWidth ifd) (imageHeight ifd) (tileType ifd) (tileWidth ifd)
        (tileHeight ifd) (samplesPerPixel ifd) (planarConfiguration ifd)
        (photometricInterpretation ifd) (imageDescription ifd) ty
        (match n with Some _ => n | None => subIFDCount ifd end).

(** [setupIFD]; the pixel type, bit depth and compression scheme are set on
    the handle as well and play no part here. *)
Definition setupIFD : M t unit :=
  (mconst (fun w => rbind (current w) (fun _ => Ok tt)) ;;;
   sizeX <- const_base FormatWriter.getSizeX ;;
   sizeY <- const_base FormatWriter.getSizeY ;;
   update_ifd (setImageSize sizeX sizeY) ;;;
   w <- mget ;;
   let tx := FormatWriter.tile_size_x (base w) in
   let ty := FormatWriter.tile_size_y (base w) in
   (if sizeX =? 0
    then mthrow (FormatException "Can't set strip or tile size: SizeX is 0" [])
    else match tx, ty with
         | None, Some y =>
             if negb (y =? 0) then update_ifd (setTile STRIP sizeX y)
             else update_ifd (setTile STRIP sizeX 1)
         | Some x, Some y =>
             if negb (x =? 0) && negb (y =? 0)
             then update_ifd (setTile TILE x y)
             else update_ifd (setTile STRIP sizeX 1)
         | _, None =>
             if sizeX <? 2048
             then
               let height := (65536 / sizeX) mod 2 ^ 32 in
               update_ifd (setTile STRIP sizeX (if height =? 0 then 1 else height))
             else update_ifd (setTile TILE 256 256)
         end) ;;;
   p <- const_base FormatWriter.getPlane ;;
   coords <- const_base (fun b => FormatWriter.getZCTCoords b p) ;;
   let channel := snd (fst coords) in
   samples <- const_base (fun b => FormatWriter.getRGBChannelCount b channel) ;;
   rgb <- const_base (fun b => FormatWriter.isRGB b channel) ;;
   update_ifd
     (setSamples samples
        (match FormatWriter.interleaved (base w) with
         | Some true => CONTIG
         | _ => SEPARATE
         end)
        (if (rgb : bool) && (samples =? 3) then RGB else MIN_IS_BLACK)) ;;;
   c <- mconst current ;;
   (if ifdCount (snd c) =? 0
    then update_ifd (setDescription default_description)
    else mret tt) ;;;
   r <- const_base FormatWriter.getResolution ;;
   if r =? 0
   then
     n <- const_base FormatWriter.getResolutionCount ;;
     update_ifd (setSubfile SUBFILETYPE_PAGE
                            (if 1 <? n then Some (wsub n 1) else None))
   else
     update_ifd (setSubfile (Z.lor SUBFILETYPE_PAGE SUBFILETYPE_REDUCEDIMAGE)
                            None))%M.

(** The plane table that the first [setId] allocates for one series. *)
Definition initialPlanes (m : Metadata.MetadataRetrieve) (series : Z)
  : result (list OMETIFF.OMETIFFPlane) :=
  (sizeZ <- Metadata.getPixelsSizeZ m series ;;
   sizeT <- Metadata.getPixelsSizeT m series ;;
   effC <- Metadata.getChannelCount m series ;;
   let planeCount := wmul (wmul sizeZ sizeT) effC in
   Ok (repeat (OMETIFF.mkPlane "" 0 true OMETIFF.ABSENT) (Z.to_nat planeCount)))%res.

Fixpoint initialSeriesState (m : Metadata.MetadataRetrieve) (series : list Z)
  : result (list (list OMETIFF.OMETIFFPlane)) :=
  match series with
  | [] => Ok []
  | s :: rest =>
      (planes <- initialPlanes m s ;;
       more <- initialSeriesState m rest ;;
       Ok (planes :: more))%res
  end.

(** [tiffs.insert(value)]: the map is ordered by path. *)
Fixpoint insert (m : tiff_map) (k : string) (v : TIFFState) : tiff_map :=
  match m with
  | [] => [(k, v)]
  | (k', v') :: rest =>
      if String.eqb k' k then m
      else if String.ltb k k' then (k, v) :: m
      else (k', v') :: insert rest k v
  end.

Definition set_flags (w : t) (f : string) : t :=
  mkWriter (base w) (tiffs w) (currentTIFF w) f (seriesState w) (omeMeta w)
           (bigTIFF w).

(** The part of [setId] that runs on the first call only. *)
Definition setId_first : M t unit :=
  (m <- const_base FormatWriter.deref ;;
   (fun w => (Ok tt, set_store w m)) ;;;
   let seriesCount := Metadata.getImageCount m in
   st <- mconst (fun _ => initialSeriesState m
                            (map Z.of_nat (seq 0 (Z.to_nat seriesCount)))) ;;
   fun w => (Ok tt, set_seriesState w st))%M.

(** [setId]; [new_uuid] is the random UUID drawn when a file is opened and
    [big] the verdict of [enableBigTIFF].  The path is kept as given, and the
    conversion of the caller's store into the OME-XML store keeps the values
    the model holds. *)
Definition setId (id : string) (new_uuid : string) (big : bool) : M t unit :=
  fun w0 =>
    let body : M t unit :=
      (w <- mget ;;
       (match seriesState w with
        | [] => setId_first
        | _ => mret tt
        end) ;;;
       (fun w => (Ok tt, if String.eqb (flags w) ""
                         then set_flags w (if big then "w8" else "w")
                         else w)) ;;;
       w <- mget ;;
       match find (tiffs w) id with
       | None =>
           on_base (FormatWriter.setId id) ;;;
           (fun w => (Ok tt,
                      set_currentTIFF
                        (set_tiffs w (insert (tiffs w) id
                                        (mkTIFFState new_uuid
                                                     (mkTIFF emptyIFD []) 0)))
                        (Some id))) ;;;
           on_base (FormatWriter.setId id) ;;;
           setupIFD
       | Some _ =>
           on_base (FormatWriter.setId id) ;;;
           (fun w => (Ok tt, set_currentTIFF w (Some id)))
       end)%M in
    match FormatWriter.currentId (base w0) with
    | Some cur => if String.eqb cur id then (Ok tt, w0) else body w0
    | None => body w0
    end.

Definition setSeries (series : Z) : M t unit :=
  (currentSeries <- const_base FormatWriter.getSeries ;;
   on_base (FormatWriter.setSeries series) ;;;
   if negb (currentSeries =? series)
   then nextIFD ;;; setupIFD
   else mret tt)%M.

Definition setResolution (resolution : Z) : M t unit :=
  (currentResolution <- const_base FormatWriter.getResolution ;;
   on_base (FormatWriter.setResolution resolution) ;;;
   if negb (currentResolution =? resolution)
   then nextSUBIFD ;;; setupIFD
   else mret tt)%M.

Definition setPlane (plane : Z) : M t unit :=
  (currentPlane <- const_base FormatWriter.getPlane ;;
   on_base (FormatWriter.setPlane plane) ;;;
   if negb (currentPlane =? plane)
   then nextIFD ;;; setupIFD
   else mret tt)%M.

(** [saveBytes(plane, buf, x, y, w, h)]; the pixel data itself goes to the
    TIFF handle and is not part of the model. *)
Definition saveBytes (plane : Z) : M t unit :=
  (const_base (fun b => FormatWriter.assertId (FormatWriter.currentId b) true) ;;;
   setPlane plane ;;;
   series <- const_base FormatWriter.getSeries ;;
   w <- mget ;;
   planes <- mconst (fun _ => at_ (seriesState w) series) ;;
   mconst (fun _ => at_ planes plane) ;;;
   r <- const_base FormatWriter.getResolution ;;
   if r =? 0
   then
     c <- mconst current ;;
     let planeMeta :=
       OMETIFF.mkPlane (fst c) (ifdCount (snd c)) true OMETIFF.PRESENT in
     fun w => (Ok tt,
               set_seriesState w
                 (OMETIFFReader.replace_nth (Z.to_nat series) (seriesState w)
                    (OMETIFFReader.replace_nth (Z.to_nat plane) planes planeMeta)))
   else mret tt)%M.

(** Modelled from the spec: [removeTiffData] of the metadata helpers, which
    removes every TiffData element of every image. *)
Definition removeTiffData (m : Metadata.MetadataRetrieve)
  : Metadata.MetadataRetrieve :=
  map (fun im =>
         Metadata.mkImage (Metadata.SizeX im) (Metadata.SizeY im)
           (Metadata.SizeZ im) (Metadata.SizeT im) (Metadata.SizeC im)
           (Metadata.PixelsDimensionOrder im) (Metadata.Channels im) [])
      m.

(** Modelled from the spec: the TiffData setters of the metadata store; the
    element [td] of image [series] is created when it does not exist yet. *)
Definition emptyTiffData : Metadata.TiffData :=
  Metadata.mkTiffData None None None None None None None.

Fixpoint modify_nth {A} (d : A) (f : A -> A) (n : nat) (l : list A) : list A :=
  match n, l with
  | O, [] => [f d]
  | O, a :: tl => f a :: tl
  | S n', [] => d :: modify_nth d f n' []
  | S n', a :: tl => a :: modify_nth d f n' tl
  end.

Definition setTiffData (f : Metadata.TiffData -> Metadata.TiffData)
           (series td : Z) (m : Metadata.MetadataRetrieve)
  : result Metadata.MetadataRetrieve :=
  (im <- Metadata.getImage m series ;;
   Ok (OMETIFFReader.replace_nth (Z.to_nat series) m
         (Metadata.mkImage (Metadata.SizeX im) (Metadata.SizeY im)
            (Metadata.SizeZ im) (Metadata.SizeT im) (Metadata.SizeC im)
            (Metadata.PixelsDimensionOrder im) (Metadata.Channels im)
            (modify_nth emptyTiffData f (Z.to_nat td)
                        (Metadata.TiffDataList im)))))%res.

(** The number of planes of all series that are not [PRESENT]. *)
Definition countBadPlanes (st : list (list OMETIFF.OMETIFFPlane)) : Z :=
  fold_left
    (fun bad planes =>
       fold_left
         (fun bad plane =>
            if negb (OMETIFF.Status_eqb (OMETIFF.status plane) OMETIFF.PRESENT)
            then wadd bad 1 else bad)
         planes bad)
    st 0.

(** The number of planes that are not [PRESENT], without wrap-around. *)
Definition unwritten (st : list (list OMETIFF.OMETIFFPlane)) : Z :=
  Z.of_nat
    (List.length
       (filter (fun plane =>
                  negb (OMETIFF.Status_eqb (OMETIFF.status plane) OMETIFF.PRESENT))
               (List.concat st))).

Definition IncompletePlanes (badPlanes : Z) : exn :=
  FormatException "Inconsistent writer state: %1% planes have not been written"
                  [badPlanes].

(** The TiffData element written for one plane. *)
Definition planeTiffData (file : string) (uuid : string) (coords : Z * Z * Z)
           (ifd : Z) : Metadata.TiffData :=
  let '(z, c, t) := coords in
  Metadata.mkTiffData (Some ifd) (Some 1) (Some z) (Some c) (Some t)
                      (Some file) (Some (String.append "urn:uuid:" uuid)).

Fixpoint fillPlanes (w : t) (series : Z) (order : DimensionOrder)
         (sizeZ effC sizeT imageCount : Z) (planes : list Z)
         (m : Metadata.MetadataRetrieve) : result Metadata.MetadataRetrieve :=
  match planes with
  | [] => Ok m
  | plane :: rest =>
      (coords <- FormatTools.getZCTCoords order sizeZ effC sizeT imageCount plane ;;
       states <- at_ (seriesState w) series ;;
       planeState <- at_ states plane ;;
       match find (tiffs w) (OMETIFF.id planeState) with
       | Some st =>
           m' <- setTiffData
                   (fun _ => planeTiffData (OMETIFF.id planeState) (uuid st)
                                           coords (OMETIFF.index planeState))
                   series plane m ;;
           fillPlanes w series order sizeZ effC sizeT imageCount rest m'
       | None =>
           Throw (FormatException
                    "Inconsistent writer state: TIFF file %1% not registered with a UUID"
                    [])
       end)%res
  end.

Fixpoint fillSeries (w : t) (series : list Z) (m : Metadata.MetadataRetrieve)
  : result Metadata.MetadataRetrieve :=
  match series with
  | [] => Ok m
  | s :: rest =>
      (dimOrder <- Metadata.getPixelsDimensionOrder m s ;;
       sizeZ <- Metadata.getPixelsSizeZ m s ;;
       sizeT <- Metadata.getPixelsSizeT m s ;;
       effC <- Metadata.getChannelCount m s ;;
       let imageCount := wmul (wmul sizeZ sizeT) effC in
       m0 <- (if imageCount =? 0
              then setTiffData
                     (fun d => Metadata.mkTiffData
                                 (Metadata.IFD d) (Some 0) (Metadata.FirstZ d)
                                 (Metadata.FirstC d) (Metadata.FirstT d)
                                 (Metadata.UUIDFileName d) (Metadata.UUIDValue d))
                     s 0 m
              else Ok m) ;;
       m1 <- fillPlanes w s dimOrder sizeZ effC sizeT imageCount
                        (map Z.of_nat (seq 0 (Z.to_nat imageCount))) m0 ;;
       fillSeries w rest m1)%res
  end.

Definition fillMetadata : M t unit :=
  fun w =>
    match omeMeta w with
    | None => (Throw (logic_error "OMEXMLMetadata null" []), w)
    | Some m =>
        let badPlanes := countBadPlanes (seriesState w) in
        if negb (badPlanes =? 0)
        then (Throw (IncompletePlanes badPlanes), w)
        else
          match FormatWriter.getSeriesCount (base w) with
          | inl e => (Throw e, w)
          | inr seriesCount =>
              match fillSeries w (map Z.of_nat (seq 0 (Z.to_nat seriesCount))) m with
              | inl e => (Throw e, w)
              | inr m' => (Ok tt, set_store w m')
              end
          end
    end.

(** What lies outside the library: the bytes the TIFF library leaves in the
    file of a closed handle, and the OME-XML text of a store for a given
    document UUID. *)
Record External : Type := mkExternal {
  tiff_bytes : TIFF -> list byte;
  xml_text : Metadata.MetadataRetrieve -> string -> list byte
}.

(** The files on disk, by path. *)
Definition Disk : Type := list (string * stream).

Fixpoint disk_find (d : Disk) (k : string) : option stream :=
  match d with
  | [] => None
  | (k', v) :: rest => if String.eqb k' k then Some v else disk_find rest k
  end.

Definition disk_store (d : Disk) (k : string) (v : stream) : Disk :=
  (k, v) :: filter (fun kv => negb (String.eqb (fst kv) k)) d.

Definition getOMEXML (x : External) (id : string) (w : t) : result (list byte) :=
  match find (tiffs w) id with
  | None =>
      Throw (FormatException
               "Inconsistent writer state: TIFF file %1% not registered with a UUID"
               [])
  | Some st =>
      match omeMeta w with
      | None => Throw (runtime_error "null OMEXMLMetadata dereferenced")
      | Some m => Ok (xml_text x m (String.append "urn:uuid:" (uuid st)))
      end
  end.

(** The loop of [close] over the open files: serialise, close the handle,
    patch the file. *)
Fixpoint saveComments (x : External) (files : tiff_map) : M (t * Disk) unit :=
  match files with
  | [] => mret tt
  | (path, st) :: rest =>
      (xml <- mconst (fun wd => getOMEXML x path (fst wd)) ;;
       (fun wd => (Ok tt, (fst wd, disk_store (snd wd) path (tiff_bytes x (tiff st))))) ;;;
       (fun wd =>
          let '(r, file) := saveComment xml (tiff_bytes x (tiff st)) in
          (r, (fst wd, disk_store (snd wd) path file))) ;;;
       saveComments x rest)%M
  end.

(** The constructor. *)
Definition init : t :=
  mkWriter FormatWriter.init [] None "" [] None None.

Definition clear (w : t) : t :=
  mkWriter (FormatWriter.close (base w)) [] None "" [] None None.

(** The [try] block of [close]. *)
Definition close_try (x : External) : M (t * Disk) unit :=
  (wd <- mget ;;
   match FormatWriter.currentId (base (fst wd)) with
   | Some _ =>
       (match currentTIFF (fst wd) with
        | Some _ =>
            (fun wd => let '(r, w') := nextIFD (fst wd) in (r, (w', snd wd))) ;;;
            (fun wd => (Ok tt, (set_currentTIFF (fst wd) None, snd wd)))
        | None => mret tt
        end) ;;;
       (fun wd =>
          match omeMeta (fst wd) with
          | None => (Throw (runtime_error "null OMEXMLMetadata dereferenced"), wd)
          | Some m => (Ok tt, (set_store (fst wd) (removeTiffData m), snd wd))
          end) ;;;
       (fun wd => let '(r, w') := fillMetadata (fst wd) in (r, (w', snd wd))) ;;;
       wd <- mget ;;
       saveComments x (tiffs (fst wd))
   | None => mret tt
   end ;;;
   fun wd => (Ok tt, (clear (fst wd), snd wd)))%M.

(** [close]: on an exception the base class state is reset all the same and
    the exception is passed on. *)
Definition close (x : External) : M (t * Disk) unit :=
  fun wd =>
    match close_try x wd with
    | (inr u, wd') => (Ok u, wd')
    | (inl e, (w', d')) =>
        (Throw e,
         (set_base (set_currentTIFF w' None) (FormatWriter.close (base w')), d'))
    end.

(** *** The writer properties of the OME-TIFF writer *)

(** [std::set<std::string>::insert]: a value already in the set is not added
    again.  The order of a set plays no part in the functions that read one
    ([find] only), so that new values are kept at the end. *)
Definition set_insert (s : list string) (x : string) : list string :=
  if FormatWriter.contains s x then s else s ++ [x].

(** [set.insert(first, last)], and the range constructor of a set from the
    empty one. *)
Definition set_insert_range (s : list string) (l : list string) : list string :=
  fold_left set_insert l s.

(** [pixel_compression_types.insert(value_type(k, v))]: [std::map::insert]
    leaves a key already present as it is. *)
Definition map_insert (m : list (PixelType * list string)) (k : PixelType)
           (v : list string) : list (PixelType * list string) :=
  match FormatWriter.find_type m k with
  | Some _ => m
  | None => m ++ [(k, v)]
  end.

Section TiffProperties.

(** The pixel types that [PixelType::values()] enumerates, and the codec
    names of the TIFF library for a pixel type ([tiff::getCodecNames]). *)
Variable values : list PixelType.
Variable getCodecNames : PixelType -> list string.

(** One turn of the loop of [tiff_properties]. *)
Definition tiff_properties_step (p : FormatWriter.WriterProperties)
           (pixeltype : PixelType) : FormatWriter.WriterProperties :=
  let ptcodecs := getCodecNames pixeltype in
  let codecset := set_insert (set_insert_range [] ptcodecs) "default" in
  FormatWriter.mkWriterProperties
    (set_insert_range (FormatWriter.compression_types p) codecset)
    (map_insert (FormatWriter.pixel_compression_types p) pixeltype codecset).

(** [tiff_properties()]: every pixel type with the codecs of the TIFF library
    for it and "default". *)
Definition tiff_properties : FormatWriter.WriterProperties :=
  fold_left tiff_properties_step values (FormatWriter.mkWriterProperties [] []).

End TiffProperties.

End OMETIFFWriter.

(** ** The baseline TIFF reader *)

Module MinimalTIFFReader.

(** Modelled from the spec: the directory of the external TIFF handle
    ([tiff::IFD]) as [readIFDs] sees it, through the six getters that
    [compare_ifd] calls; the enumerations are given by their TIFF field
    values. *)
Record IFD : Type := mkIFD {
  getImageWidth : Z;
  getImageHeight : Z;
  getPixelType : PixelType;
  getSamplesPerPixel : Z;
  getPlanarConfiguration : Z;
  getPhotometricInterpretation : Z
}.

(** Compare IFDs for equal dimensions, pixel type, photometric
    interpretation. *)
Definition compare_ifd (lhs rhs : IFD) : bool :=
  (getImageWidth lhs =? getImageWidth rhs)
  && (getImageHeight lhs =? getImageHeight rhs)
  && PixelType_eqb (getPixelType lhs) (getPixelType rhs)
  && (getSamplesPerPixel lhs =? getSamplesPerPixel rhs)
  && (getPlanarConfiguration lhs =? getPlanarConfiguration rhs)
  && (getPhotometricInterpretation lhs =? getPhotometricInterpretation rhs).

(** [CoreMetadata], restricted to the dimensions and the pixel type. *)
Record CoreMetadata : Type := mkCore {
  sizeX : Z;
  sizeY : Z;
  sizeZ : Z;
  sizeT : Z;
  sizeC : list Z;
  pixelType : PixelType;
  imageCount : Z
}.

(** [tiff::IFDRange]: the directories [begin .. end) of a file. *)
Record IFDRange : Type := mkIFDRange {
  filename : string;
  range_begin : Z;
  range_end : Z
}.

(** [++current_core->sizeT; current_core->imageCount = current_core->sizeT;] *)
Definition next_timepoint (c : CoreMetadata) : CoreMetadata :=
  let t := wadd (sizeT c) 1 in
  mkCore (sizeX c) (sizeY c) (sizeZ c) t (sizeC c) (pixelType c) t.

(** [++(seriesIFDRange.back().end)]; [back()] needs an element. *)
Definition bump_back (ranges : list IFDRange) : result (list IFDRange) :=
  match rev ranges with
  | [] => Throw (runtime_error "back() of an empty vector")
  | r :: front =>
      Ok (rev front
          ++ [mkIFDRange (filename r) (range_begin r) (wadd (range_end r) 1)])
  end.

(** The local variables of [readIFDs] and the two members it writes. *)
Record Loop : Type := mkLoop {
  prev_ifd : option IFD;
  current_core : option CoreMetadata;
  current_ifd : Z;
  core : list (list CoreMetadata);
  seriesIFDRange : list IFDRange
}.

Section ReadIFDs.

(** [tiff::makeCoreMetadata], which fills the core metadata of a series from
    its first directory, and the path of the open file. *)
Variable makeCoreMetadata : IFD -> CoreMetadata.
Variable currentId : string.

(** [core.push_back({}); core.back().emplace_back(std::move(current_core));] *)
Definition push_core (st : Loop) : list (list CoreMetadata) :=
  match current_core st with
  | Some c => core st ++ [[c]]
  | None => core st
  end.

(** The [else] branch of the loop body: a new series is started. *)
Definition new_series (st : Loop) (i : IFD) : Loop :=
  mkLoop (prev_ifd st) (Some (makeCoreMetadata i)) (current_ifd st)
         (push_core st)
         (seriesIFDRange st
          ++ [mkIFDRange currentId (current_ifd st) (wadd (current_ifd st) 1)]).

(** The loop body for directory [i], with the increment of [current_ifd]. *)
Definition readIFDs_step (st : Loop) (i : IFD) : result Loop :=
  (st1 <-
     match current_core st, prev_ifd st with
     | Some c, Some prev =>
         if compare_ifd prev i
         then
           ranges <- bump_back (seriesIFDRange st) ;;
           Ok (mkLoop (prev_ifd st) (Some (next_timepoint c)) (current_ifd st)
                      (core st) ranges)
         else Ok (new_series st i)
     | _, _ => Ok (new_series st i)
     end ;;
   Ok (mkLoop (Some i) (current_core st1) (wadd (current_ifd st1) 1)
              (core st1) (seriesIFDRange st1)))%res.

Fixpoint readIFDs_loop (ifds : list IFD) (st : Loop) : result Loop :=
  match ifds with
  | [] => Ok st
  | i :: rest => (st1 <- readIFDs_step st i ;; readIFDs_loop rest st1)%res
  end.

(** [readIFDs] on the directories [tiff] of the open file: [core] is cleared,
    [seriesIFDRange] is not, and the result is the new value of both. *)
Definition readIFDs (tiff : list IFD) (ranges0 : list IFDRange)
  : result (list (list CoreMetadata) * list IFDRange) :=
  (st <- readIFDs_loop tiff (mkLoop None None 0 [] ranges0) ;;
   Ok (push_core st, seriesIFDRange st))%res.

End ReadIFDs.

(** The ranges [rs] cut the directories [start .. stop) into consecutive
    pieces, none of them empty. *)
Fixpoint tiles (start : Z) (rs : list IFDRange) (stop : Z) : Prop :=
  match rs with
  | [] => start = stop
  | r :: rest =>
      range_begin r = start /\ start < range_end r /\
      tiles (range_end r) rest stop
  end.

(** The core metadata of a series of [n] directories that starts with a
    directory whose core metadata is [c]. *)
Definition grown (c : CoreMetadata) (n : Z) : CoreMetadata :=
  if n <=? 1 then c
  else let t := wrap (sizeT c + (n - 1)) in
       mkCore (sizeX c) (sizeY c) (sizeZ c) t (sizeC c) (pixelType c) t.

(** Directory [j] of the file. *)
Definition dir (ifds : list IFD) (j : Z) : option IFD :=
  nth_error ifds (Z.to_nat j).

Section Series.

Variable makeCoreMetadata : IFD -> CoreMetadata.
Variable currentId : string.
Variable ranges0 : list IFDRange.

(** What [readIFDs] makes of a series: its range [r] names the open file and
    lies within the directories [ifds], every directory of it compares equal
    to the one before it in the range, and its core metadata [c] is that of
    its first directory, grown by the others. *)
Definition series_of (ifds : list IFD) (r : IFDRange) (c : CoreMetadata) : Prop :=
  filename r = currentId /\
  0 <= range_begin r < range_end r /\
  range_end r <= Z.of_nat (List.length ifds) /\
  (forall j a b,
      range_begin r <= j -> j + 1 < range_end r ->
      dir ifds j = Some a -> dir ifds (j + 1) = Some b ->
      compare_ifd a b = true) /\
  exists first,
    dir ifds (range_begin r) = Some first /\
    c = grown (makeCoreMetadata first) (range_end r - range_begin r).

(** The series of range [r] ends because the next directory differs. *)
Definition series_end (ifds : list IFD) (r : IFDRange) : Prop :=
  exists a b,
    dir ifds (range_end r - 1) = Some a /\ dir ifds (range_end r) = Some b /\
    compare_ifd a b = false.

(** The invariant of the loop of [readIFDs] once the directories [done] have
    been visited. *)
Definition reading (done : list IFD) (st : Loop) : Prop :=
  current_ifd st = Z.of_nat (List.length done) /\
  ((done = [] /\ prev_ifd st = None /\ current_core st = None /\
    core st = [] /\ seriesIFDRange st = ranges0) \/
   (exists front p closed cur c,
       done = front ++ [p] /\ prev_ifd st = Some p /\
       current_core st = Some c /\
       seriesIFDRange st = ranges0 ++ closed ++ [cur] /\
       Forall2 (fun r cs => exists c', cs = [c'] /\ series_of done r c' /\
                                       series_end done r)
               closed (core st) /\
       series_of done cur c /\
       range_end cur = Z.of_nat (List.length done) /\
       tiles 0 (closed ++ [cur]) (Z.of_nat (List.length done)))).

End Series.

End MinimalTIFFReader.

(** ** What a member function leaves alone *)

(** Whatever [m] returns or throws, the object it ran on and the object it
    leaves are related by [R]. *)
Definition keeps {S A} (R : S -> S -> Prop) (m : M S A) : Prop :=
  forall s r s', m s = (r, s') -> R s s'.

(** The second writer has the files, the current file, the plane table, the
    store and the flags of the first. *)
Definition same_files (w w' : OMETIFFWriter.t) : Prop :=
  map fst (OMETIFFWriter.tiffs w') = map fst (OMETIFFWriter.tiffs w) /\
  OMETIFFWriter.currentTIFF w' = OMETIFFWriter.currentTIFF w /\
  OMETIFFWriter.seriesState w' = OMETIFFWriter.seriesState w /\
  OMETIFFWriter.omeMeta w' = OMETIFFWriter.omeMeta w /\
  OMETIFFWriter.flags w' = OMETIFFWriter.flags w.

(** What the loop of [tiff_properties] keeps: the keys of the map are
    distinct, the compression types are the codecs of the map, and a pixel
    type is mapped to the codecs of the library for it and "default". *)
Definition tables_ok (getCodecNames : PixelType -> list string)
           (done : list PixelType) (p : FormatWriter.WriterProperties) : Prop :=
  NoDup (map fst (FormatWriter.pixel_compression_types p)) /\
  (forall type codecs codec,
      FormatWriter.find_type (FormatWriter.pixel_compression_types p) type
      = Some codecs ->
      In codec codecs -> In codec (FormatWriter.compression_types p)) /\
  (forall codec,
      In codec (FormatWriter.compression_types p) ->
      exists type codecs,
        FormatWriter.find_type (FormatWriter.pixel_compression_types p) type
        = Some codecs /\ In codec codecs) /\
  (forall type,
      match FormatWriter.find_type (FormatWriter.pixel_compression_types p) type
      with
      | Some codecs =>
          In type done /\
          forall codec,
            In codec codecs <->
            In codec (getCodecNames type) \/ codec = "default"
      | None => ~ In type done
      end).

(** What [fillMetadata] leaves alone in an image: everything but its TiffData
    elements. *)
Definition dims (im : Metadata.Image)
  : Z * Z * Z * Z * Z * DimensionOrder * list Metadata.Channel :=
  (Metadata.SizeX im, Metadata.SizeY im, Metadata.SizeZ im, Metadata.SizeT im,
   Metadata.SizeC im, Metadata.PixelsDimensionOrder im, Metadata.Channels im).

(** The number of planes of an image as [fillMetadata] computes it. *)
Definition planeCount (im : Metadata.Image) : Z :=
  wmul (wmul (Metadata.SizeZ im) (Metadata.SizeT im))
       (Z.of_nat (List.length (Metadata.Channels im))).

(** [d] is the TiffData element that the loop of [fillMetadata] writes for
    plane [plane] of series [series]. *)
Definition recorded (w : OMETIFFWriter.t) (series : Z) (im : Metadata.Image)
           (plane : Z) (d : Metadata.TiffData) : Prop :=
  exists coords planeState st,
    FormatTools.getZCTCoords
      (Metadata.PixelsDimensionOrder im) (Metadata.SizeZ im)
      (Z.of_nat (List.length (Metadata.Channels im))) (Metadata.SizeT im)
      (planeCount im) plane = Ok coords /\
    (states <- at_ (OMETIFFWriter.seriesState w) series ;;
     at_ states plane)%res = Ok planeState /\
    OMETIFFWriter.find (OMETIFFWriter.tiffs w) (OMETIFF.id planeState) = Some st /\
    d = OMETIFFWriter.planeTiffData
          (OMETIFF.id planeState) (OMETIFFWriter.uuid st) coords
          (OMETIFF.index planeState).

(** ** Classes of exceptions *)

(** An exception other than the one that reports unwritten planes. *)
Definition other_error (e : exn) : Prop :=
  forall n, e <> OMETIFFWriter.IncompletePlanes n.

Definition rother {A} (r : result A) : Prop :=
  forall e, r = Throw e -> other_error e.

Definition mother {S A} (m : M S A) : Prop :=
  forall s e s', m s = (Throw e, s') -> other_error e.

(** ** Example inputs *)

Module Examples.

(** A store with three 512 x 512 single-plane images, and the writer that the
    constructor, [setMetadataRetrieve] and [setId] make of it. *)
Definition example_image : Metadata.Image :=
  Metadata.mkImage 512 512 1 1 1 XYZCT [Metadata.mkChannel (Some 1) None] [].

Definition example_store : Metadata.MetadataRetrieve :=
  [example_image; example_image; example_image].

Definition example_writer : FormatWriter.t :=
  snd ((FormatWriter.setMetadataRetrieve (Some example_store) [[]; []; []] ;;;
        FormatWriter.setId "out.ome.tiff")%M FormatWriter.init).

(** The same writer after [setSeries(1)]. *)
Definition example_writer_series1 : FormatWriter.t :=
  snd (FormatWriter.setSeries 1 example_writer).

(** A series of two Z sections whose TiffData elements number Z from 1, and
    C and T from 0. *)
Definition z_from_one : Metadata.MetadataRetrieve :=
  [Metadata.mkImage 16 16 2 1 1 XYZCT [Metadata.mkChannel (Some 1) None]
     [Metadata.mkTiffData (Some 0) (Some 1) (Some 1) (Some 0) (Some 0) None None;
      Metadata.mkTiffData (Some 1) (Some 1) (Some 2) (Some 0) (Some 0) None None]].

Definition z_from_one_core : OMETIFFReader.Core :=
  [[Some (OMETIFFReader.mkCore 16 16 2 1 [1] 2 XYZCT
            [OMETIFF.defaultPlane; OMETIFF.defaultPlane])]].

(** Core metadata declaring Z=5, T=3 and two channels for five images. *)
Definition five_sections : OMETIFFReader.CoreMetadata :=
  OMETIFFReader.mkCore 16 16 5 3 [1; 1] 5 XYZCT [].

(** A store with one 640 x 480 image, the OME-TIFF writer that holds it
    before [setId], and the same writer after [setId]. *)
Definition wide_store : Metadata.MetadataRetrieve :=
  [Metadata.mkImage 640 480 1 1 1 XYZCT [Metadata.mkChannel (Some 1) None] []].

Definition wide_writer_fresh : OMETIFFWriter.t :=
  snd (OMETIFFWriter.on_base
         (FormatWriter.setMetadataRetrieve (Some wide_store) [[]])
         OMETIFFWriter.init).

Definition wide_writer : OMETIFFWriter.t :=
  snd (OMETIFFWriter.setId "wide.ome.tiff" "0f07c1a6" false wide_writer_fresh).

(** A directory with one sample per pixel, one bit per sample and a transfer
    function of two entries. *)
Definition grey_ifd : Field.IFD :=
  [(Field.TIFFTAG_TRANSFERFUNCTION, Field.Raw1 [5; 7]);
   (Field.TIFFTAG_BITSPERSAMPLE, Field.Raw16 1);
   (Field.TIFFTAG_SAMPLESPERPIXEL, Field.Raw16 1)].

(** Stand-ins for the TIFF library and the XML serialiser that write nothing. *)
Definition silent : OMETIFFWriter.External :=
  OMETIFFWriter.mkExternal (fun _ => []) (fun _ _ => []).

(** A writer for one series of four Z sections, after [setId]. *)
Definition stack_store : Metadata.MetadataRetrieve :=
  [Metadata.mkImage 16 16 4 1 1 XYZCT [Metadata.mkChannel (Some 1) None] []].

Definition stack_writer : OMETIFFWriter.t :=
  snd ((OMETIFFWriter.on_base
          (FormatWriter.setMetadataRetrieve (Some stack_store) [[]]) ;;;
        OMETIFFWriter.setId "stack.ome.tiff" "6f0a1c52" false)%M
         OMETIFFWriter.init).

(** The same writer after planes 0, 1 and 2 have been saved. *)
Definition stack_writer_three_saved : OMETIFFWriter.t :=
  snd ((OMETIFFWriter.saveBytes 0 ;;; OMETIFFWriter.saveBytes 1 ;;;
        OMETIFFWriter.saveBytes 2)%M stack_writer).

(** A little-endian classic TIFF of 35 bytes: header, IFD 0 at offset 8 with
    the single entry ImageDescription (ASCII, count 9, offset 26), and the
    text "OME-TIFF" with its NUL at offset 26; and the XML text "<OME/>". *)
Definition tiny_tiff : RawStream.stream :=
  map byte.of_Z
      [73; 73; 42; 0; 8; 0; 0; 0;
       1; 0;
       14; 1; 2; 0; 9; 0; 0; 0; 26; 0; 0; 0;
       0; 0; 0; 0;
       79; 77; 69; 45; 84; 73; 70; 70; 0].

Definition tiny_xml : list byte :=
  map byte.of_Z [60; 79; 77; 69; 47; 62].

(** A TIFF library that leaves [tiny_tiff] in every file it closes and a
    serialiser that always writes [tiny_xml]; the stack writer with all four
    planes saved. *)
Definition tiny_external : OMETIFFWriter.External :=
  OMETIFFWriter.mkExternal (fun _ => tiny_tiff) (fun _ _ => tiny_xml).

Definition stack_writer_all_saved : OMETIFFWriter.t :=
  snd (OMETIFFWriter.saveBytes 3 stack_writer_three_saved).

(** Three directories of a TIFF, two 64 x 64 planes of 8-bit grey and one of
    32 x 32, and the core metadata read off a single directory. *)
Definition plane64 : MinimalTIFFReader.IFD :=
  MinimalTIFFReader.mkIFD 64 64 UINT8 1 1 1.

Definition plane32 : MinimalTIFFReader.IFD :=
  MinimalTIFFReader.mkIFD 32 32 UINT8 1 1 1.

Definition three_directories : list MinimalTIFFReader.IFD :=
  [plane64; plane64; plane32].

Definition plain_core (i : MinimalTIFFReader.IFD) : MinimalTIFFReader.CoreMetadata :=
  MinimalTIFFReader.mkCore
    (MinimalTIFFReader.getImageWidth i) (MinimalTIFFReader.getImageHeight i)
    1 1 [MinimalTIFFReader.getSamplesPerPixel i]
    (MinimalTIFFReader.getPixelType i) 1.

(** A series of two channels whose TiffData elements number C from 1, and Z
    and T from 0. *)
Definition c_from_one_image : Metadata.Image :=
  Metadata.mkImage 16 16 1 1 2 XYZCT
    [Metadata.mkChannel (Some 1) None; Metadata.mkChannel (Some 1) None]
    [Metadata.mkTiffData (Some 0) (Some 1) (Some 0) (Some 1) (Some 0) None None;
     Metadata.mkTiffData (Some 1) (Some 1) (Some 0) (Some 2) (Some 0) None None].

Definition c_from_one : Metadata.MetadataRetrieve := [c_from_one_image].

(** The 35-byte file with an ImageWidth entry (tag 256) in place of the
    ImageDescription entry. *)
Definition tiny_tiff_no_description : RawStream.stream :=
  map byte.of_Z
      [73; 73; 42; 0; 8; 0; 0; 0;
       1; 0;
       0; 1; 2; 0; 9; 0; 0; 0; 26; 0; 0; 0;
       0; 0; 0; 0;
       79; 77; 69; 45; 84; 73; 70; 70; 0].

(** Codec names as a TIFF library could report them: LZW and Deflate for the
    integer types, nothing for the others. *)
Definition some_codecs (pt : PixelType) : list string :=
  match pt with
  | UINT8 | UINT16 | INT8 | INT16 => ["LZW"; "Deflate"]
  | _ => []
  end.

Definition some_values : list PixelType := [UINT8; UINT16; FLOAT; BIT].

Definition some_properties : FormatWriter.WriterProperties :=
  OMETIFFWriter.tiff_properties some_values some_codecs.

End Examples.

(** * Properties *)

(** ** Machine integers and vectors *)

Import Examples.

Lemma wrap_small z : in_size_t z -> wrap z = z.
Proof. unfold wrap, in_size_t. intros H. now apply Z.mod_small. Qed.

Lemma at_in_range {A} (v : list A) i :
  0 <= i < Z.of_nat (List.length v) -> exists a, at_ v i = Ok a.
Proof.
  intros [H0 H1]. unfold at_.
  destruct (Z.ltb_spec i 0); [lia|].
  destruct (nth_error v (Z.to_nat i)) eqn:E; [eauto|].
  apply nth_error_None in E. lia.
Qed.

Lemma at_Ok_range {A} (v : list A) i a :
  at_ v i = Ok a -> 0 <= i < Z.of_nat (List.length v).
Proof.
  unfold at_. destruct (Z.ltb_spec i 0); [discriminate|].
  destruct (nth_error v (Z.to_nat i)) eqn:E; [|discriminate].
  intros _. assert (nth_error v (Z.to_nat i) <> None) as H' by congruence.
  apply nth_error_Some in H'. lia.
Qed.

(** ** Plane indexes (FormatTools) *)

Section MixedRadix.

Variables len0 len1 : Z.
Hypothesis len0_pos : 0 < len0.
Hypothesis len1_pos : 0 < len1.

Lemma rasterize_mod v0 v1 v2 :
  0 <= v0 < len0 ->
  (v0 + v1 * len0 + v2 * len0 * len1) mod len0 = v0.
Proof.
  intros H.
  replace (v0 + v1 * len0 + v2 * len0 * len1)
    with (v0 + (v1 + v2 * len1) * len0) by ring.
  rewrite Z.mod_add by lia. now apply Z.mod_small.
Qed.

Lemma rasterize_div v0 v1 v2 :
  0 <= v0 < len0 ->
  (v0 + v1 * len0 + v2 * len0 * len1) / len0 = v1 + v2 * len1.
Proof.
  intros H.
  replace (v0 + v1 * len0 + v2 * len0 * len1)
    with (v0 + (v1 + v2 * len1) * len0) by ring.
  rewrite Z.div_add by lia. rewrite Z.div_small by lia. ring.
Qed.

Lemma rasterize_inner v1 v2 :
  0 <= v1 < len1 ->
  (v1 + v2 * len1) mod len1 = v1 /\ (v1 + v2 * len1) / len1 = v2.
Proof.
  intros H. split.
  - rewrite Z.mod_add by lia. now apply Z.mod_small.
  - rewrite Z.div_add by lia. rewrite Z.div_small by lia. ring.
Qed.

Lemma unrasterize index :
  index mod len0 + (index / len0) mod len1 * len0
  + (index / len0) / len1 * len0 * len1 = index.
Proof.
  pose proof (Z.div_mod index len0 ltac:(lia)) as H0.
  pose proof (Z.div_mod (index / len0) len1 ltac:(lia)) as H1.
  nia.
Qed.

Lemma unrasterize_bounds index len2 :
  0 <= index < len0 * len1 * len2 ->
  0 <= index mod len0 < len0 /\
  0 <= (index / len0) mod len1 < len1 /\
  0 <= (index / len0) / len1 < len2.
Proof.
  intros H.
  pose proof (Z.mod_pos_bound index len0 len0_pos).
  pose proof (Z.mod_pos_bound (index / len0) len1 len1_pos).
  repeat split; try lia.
  - apply Z.div_pos; [apply Z.div_pos|]; lia.
  - apply Z.div_lt_upper_bound; [lia|].
    apply Z.div_lt_upper_bound; [lia|]. nia.
Qed.

End MixedRadix.

Lemma getIndex_in_range order zSize cSize tSize num z c t :
  z < zSize -> c < cSize -> t < tSize ->
  FormatTools.getIndex order zSize cSize tSize num z c t =
  let '(a0, a1, a2) := FormatTools.axes order in
  Ok (FormatTools.pick a0 z c t
      + FormatTools.pick a1 z c t * FormatTools.pick a0 zSize cSize tSize
      + FormatTools.pick a2 z c t * FormatTools.pick a0 zSize cSize tSize
        * FormatTools.pick a1 zSize cSize tSize).
Proof.
  intros Hz Hc Ht. unfold FormatTools.getIndex.
  destruct (Z.leb_spec zSize z); [lia|].
  destruct (Z.leb_spec cSize c); [lia|].
  destruct (Z.leb_spec tSize t); [lia|].
  destruct (FormatTools.axes order) as [[a0 a1] a2]. reflexivity.
Qed.

(** C3: for each of the six dimension orders and all extents of at least 1,
    [getZCTCoords] undoes [getIndex] on every in-range coordinate triple, and
    [getIndex] undoes [getZCTCoords] on every plane index below the image
    count. *)
Theorem getIndex_getZCTCoords_inverse
        (order : DimensionOrder) (sizeZ effectiveSizeC sizeT : Z)
        (HZ : 1 <= sizeZ) (HC : 1 <= effectiveSizeC) (HT : 1 <= sizeT) :
  let num := sizeZ * effectiveSizeC * sizeT in
  (forall z c t,
      0 <= z < sizeZ -> 0 <= c < effectiveSizeC -> 0 <= t < sizeT ->
      exists i,
        FormatTools.getIndex order sizeZ effectiveSizeC sizeT num z c t = Ok i /\
        0 <= i < num /\
        FormatTools.getZCTCoords order sizeZ effectiveSizeC sizeT num i
        = Ok (z, c, t)) /\
  (forall i,
      0 <= i < num ->
      exists z c t,
        FormatTools.getZCTCoords order sizeZ effectiveSizeC sizeT num i
        = Ok (z, c, t) /\
        (0 <= z < sizeZ /\ 0 <= c < effectiveSizeC /\ 0 <= t < sizeT) /\
        FormatTools.getIndex order sizeZ effectiveSizeC sizeT num z c t = Ok i).
Proof.
  intros num.
  assert (forall l0 l1 l2 i, 0 < l0 -> 0 < l1 -> 0 <= i < l0 * l1 * l2 ->
            (0 <= i mod l0 < l0 /\ 0 <= (i / l0) mod l1 < l1
             /\ 0 <= (i / l0) / l1 < l2) /\
            i mod l0 + (i / l0) mod l1 * l0 + (i / l0) / l1 * l0 * l1 = i)
    as decompose.
  { intros l0 l1 l2 i H0 H1 Hi. split.
    - now apply unrasterize_bounds.
    - now apply unrasterize. }
  assert (forall l0 l1 l2 v0 v1 v2,
             0 <= v0 < l0 -> 0 <= v1 < l1 -> 0 <= v2 < l2 ->
             0 <= v0 + v1 * l0 + v2 * l0 * l1 < l0 * l1 * l2) as bound.
  { intros l0 l1 l2 v0 v1 v2 H0 H1 H2.
    assert (0 <= v1 * l0 <= (l1 - 1) * l0) by nia.
    assert (0 <= l0 * l1) by nia.
    assert (0 <= v2 * (l0 * l1) <= (l2 - 1) * (l0 * l1)) by nia.
    nia. }
  split.
  - intros z c t Hz Hc Ht.
    rewrite getIndex_in_range by lia.
    unfold FormatTools.getZCTCoords.
    destruct order; cbn [FormatTools.axes FormatTools.pick FormatTools.axis_eqb];
      eexists; (split; [reflexivity|]).
    all: match goal with
         | |- (0 <= ?v0 + ?v1 * ?l0 + ?v2 * ?l0 * ?l1 < _) /\ _ =>
             assert (0 <= v0 + v1 * l0 + v2 * l0 * l1 < num) as Hb
                 by (subst num;
                     first
                       [ replace (sizeZ * effectiveSizeC * sizeT)
                           with (l0 * l1 * sizeZ) by ring;
                         apply bound; lia
                       | replace (sizeZ * effectiveSizeC * sizeT)
                           with (l0 * l1 * effectiveSizeC) by ring;
                         apply bound; lia
                       | replace (sizeZ * effectiveSizeC * sizeT)
                           with (l0 * l1 * sizeT) by ring;
                         apply bound; lia ]);
             split; [exact Hb|];
             destruct (Z.leb_spec num (v0 + v1 * l0 + v2 * l0 * l1)); [lia|];
             rewrite (rasterize_mod l0 l1) by lia;
             rewrite (rasterize_div l0 l1) by lia;
             destruct (rasterize_inner l1 ltac:(lia) v1 v2 ltac:(lia)) as [-> ->];
             reflexivity
         end.
  - intros i Hi.
    unfold FormatTools.getZCTCoords.
    destruct (Z.leb_spec num i); [lia|].
    destruct order; cbn [FormatTools.axes FormatTools.pick FormatTools.axis_eqb];
      do 3 eexists; (split; [reflexivity|]).
    all: match goal with
         | |- context [(?j / ?l0) mod ?l1] =>
             first
               [ assert (num = l0 * l1 * sizeZ) as En by (subst num; ring);
                 destruct (decompose l0 l1 sizeZ j ltac:(lia) ltac:(lia) ltac:(lia))
                   as [B E]
               | assert (num = l0 * l1 * effectiveSizeC) as En by (subst num; ring);
                 destruct (decompose l0 l1 effectiveSizeC j
                                     ltac:(lia) ltac:(lia) ltac:(lia))
                   as [B E]
               | assert (num = l0 * l1 * sizeT) as En by (subst num; ring);
                 destruct (decompose l0 l1 sizeT j ltac:(lia) ltac:(lia) ltac:(lia))
                   as [B E] ]
         end.
    all: split; [lia|].
    all: rewrite getIndex_in_range by lia.
    all: cbn [FormatTools.axes FormatTools.pick]; f_equal; exact E.
Qed.

Lemma getIndex_getZCTCoords_inverse_witness :
  let num := 20 * 2 * 5 in
  (forall z c t,
      0 <= z < 20 -> 0 <= c < 2 -> 0 <= t < 5 ->
      exists i,
        FormatTools.getIndex XYZTC 20 2 5 num z c t = Ok i /\
        0 <= i < num /\
        FormatTools.getZCTCoords XYZTC 20 2 5 num i = Ok (z, c, t)) /\
  (forall i,
      0 <= i < num ->
      exists z c t,
        FormatTools.getZCTCoords XYZTC 20 2 5 num i = Ok (z, c, t) /\
        (0 <= z < 20 /\ 0 <= c < 2 /\ 0 <= t < 5) /\
        FormatTools.getIndex XYZTC 20 2 5 num z c t = Ok i).
Proof.
  apply (getIndex_getZCTCoords_inverse XYZTC 20 2 5); lia.
Defined.

(** The reader test's "basic" series: Z=20, T=5, two channels, XYZTC. *)
Example getIndex_basic_series :
  FormatTools.getIndex XYZTC 20 2 5 200 3 1 2 = Ok 143 /\
  FormatTools.getIndex XYZTC 20 2 5 200 19 1 4 = Ok 199 /\
  FormatTools.getZCTCoords XYZTC 20 2 5 200 148 = Ok (8, 1, 2) /\
  FormatTools.getZCTCoords XYZTC 20 2 5 200 200
  = Throw (out_of_range "Invalid image index").
Proof. repeat split; reflexivity. Qed.

(** ** The writer base class *)

Section FormatWriterCursor.

Import FormatWriter.

Variable w : FormatWriter.t.
Variable id : string.
Hypothesis is_open : currentId w = Some id.

Lemma assertId_open : assertId (currentId w) true = Ok tt.
Proof. now rewrite is_open. Qed.

Lemma getSeries_open : getSeries w = Ok (series w).
Proof. unfold getSeries. now rewrite assertId_open. Qed.

Lemma getPlane_open : getPlane w = Ok (plane w).
Proof. unfold getPlane. now rewrite assertId_open. Qed.

Lemma getResolution_open : getResolution w = Ok (resolution w).
Proof. unfold getResolution. now rewrite assertId_open. Qed.

(** What [setSeries] does on an open writer whose store holds [count]
    images. *)
Lemma setSeries_open m s :
  metadataRetrieve w = Some m ->
  in_size_t s ->
  setSeries s w =
  if Metadata.getImageCount m <=? s
  then (Throw (logic_error "Invalid series: %1%" [s]), w)
  else if (s =? series w) || (s =? series w + 1) || (s =? 0)
       then (Ok tt, set_cursor w s 0 0)
       else (Throw (logic_error "Series set out of order: %1% (currently %2%)"
                                [s; series w]), w).
Proof.
  intros Hm Hs. unfold setSeries, mbind, mconst, mthrow.
  rewrite assertId_open. unfold getSeriesCount, deref. rewrite Hm.
  cbn [rbind Ok].
  destruct (Metadata.getImageCount m <=? s); [reflexivity|].
  rewrite getSeries_open. cbn [Ok].
  unfold wsub. unfold in_size_t in Hs.
  destruct (Z.eqb_spec s (series w)) as [->|Hne].
  - rewrite Z.eqb_refl. reflexivity.
  - destruct (Z.eqb_spec (series w) s); [congruence|].
    destruct (Z.eqb_spec s 0) as [->|Hn0].
    + cbn. now rewrite Bool.orb_true_r.
    + destruct (Z.ltb_spec 0 s); [|lia].
      rewrite (wrap_small (s - 1)) by (unfold in_size_t; lia).
      destruct (Z.eqb_spec (series w) (s - 1));
        destruct (Z.eqb_spec s (series w + 1)); try lia; reflexivity.
Qed.

(** The same for [setPlane], against the image count of the series. *)
Lemma setPlane_open count p :
  getImageCount w = Ok count ->
  in_size_t p ->
  setPlane p w =
  if count <=? p
  then (Throw (logic_error "Invalid plane: %1%" [p]), w)
  else if (p =? plane w) || (p =? plane w + 1) || (p =? 0)
       then (Ok tt, set_cursor w (series w) (resolution w) p)
       else (Throw (logic_error "Plane set out of order: %1% (currently %2%)"
                                [p; plane w]), w).
Proof.
  intros Hc Hp. unfold setPlane, mbind, mconst, mthrow.
  rewrite assertId_open, Hc. cbn [Ok].
  destruct (count <=? p); [reflexivity|].
  rewrite getPlane_open. cbn [Ok].
  unfold wsub. unfold in_size_t in Hp.
  destruct (Z.eqb_spec p (plane w)) as [->|Hne].
  - rewrite Z.eqb_refl. reflexivity.
  - destruct (Z.eqb_spec (plane w) p); [congruence|].
    destruct (Z.eqb_spec p 0) as [->|Hn0].
    + cbn. now rewrite Bool.orb_true_r.
    + destruct (Z.ltb_spec 0 p); [|lia].
      rewrite (wrap_small (p - 1)) by (unfold in_size_t; lia).
      destruct (Z.eqb_spec (plane w) (p - 1));
        destruct (Z.eqb_spec p (plane w + 1)); try lia; reflexivity.
Qed.

End FormatWriterCursor.

Example example_writer_open :
  FormatWriter.currentId example_writer = Some "out.ome.tiff" /\
  FormatWriter.getSeriesCount example_writer = Ok 3 /\
  FormatWriter.getImageCount example_writer = Ok 1 /\
  FormatWriter.setSeries 1 example_writer
  = (Ok tt, FormatWriter.set_cursor example_writer 1 0 0) /\
  FormatWriter.series example_writer_series1 = 1.
Proof. repeat split; reflexivity. Qed.

(** C4, as the code has it: on an open writer, [setSeries(s)] with
    [s < seriesCount] succeeds exactly when [s] is the current series, the
    next one, or 0, and [setPlane(p)] with [p < imageCount] succeeds exactly
    when [p] is the current plane, the next one, or 0; a rejected call throws
    the out-of-order [logic_error] and leaves the writer, cursor included,
    unchanged, and an accepted one moves the cursor. *)
Theorem setSeries_setPlane_order
        (w : FormatWriter.t) (id : string) (m : Metadata.MetadataRetrieve)
        (imageCount s p : Z)
        (is_open : FormatWriter.currentId w = Some id)
        (store : FormatWriter.metadataRetrieve w = Some m)
        (planes : FormatWriter.getImageCount w = Ok imageCount)
        (Hs : 0 <= s < Metadata.getImageCount m) (Hs64 : s < 2 ^ 64)
        (Hp : 0 <= p < imageCount) (Hp64 : p < 2 ^ 64) :
  let s0 := FormatWriter.series w in
  let p0 := FormatWriter.plane w in
  ((s = s0 \/ s = s0 + 1 \/ s = 0) ->
   FormatWriter.setSeries s w = (Ok tt, FormatWriter.set_cursor w s 0 0)) /\
  (~ (s = s0 \/ s = s0 + 1 \/ s = 0) ->
   FormatWriter.setSeries s w
   = (Throw (logic_error "Series set out of order: %1% (currently %2%)" [s; s0]),
      w)) /\
  ((p = p0 \/ p = p0 + 1 \/ p = 0) ->
   FormatWriter.setPlane p w
   = (Ok tt, FormatWriter.set_cursor w s0 (FormatWriter.resolution w) p)) /\
  (~ (p = p0 \/ p = p0 + 1 \/ p = 0) ->
   FormatWriter.setPlane p w
   = (Throw (logic_error "Plane set out of order: %1% (currently %2%)" [p; p0]),
      w)).
Proof.
  intros s0 p0. subst s0 p0.
  assert (in_size_t s) as Is by (unfold in_size_t, size_bits; lia).
  assert (in_size_t p) as Ip by (unfold in_size_t, size_bits; lia).
  rewrite (setSeries_open w id is_open m s store Is).
  rewrite (setPlane_open w id is_open imageCount p planes Ip).
  destruct (Z.leb_spec (Metadata.getImageCount m) s); [lia|].
  destruct (Z.leb_spec imageCount p); [lia|].
  repeat split; intros H1.
  - destruct H1 as [->|[->| ->]];
      rewrite ?Z.eqb_refl, ?Bool.orb_true_r; reflexivity.
  - destruct (Z.eqb_spec s (FormatWriter.series w)); [tauto|].
    destruct (Z.eqb_spec s (FormatWriter.series w + 1)); [tauto|].
    destruct (Z.eqb_spec s 0); [tauto|]. reflexivity.
  - destruct H1 as [->|[->| ->]];
      rewrite ?Z.eqb_refl, ?Bool.orb_true_r; reflexivity.
  - destruct (Z.eqb_spec p (FormatWriter.plane w)); [tauto|].
    destruct (Z.eqb_spec p (FormatWriter.plane w + 1)); [tauto|].
    destruct (Z.eqb_spec p 0); [tauto|]. reflexivity.
Qed.

Lemma setSeries_setPlane_order_witness :
  ((2 = 1 \/ 2 = 1 + 1 \/ 2 = 0) ->
   FormatWriter.setSeries 2 example_writer_series1
   = (Ok tt, FormatWriter.set_cursor example_writer_series1 2 0 0)) /\
  (~ (2 = 1 \/ 2 = 1 + 1 \/ 2 = 0) ->
   FormatWriter.setSeries 2 example_writer_series1
   = (Throw (logic_error "Series set out of order: %1% (currently %2%)" [2; 1]),
      example_writer_series1)) /\
  ((0 = 0 \/ 0 = 0 + 1 \/ 0 = 0) ->
   FormatWriter.setPlane 0 example_writer_series1
   = (Ok tt, FormatWriter.set_cursor example_writer_series1 1 0 0)) /\
  (~ (0 = 0 \/ 0 = 0 + 1 \/ 0 = 0) ->
   FormatWriter.setPlane 0 example_writer_series1
   = (Throw (logic_error "Plane set out of order: %1% (currently %2%)" [0; 0]),
      example_writer_series1)).
Proof.
  apply (setSeries_setPlane_order example_writer_series1 "out.ome.tiff"
           example_store 1 2 0);
    try reflexivity; vm_compute; intuition discriminate.
Defined.

(** C4 as stated fails: with three series and the cursor on series 1,
    [setSeries(0)] is neither the current series nor the next one, yet it is
    accepted and moves the cursor back to series 0. *)
Lemma setSeries_rewind_accepted :
  FormatWriter.currentId example_writer_series1 = Some "out.ome.tiff" /\
  FormatWriter.series example_writer_series1 = 1 /\
  FormatWriter.getSeriesCount example_writer_series1 = Ok 3 /\
  0 <> FormatWriter.series example_writer_series1 /\
  0 <> FormatWriter.series example_writer_series1 + 1 /\
  fst (FormatWriter.setSeries 0 example_writer_series1) = Ok tt /\
  FormatWriter.series (snd (FormatWriter.setSeries 0 example_writer_series1)) = 0.
Proof. repeat split; vm_compute; congruence. Qed.

(** C10: on an open writer the five size accessors never return 0: whatever
    they return is non-zero, and when the current resolution level (for X, Y
    and Z) and the image of the current series in the store (for T and C) exist,
    each accessor returns the recorded extent, with 1 in place of 0. *)
Theorem getSize_never_zero
        (w : FormatWriter.t) (id : string)
        (is_open : FormatWriter.currentId w = Some id) :
  (forall v, FormatWriter.getSizeX w = Ok v -> v <> 0) /\
  (forall v, FormatWriter.getSizeY w = Ok v -> v <> 0) /\
  (forall v, FormatWriter.getSizeZ w = Ok v -> v <> 0) /\
  (forall v, FormatWriter.getSizeT w = Ok v -> v <> 0) /\
  (forall v, FormatWriter.getSizeC w = Ok v -> v <> 0) /\
  (forall levels level,
      at_ (FormatWriter.resolutionLevels w) (FormatWriter.series w) = Ok levels ->
      at_ levels (FormatWriter.resolution w) = Ok level ->
      FormatWriter.getSizeX w
      = Ok (if FormatWriter.resX level =? 0 then 1 else FormatWriter.resX level) /\
      FormatWriter.getSizeY w
      = Ok (if FormatWriter.resY level =? 0 then 1 else FormatWriter.resY level) /\
      FormatWriter.getSizeZ w
      = Ok (if FormatWriter.resZ level =? 0 then 1 else FormatWriter.resZ level)) /\
  (forall m image,
      FormatWriter.metadataRetrieve w = Some m ->
      Metadata.getImage m (FormatWriter.series w) = Ok image ->
      FormatWriter.getSizeT w
      = Ok (if Metadata.SizeT image =? 0 then 1 else Metadata.SizeT image) /\
      FormatWriter.getSizeC w
      = Ok (if Metadata.SizeC image =? 0 then 1 else Metadata.SizeC image)).
Proof.
  assert (forall x, FormatWriter.nonzero x <> 0) as nz.
  { intros x. unfold FormatWriter.nonzero.
    destruct (Z.eqb_spec x 0); lia. }
  unfold FormatWriter.getSizeX, FormatWriter.getSizeY, FormatWriter.getSizeZ,
    FormatWriter.getSizeT, FormatWriter.getSizeC, FormatWriter.currentLevel.
  rewrite (getSeries_open w id is_open), (getResolution_open w id is_open).
  cbn [rbind Ok].
  repeat split.
  1-3: intros v;
    destruct (at_ (FormatWriter.resolutionLevels w) (FormatWriter.series w))
      as [e|levels]; cbn [rbind]; try discriminate;
    destruct (at_ levels (FormatWriter.resolution w)) as [e|level];
    cbn [rbind]; try discriminate;
    intros [= <-]; apply nz.
  1-2: intros v; destruct (FormatWriter.deref w) as [e|m];
    cbn [rbind]; try discriminate;
    unfold Metadata.getPixelsSizeT, Metadata.getPixelsSizeC;
    destruct (Metadata.getImage m (FormatWriter.series w)) as [e|im];
    cbn [rbind Ok]; try discriminate;
    intros [= <-]; apply nz.
  1-3: rewrite H; cbn [rbind Ok]; rewrite H0; reflexivity.
  1-2: unfold FormatWriter.deref, Metadata.getPixelsSizeT, Metadata.getPixelsSizeC;
    rewrite H; cbn [rbind Ok]; rewrite H0; reflexivity.
Qed.

Lemma getSize_never_zero_witness :
  (forall v, FormatWriter.getSizeX example_writer = Ok v -> v <> 0) /\
  FormatWriter.getSizeX example_writer = Ok 512 /\
  FormatWriter.getSizeT example_writer = Ok 1.
Proof.
  pose proof (getSize_never_zero example_writer "out.ome.tiff" eq_refl)
    as (HX & _ & _ & _ & _ & HXYZ & HTC).
  split; [exact HX|]. split.
  - exact (proj1 (HXYZ [FormatWriter.mkResolution 512 512 1]
                       (FormatWriter.mkResolution 512 512 1) eq_refl eq_refl)).
  - exact (proj1 (HTC example_store example_image eq_refl eq_refl)).
Defined.

(** A level and an image that record extents of 0 read back as 1. *)
Example getSize_zero_extent :
  let w := FormatWriter.mkFormatWriter
             (Some "z.ome.tiff") 0 0 0 None None false 0 None None
             (Some [Metadata.mkImage 0 0 0 0 0 XYZCT [] []])
             [[FormatWriter.mkResolution 0 0 0]] in
  FormatWriter.getSizeX w = Ok 1 /\ FormatWriter.getSizeY w = Ok 1 /\
  FormatWriter.getSizeZ w = Ok 1 /\ FormatWriter.getSizeT w = Ok 1 /\
  FormatWriter.getSizeC w = Ok 1.
Proof. repeat split; reflexivity. Qed.

(** ** The OME-TIFF reader *)

Section ReaderIndexStart.

Import OMETIFFReader.

Variable meta : Metadata.MetadataRetrieve.
Variable series : Z.

(** The pre-scan keeps the Z start equal to the C start: both are updated
    with the value that [getTiffDataFirstC] returns. *)
Lemma seriesIndexStart_step_z_c st td :
  zIndexStart st = cIndexStart st ->
  zIndexStart (seriesIndexStart_step meta series st td)
  = cIndexStart (seriesIndexStart_step meta series st td).
Proof.
  intros H. unfold seriesIndexStart_step. cbn [zIndexStart cIndexStart].
  now rewrite H.
Qed.

Lemma seriesIndexStart_fold_z_c tds : forall st,
  zIndexStart st = cIndexStart st ->
  zIndexStart (fold_left (seriesIndexStart_step meta series) tds st)
  = cIndexStart (fold_left (seriesIndexStart_step meta series) tds st).
Proof.
  induction tds as [|td tds IH]; intros st H; cbn [fold_left].
  - exact H.
  - apply IH. now apply seriesIndexStart_step_z_c.
Qed.

(** Whatever the FirstZ attributes are, the Z index start that the pre-scan
    detects is the C index start. *)
Lemma seriesIndexStart_z_is_c st :
  seriesIndexStart meta series (mkIndexStart None None None) = Ok st ->
  zIndexStart st = cIndexStart st.
Proof.
  unfold seriesIndexStart.
  destruct (Metadata.getTiffDataCount meta series) as [e|n]; cbn [rbind Ok];
    [discriminate|].
  intros [= <-]. now apply seriesIndexStart_fold_z_c.
Qed.

End ReaderIndexStart.

(** C5 fails on the code: the smallest FirstZ of the series is 1, but the
    pre-scan reports a Z index start of 0 (the smallest FirstC), so
    [findTiffData] subtracts nothing from FirstZ: the first TiffData lands
    on plane 1 instead of plane 0 and the second one, with Z = 2, is rejected
    as invalid. *)
Lemma seriesIndexStart_reads_FirstC_for_Z :
  OMETIFFReader.seriesIndexStart z_from_one 0
    (OMETIFFReader.mkIndexStart None None None)
  = Ok (OMETIFFReader.mkIndexStart (Some 0) (Some 0) (Some 0)) /\
  Metadata.getTiffDataFirstZ z_from_one 0 0 = Ok 1 /\
  Metadata.getTiffDataFirstZ z_from_one 0 1 = Ok 2 /\
  fst (OMETIFFReader.findTiffData_series z_from_one 0 1 z_from_one_core)
  = Ok [(1, OMETIFFReader.mkValues (Some 0) 1 1 0 0)].
Proof. repeat split; reflexivity. Qed.

(** With the same numbering on C instead, the pre-scan works as intended: the
    detected start 1 is subtracted and the planes land on 0 and 1. *)
Example seriesIndexStart_c_from_one :
  let meta :=
    [Metadata.mkImage 16 16 1 1 2 XYZCT
       [Metadata.mkChannel (Some 1) None; Metadata.mkChannel (Some 1) None]
       [Metadata.mkTiffData (Some 0) (Some 1) (Some 0) (Some 1) (Some 0) None None;
        Metadata.mkTiffData (Some 1) (Some 1) (Some 0) (Some 2) (Some 0) None None]] in
  fst (OMETIFFReader.findTiffData_series meta 0 2 z_from_one_core)
  = Ok [(0, OMETIFFReader.mkValues (Some 0) 1 0 0 0);
        (1, OMETIFFReader.mkValues (Some 1) 1 0 0 1)].
Proof. reflexivity. Qed.

Section ReaderTiffDataValues.

Import OMETIFFReader.

Variable meta : Metadata.MetadataRetrieve.
Variables series tiffData : Z.
Variable d : Metadata.TiffData.
Hypothesis element : Metadata.getTiffData meta series tiffData = Ok d.

Lemma getTiffDataIFD_element :
  Metadata.getTiffDataIFD meta series tiffData
  = Metadata.unset (Metadata.IFD d) "IFD".
Proof. unfold Metadata.getTiffDataIFD. now rewrite element. Qed.

Lemma getTiffDataPlaneCount_element :
  Metadata.getTiffDataPlaneCount meta series tiffData
  = Metadata.unset (Metadata.PlaneCount d) "PlaneCount".
Proof. unfold Metadata.getTiffDataPlaneCount. now rewrite element. Qed.

Lemma getTiffDataValues_valid core :
  settledPlaneCount d <> 0 ->
  exists v,
    getTiffDataValues meta series tiffData initialValues core
    = (Ok (true, v), core) /\
    numPlanes v = settledPlaneCount d /\
    tdIFD v = Some (match Metadata.IFD d with Some i => i | None => 0 end).
Proof.
  intros Hn. unfold getTiffDataValues.
  rewrite getTiffDataIFD_element, getTiffDataPlaneCount_element.
  unfold settledPlaneCount in *.
  destruct (Metadata.PlaneCount d) as [n|], (Metadata.IFD d) as [i|];
    cbn [Metadata.unset Ok Throw initialValues tdIFD numPlanes] in *;
    try (destruct (Z.eqb_spec n 0); [contradiction|]);
    try contradiction;
    eexists; (split; [reflexivity|]); cbn; auto.
Qed.

Lemma getTiffDataValues_invalid core core' :
  settledPlaneCount d = 0 ->
  core_assign core series 0 None = Ok core' ->
  exists v,
    getTiffDataValues meta series tiffData initialValues core
    = (Ok (false, v), core') /\
    numPlanes v = 0.
Proof.
  intros Hn Hc. unfold getTiffDataValues.
  rewrite getTiffDataIFD_element, getTiffDataPlaneCount_element.
  unfold settledPlaneCount in *.
  destruct (Metadata.PlaneCount d) as [n|], (Metadata.IFD d) as [i|];
    cbn [Metadata.unset Ok Throw initialValues tdIFD numPlanes] in *;
    try discriminate; subst; cbn [Z.eqb];
    rewrite Hc; eexists; (split; [reflexivity|]); reflexivity.
Qed.

End ReaderTiffDataValues.

Lemma nth_error_replace_nth {A} (l : list A) : forall n a,
  (n < List.length l)%nat ->
  nth_error (OMETIFFReader.replace_nth n l a) n = Some a.
Proof.
  induction l as [|x l IH]; intros n a Hn; cbn in Hn; [lia|].
  destruct n as [|n]; cbn; [reflexivity|]. apply IH. lia.
Qed.

(** After [core.at(series).at(resolution) = p] the entry reads back [p]. *)
Lemma core_assign_lookup core series resolution p core' :
  OMETIFFReader.core_assign core series resolution p = Ok core' ->
  (row <- at_ core' series ;; at_ row resolution)%res = Ok p.
Proof.
  unfold OMETIFFReader.core_assign.
  destruct (at_ core series) as [e|row] eqn:Er; cbn [rbind]; [discriminate|].
  destruct (at_ row resolution) as [e|old] eqn:Eo; cbn [rbind]; [discriminate|].
  intros [= <-].
  pose proof (at_Ok_range _ _ _ Er) as R1.
  pose proof (at_Ok_range _ _ _ Eo) as R2.
  unfold at_.
  destruct (Z.ltb_spec series 0); [lia|].
  rewrite nth_error_replace_nth by lia. cbn [rbind Ok].
  destruct (Z.ltb_spec resolution 0); [lia|].
  rewrite nth_error_replace_nth by lia. reflexivity.
Qed.

(** C7, as the code has it: for a TiffData element of a series, a missing
    PlaneCount together with a present IFD attribute is read as exactly one
    plane starting at that IFD, and the series stays valid with [core]
    untouched; a missing PlaneCount without an IFD attribute, and a PlaneCount
    of 0 with or without one, give zero planes and invalidate the series: the
    call reports it and the core metadata entry of the series is removed. *)
Theorem getTiffDataValues_plane_count
        (meta : Metadata.MetadataRetrieve) (series tiffData : Z)
        (d : Metadata.TiffData) (core : OMETIFFReader.Core)
        (element : Metadata.getTiffData meta series tiffData = Ok d) :
  (forall i,
      Metadata.PlaneCount d = None -> Metadata.IFD d = Some i ->
      exists v,
        OMETIFFReader.getTiffDataValues meta series tiffData
                                        OMETIFFReader.initialValues core
        = (Ok (true, v), core) /\
        OMETIFFReader.numPlanes v = 1 /\
        OMETIFFReader.tdIFD v = Some i) /\
  (forall core',
      (Metadata.PlaneCount d = None /\ Metadata.IFD d = None) \/
      Metadata.PlaneCount d = Some 0 ->
      OMETIFFReader.core_assign core series 0 None = Ok core' ->
      exists v,
        OMETIFFReader.getTiffDataValues meta series tiffData
                                        OMETIFFReader.initialValues core
        = (Ok (false, v), core') /\
        OMETIFFReader.numPlanes v = 0 /\
        (row <- at_ core' series ;; at_ row 0)%res = Ok None).
Proof.
  split.
  - intros i Hp Hi.
    destruct (getTiffDataValues_valid meta series tiffData d element core)
      as (v & E & Hn & Hd).
    { unfold OMETIFFReader.settledPlaneCount. rewrite Hp, Hi. discriminate. }
    exists v. split; [exact E|].
    unfold OMETIFFReader.settledPlaneCount in Hn.
    rewrite Hp, Hi in Hn. rewrite Hi in Hd. auto.
  - intros core' Hz Hc.
    destruct (getTiffDataValues_invalid meta series tiffData d element core core')
      as (v & E & Hn).
    { unfold OMETIFFReader.settledPlaneCount.
      destruct Hz as [[-> ->]| ->]; reflexivity. }
    { exact Hc. }
    exists v. repeat split; [exact E|exact Hn|].
    eapply core_assign_lookup. exact Hc.
Qed.

Lemma getTiffDataValues_plane_count_witness :
  let meta :=
    [Metadata.mkImage 16 16 1 1 1 XYZCT [Metadata.mkChannel (Some 1) None]
       [Metadata.mkTiffData (Some 4) None None None None None None]] in
  exists v,
    OMETIFFReader.getTiffDataValues meta 0 0 OMETIFFReader.initialValues
                                    z_from_one_core
    = (Ok (true, v), z_from_one_core) /\
    OMETIFFReader.numPlanes v = 1 /\
    OMETIFFReader.tdIFD v = Some 4.
Proof.
  intros meta.
  exact (proj1 (getTiffDataValues_plane_count
                  meta 0 0
                  (Metadata.mkTiffData (Some 4) None None None None None None)
                  z_from_one_core eq_refl)
               4 eq_refl eq_refl).
Defined.

(** C7 as stated fails: a TiffData with [PlaneCount = 0] and [IFD = 3] is
    not read as one plane; it yields zero planes and removes the series. *)
Lemma zero_PlaneCount_with_IFD_invalidates :
  let meta :=
    [Metadata.mkImage 16 16 1 1 1 XYZCT [Metadata.mkChannel (Some 1) None]
       [Metadata.mkTiffData (Some 3) (Some 0) None None None None None]] in
  OMETIFFReader.getTiffDataValues meta 0 0 OMETIFFReader.initialValues
                                  z_from_one_core
  = (Ok (false, OMETIFFReader.mkValues (Some 3) 0 0 0 0), [[None]]).
Proof. reflexivity. Qed.

(** *** fixDimensions *)

Lemma fold_wadd_sum v : forall acc,
  fold_left wadd v (wrap acc) = wrap (acc + sum v).
Proof.
  induction v as [|x v IH]; intros acc; cbn [fold_left sum].
  - now rewrite Z.add_0_r.
  - replace (wadd (wrap acc) x) with (wrap (acc + x)).
    + rewrite IH. f_equal. ring.
    + unfold wadd, wrap.
      now rewrite Z.add_mod_idemp_l by (unfold size_bits; lia).
Qed.

Lemma accumulate_sum v : accumulate v = wrap (sum v).
Proof.
  unfold accumulate. change 0 with (wrap 0) at 1.
  now rewrite fold_wadd_sum.
Qed.

Lemma wmul_wmul a b c : wmul (wmul a b) c = wrap (a * b * c).
Proof.
  unfold wmul, wrap. now rewrite Z.mul_mod_idemp_l by (unfold size_bits; lia).
Qed.

Lemma sum_nonneg v : Forall (fun c => 0 <= c) v -> 0 <= sum v.
Proof. induction 1; cbn [sum]; lia. Qed.

Section FixDimensions.

Import OMETIFFReader.

Variable cm : CoreMetadata.
Hypothesis sizeZ_range : 0 <= sizeZ cm.
Hypothesis sizeT_range : 0 <= sizeT cm.
Hypothesis sizeC_range : Forall (fun c => 0 <= c) (sizeC cm).
Hypothesis sum_fits : sum (sizeC cm) < 2 ^ 64.
Hypothesis product_fits : sizeZ cm * sizeT cm * sum (sizeC cm) < 2 ^ 64.

Lemma channelCount_exact : accumulate (sizeC cm) = sum (sizeC cm).
Proof.
  rewrite accumulate_sum. apply wrap_small.
  pose proof (sum_nonneg _ sizeC_range). unfold in_size_t, size_bits. lia.
Qed.

Lemma product_exact :
  wmul (wmul (sizeZ cm) (sizeT cm)) (sum (sizeC cm))
  = sizeZ cm * sizeT cm * sum (sizeC cm).
Proof.
  rewrite wmul_wmul. apply wrap_small.
  pose proof (sum_nonneg _ sizeC_range). unfold in_size_t, size_bits. nia.
Qed.

Lemma fixDimensions_core_guarded :
  fix_guard cm ->
  fixDimensions_core cm =
  if sizeZ cm =? imageCount cm then set_dims cm (sizeZ cm) 1 [1]
  else if sizeT cm =? imageCount cm then set_dims cm 1 (sizeT cm) [1]
  else if sum (sizeC cm) =? imageCount cm then set_dims cm 1 1 (sizeC cm)
  else set_dims cm 1 (imageCount cm) [1].
Proof.
  intros [G1 G2]. unfold fixDimensions_core.
  rewrite channelCount_exact, product_exact.
  destruct (Z.ltb_spec (imageCount cm) (sizeZ cm * sizeT cm * sum (sizeC cm)));
    [|lia].
  destruct (Z.eqb_spec (sum (sizeC cm)) (Z.of_nat (List.length (sizeC cm))));
    [|lia].
  reflexivity.
Qed.

Lemma fixDimensions_core_unguarded :
  ~ fix_guard cm -> fixDimensions_core cm = cm.
Proof.
  intros G. unfold fixDimensions_core.
  rewrite channelCount_exact, product_exact.
  destruct (Z.ltb_spec (imageCount cm) (sizeZ cm * sizeT cm * sum (sizeC cm)));
    [|reflexivity].
  destruct (Z.eqb_spec (sum (sizeC cm)) (Z.of_nat (List.length (sizeC cm))));
    [|reflexivity].
  exfalso. apply G. split; assumption.
Qed.

End FixDimensions.


(** A null core metadata pointer is skipped. *)
Lemma fixDimensions_null core series row :
  at_ core series = Ok row -> at_ row 0 = Ok None ->
  OMETIFFReader.fixDimensions series core = (Ok tt, core).
Proof.
  intros Hrow Hcm. unfold OMETIFFReader.fixDimensions.
  rewrite Hrow. cbn [rbind Ok]. now rewrite Hcm.
Qed.


Example fixDimensions_default_case :
  OMETIFFReader.fixDimensions_core
    (OMETIFFReader.mkCore 16 16 2 2 [1; 1; 1] 7 XYZCT [])
  = OMETIFFReader.mkCore 16 16 1 7 [1] 7 XYZCT [].
Proof. reflexivity. Qed.

(** ** Tile size accessors of the OME-TIFF writer *)

Section TileSize.

Import OMETIFFWriter.

Variable w : OMETIFFWriter.t.
Hypothesis no_tile_x : FormatWriter.tile_size_x (base w) = None.
Hypothesis no_tile_y : FormatWriter.tile_size_y (base w) = None.

(** Before [setId] both accessors fall back to the X size of image 0. *)
Lemma getTileSize_before_setId m :
  FormatWriter.currentId (base w) = None ->
  FormatWriter.metadataRetrieve (base w) = Some m ->
  getTileSizeX w = Metadata.getPixelsSizeX m 0 /\
  getTileSizeY w = Metadata.getPixelsSizeX m 0.
Proof.
  intros Hid Hm.
  unfold getTileSizeX, getTileSizeY,
    FormatWriter.getTileSizeX, FormatWriter.getTileSizeY.
  now rewrite Hid, no_tile_x, no_tile_y, Hm.
Qed.

(** After [setId] both accessors return the tile width of the current
    directory: [getTileSizeY] does not consult the tile height. *)
Lemma getTileSize_after_setId id file st :
  FormatWriter.currentId (base w) = Some id ->
  current w = Ok (file, st) ->
  getTileSizeX w = Ok (tileWidth (currentDirectory (tiff st))) /\
  getTileSizeY w = Ok (tileWidth (currentDirectory (tiff st))).
Proof.
  intros Hid Hc.
  unfold getTileSizeX, getTileSizeY, getCurrentDirectory.
  now rewrite Hid, no_tile_x, no_tile_y, Hc.
Qed.

End TileSize.

Example wide_writer_setId :
  fst (OMETIFFWriter.setId "wide.ome.tiff" "0f07c1a6" false wide_writer_fresh)
  = Ok tt /\
  OMETIFFWriter.getTileSizeX wide_writer_fresh = Ok 640 /\
  OMETIFFWriter.getTileSizeY wide_writer_fresh = Ok 640.
Proof. repeat split; reflexivity. Qed.

(** C8 fails on the code after [setId]: for a 640 x 480 image with no tile
    size set, [setupIFD] chooses strips 640 wide and 102 high, and
    [getTileSizeY] returns the tile width 640, not the tile height 102. *)
Lemma getTileSizeY_returns_tile_width :
  FormatWriter.currentId (OMETIFFWriter.base wide_writer) = Some "wide.ome.tiff" /\
  FormatWriter.tile_size_x (OMETIFFWriter.base wide_writer) = None /\
  FormatWriter.tile_size_y (OMETIFFWriter.base wide_writer) = None /\
  rbind (OMETIFFWriter.getCurrentDirectory wide_writer)
        (fun ifd => Ok (OMETIFFWriter.getTileWidth ifd,
                        OMETIFFWriter.getTileHeight ifd))
  = Ok (640, 102) /\
  OMETIFFWriter.getTileSizeX wide_writer = Ok 640 /\
  OMETIFFWriter.getTileSizeY wide_writer = Ok 640.
Proof. repeat split; reflexivity. Qed.

(** ** Fields of three arrays *)

Lemma range_length p count :
  0 <= count -> Field.len (Field.range p count) = count.
Proof.
  intros H. unfold Field.len, Field.range.
  rewrite length_map, length_seq. lia.
Qed.

Lemma shl1_pow bps : 0 <= bps < 32 -> Field.shl1 bps = 2 ^ bps.
Proof.
  intros H. unfold Field.shl1. rewrite Z.shiftl_1_l.
  apply Z.mod_small. split; [apply Z.pow_nonneg; lia|].
  apply Z.pow_lt_mono_r; lia.
Qed.

(** Reading COLORMAP gives three arrays of [2^BitsPerSample] entries. *)
Lemma colormap_get3_lengths ifd readcount bps a0 a1 a2 :
  Field.getRawField16 ifd Field.TIFFTAG_BITSPERSAMPLE = Ok bps ->
  0 <= bps < 32 ->
  Field.generic_array_get3 ifd Field.TIFFTAG_COLORMAP readcount = Ok (a0, a1, a2) ->
  Field.len a0 = 2 ^ bps /\ Field.len a1 = 2 ^ bps /\ Field.len a2 = 2 ^ bps.
Proof.
  intros Hb Hr. unfold Field.generic_array_get3.
  rewrite Z.eqb_refl, Hb. cbn [rbind Ok].
  destruct (Field.getRawField3 ifd Field.TIFFTAG_COLORMAP) as [e|[[p0 p1] p2]];
    cbn [rbind]; [discriminate|].
  intros [= <- <- <-]. rewrite !range_length, shl1_pow by
      (rewrite ?shl1_pow by lia; try apply Z.pow_nonneg; lia).
  auto.
Qed.

(** On an IFD where COLORMAP can be written, writing three arrays of
    [2^BitsPerSample] entries and reading them back is the identity. *)
Lemma colormap_set3_get3 ifd wc rc bps a0 a1 a2 :
  Field.getRawField16 ifd Field.TIFFTAG_BITSPERSAMPLE = Ok bps ->
  0 <= bps < 32 ->
  Field.len a0 = 2 ^ bps -> Field.len a1 = 2 ^ bps -> Field.len a2 = 2 ^ bps ->
  exists ifd',
    Field.generic_array_set3 ifd Field.TIFFTAG_COLORMAP wc (a0, a1, a2) = Ok ifd' /\
    Field.generic_array_get3 ifd' Field.TIFFTAG_COLORMAP rc = Ok (a0, a1, a2).
Proof.
  intros Hb Hr L0 L1 L2.
  assert (forall (v : list Z), Field.len v = 2 ^ bps ->
                               Field.range v (2 ^ bps) = v) as full.
  { intros v Hv. unfold Field.range, Field.len in *. rewrite <- Hv.
    rewrite Nat2Z.id. clear. induction v as [|x v IH]; [reflexivity|].
    cbn [List.length seq map nth]. f_equal.
    rewrite <- seq_shift, map_map. exact IH. }
  unfold Field.generic_array_set3. rewrite L0, L1, L2, Z.eqb_refl.
  cbn [negb orb]. eexists. split; [reflexivity|].
  unfold Field.generic_array_get3. rewrite Z.eqb_refl.
  assert (Field.getRawField16
            (Field.setRawField ifd Field.TIFFTAG_COLORMAP
               (Field.Raw3 (Field.data a0) (Field.data a1) (Field.data a2)))
            Field.TIFFTAG_BITSPERSAMPLE = Ok bps) as ->.
  { revert Hb. unfold Field.getRawField16, Field.setRawField.
    cbn [Field.lookup]. change (Field.TIFFTAG_COLORMAP =? Field.TIFFTAG_BITSPERSAMPLE)
      with false. cbn iota.
    induction ifd as [|[k v] rest IH]; cbn [Field.lookup filter fst negb];
      [auto|].
    destruct (Z.eqb_spec k Field.TIFFTAG_BITSPERSAMPLE) as [->|Hk].
    - change (Field.TIFFTAG_BITSPERSAMPLE =? Field.TIFFTAG_COLORMAP) with false.
      cbn [negb Field.lookup]. now rewrite Z.eqb_refl.
    - destruct (k =? Field.TIFFTAG_COLORMAP); cbn [negb Field.lookup]; [exact IH|].
      destruct (Z.eqb_spec k Field.TIFFTAG_BITSPERSAMPLE); [contradiction|].
      exact IH. }
  cbn [rbind Ok]. unfold Field.getRawField3, Field.setRawField.
  cbn [Field.lookup]. rewrite Z.eqb_refl. cbn [rbind Ok].
  rewrite shl1_pow by lia. unfold Field.data. now rewrite !full.
Qed.

(** Reading TRANSFERFUNCTION collapses to one array exactly when
    [SamplesPerPixel - ExtraSamples = 1]. *)
Lemma transferfunction_get3_collapse ifd readcount spp bps extra a0 a1 a2 :
  Field.getRawField16 ifd Field.TIFFTAG_SAMPLESPERPIXEL = Ok spp ->
  Field.getRawField16 ifd Field.TIFFTAG_BITSPERSAMPLE = Ok bps ->
  Field.getExtraSamples ifd = Ok extra ->
  0 <= bps < 32 ->
  Field.generic_array_get3 ifd Field.TIFFTAG_TRANSFERFUNCTION readcount
  = Ok (a0, a1, a2) ->
  Field.len a0 = 2 ^ bps /\
  (spp - extra = 1 -> a1 = [] /\ a2 = []) /\
  (spp - extra <> 1 -> Field.len a1 = 2 ^ bps /\ Field.len a2 = 2 ^ bps).
Proof.
  intros Hs Hb He Hr. unfold Field.generic_array_get3.
  change (Field.TIFFTAG_TRANSFERFUNCTION =? Field.TIFFTAG_COLORMAP) with false.
  rewrite Z.eqb_refl, Hs, Hb, He. cbn [rbind Ok].
  assert (0 <= 2 ^ bps) by (apply Z.pow_nonneg; lia).
  destruct (Z.eqb_spec (spp - extra) 1) as [E|E].
  - destruct (Field.getRawField1 ifd Field.TIFFTAG_TRANSFERFUNCTION) as [e|p0];
      cbn [rbind]; [discriminate|].
    intros [= <- <- <-]. rewrite range_length, shl1_pow by
        (rewrite ?shl1_pow by lia; lia).
    repeat split; auto; contradiction.
  - destruct (Field.getRawField3 ifd Field.TIFFTAG_TRANSFERFUNCTION)
      as [e|[[p0 p1] p2]]; cbn [rbind]; [discriminate|].
    intros [= <- <- <-]. rewrite !range_length, shl1_pow by
        (rewrite ?shl1_pow by lia; lia).
    repeat split; auto; contradiction.
Qed.

(** C9 fails on the code: with one sample per pixel and no extra samples, the
    transfer function reads as one array of [2^1] entries followed by two empty
    arrays, and writing that value back is refused, because [set3] first
    demands three arrays of equal size; a value that [set3] accepts reads back
    with its second and third arrays gone. *)
Lemma transferfunction_set3_rejects_get3 :
  Field.generic_array_get3 grey_ifd Field.TIFFTAG_TRANSFERFUNCTION 1
  = Ok ([5; 7], [], []) /\
  Field.generic_array_set3 grey_ifd Field.TIFFTAG_TRANSFERFUNCTION 1
                           ([5; 7], [], [])
  = Throw (TiffException "Field array sizes are not equal") /\
  rbind (Field.generic_array_set3 grey_ifd Field.TIFFTAG_TRANSFERFUNCTION 1
                                  ([1; 2], [3; 4], [5; 6]))
        (fun ifd => Field.generic_array_get3 ifd Field.TIFFTAG_TRANSFERFUNCTION 1)
  = Ok ([1; 2], [], []).
Proof. repeat split; reflexivity. Qed.

(** ** Closing the OME-TIFF writer *)

Lemma rother_Ok {A} (a : A) : rother (Ok a).
Proof. intros e H. discriminate H. Qed.

Lemma rother_bind {A B} (r : result A) (k : A -> result B) :
  rother r -> (forall a, rother (k a)) -> rother (rbind r k).
Proof.
  intros Hr Hk e. destruct r as [e0|a]; cbn [rbind].
  - intros [= <-]. now apply Hr.
  - apply Hk.
Qed.

Lemma mother_ret {S A} (a : A) : mother (@mret S A a).
Proof. intros s e s' H. discriminate H. Qed.

Lemma mother_throw {S A} e : other_error e -> mother (@mthrow S A e).
Proof. intros He s e' s' [= <- _]. exact He. Qed.

Lemma mother_mconst {S A} (f : S -> result A) :
  (forall s, rother (f s)) -> mother (mconst f).
Proof.
  intros Hf s e s'. unfold mconst. intros [= H _]. now apply (Hf s).
Qed.

Lemma mother_bind {S A B} (m : M S A) (k : A -> M S B) :
  mother m -> (forall a, mother (k a)) -> mother (mbind m k).
Proof.
  intros Hm Hk s e s'. unfold mbind.
  destruct (m s) as [[e0|a] s0] eqn:E.
  - intros [= <- _]. exact (Hm _ _ _ E).
  - apply Hk.
Qed.

Lemma mother_mget {S} : mother (@mget S).
Proof. intros s e s' H. discriminate H. Qed.

Ltac other_exn :=
  let n := fresh "n" in
  let H := fresh "H" in
  intros n H; unfold OMETIFFWriter.IncompletePlanes in H; discriminate H.

Lemma rother_at {A} (v : list A) i : rother (at_ v i).
Proof.
  unfold at_. intros e.
  destruct (i <? 0); [intros [= <-]; other_exn|].
  destruct (nth_error v (Z.to_nat i)); [discriminate|].
  intros [= <-]; other_exn.
Qed.

Lemma rother_unset {A} (o : option A) what : rother (Metadata.unset o what).
Proof. destruct o; intros e; [discriminate|]. intros [= <-]; other_exn. Qed.

Ltac other :=
  repeat first
         [ apply rother_Ok
         | apply rother_at
         | apply rother_unset
         | apply mother_ret
         | apply mother_mget
         | apply mother_throw; other_exn
         | apply mother_bind; [|intros ?]
         | apply mother_mconst; intros ?
         | apply rother_bind; [|intros ?]
         | match goal with
           | |- rother (Throw _) =>
               let e := fresh "e" in intros e [= <-]; other_exn
           | |- rother (if ?b then _ else _) => destruct b
           | |- mother (if ?b then _ else _) => destruct b
           | |- rother (match ?x with _ => _ end) => destruct x
           | |- mother (match ?x with _ => _ end) => destruct x
           end ].

Lemma rother_getImage m i : rother (Metadata.getImage m i).
Proof. unfold Metadata.getImage. other. Qed.

Lemma rother_getZCTCoords order z c t num i :
  rother (FormatTools.getZCTCoords order z c t num i).
Proof.
  unfold FormatTools.getZCTCoords.
  destruct (num <=? i); [other|].
  destruct (FormatTools.axes order) as [[a0 a1] a2]. other.
Qed.

Lemma rother_setTiffData f series td m :
  rother (OMETIFFWriter.setTiffData f series td m).
Proof.
  unfold OMETIFFWriter.setTiffData.
  apply rother_bind; [apply rother_getImage|intros ?]. other.
Qed.

Lemma rother_fillPlanes w series order sizeZ effC sizeT imageCount planes :
  forall m,
    rother (OMETIFFWriter.fillPlanes w series order sizeZ effC sizeT imageCount
                                     planes m).
Proof.
  induction planes as [|plane rest IH]; intros m; cbn [OMETIFFWriter.fillPlanes].
  - other.
  - apply rother_bind; [apply rother_getZCTCoords|intros coords].
    apply rother_bind; [apply rother_at|intros states].
    apply rother_bind; [apply rother_at|intros planeState].
    destruct (OMETIFFWriter.find (OMETIFFWriter.tiffs w) (OMETIFF.id planeState)).
    + apply rother_bind; [apply rother_setTiffData|intros m']. apply IH.
    + other.
Qed.

Lemma rother_fillSeries w series : forall m,
  rother (OMETIFFWriter.fillSeries w series m).
Proof.
  induction series as [|s rest IH]; intros m; cbn [OMETIFFWriter.fillSeries].
  - other.
  - unfold Metadata.getPixelsDimensionOrder, Metadata.getPixelsSizeZ,
      Metadata.getPixelsSizeT, Metadata.getChannelCount.
    repeat (apply rother_bind;
            [apply rother_bind; [apply rother_getImage|intros ?; other]
            |intros ?]).
    apply rother_bind.
    { match goal with |- rother (if ?b then _ else _) => destruct b end;
        [apply rother_setTiffData|other]. }
    intros m0. apply rother_bind; [apply rother_fillPlanes|intros m1]. apply IH.
Qed.

Lemma rother_read_here n endian pos s : rother (RawStream.read_here n endian pos s).
Proof. unfold RawStream.read_here. other. Qed.

Lemma mother_read_raw n endian off : mother (RawStream.read_raw n endian off).
Proof.
  unfold RawStream.read_raw. apply mother_mconst. intros s.
  destruct (negb (RawStream.seekable off)); [other|apply rother_read_here].
Qed.

Lemma mother_write_raw n endian off v : mother (RawStream.write_raw n endian off v).
Proof.
  unfold RawStream.write_raw. intros s e s'.
  destruct (negb (RawStream.seekable off)); [|discriminate].
  intros [= <- _]. other_exn.
Qed.

Lemma mother_patch_entries endian big ifd0 desc xmlsize n : forall i found,
  mother (OMETIFFWriter.patch_entries endian big ifd0 desc xmlsize n i found).
Proof.
  induction n as [|n IH]; intros i found; cbn [OMETIFFWriter.patch_entries].
  - other.
  - unfold RawStream.read_raw_uint16, RawStream.read_raw_uint32,
      RawStream.read_raw_uint64, RawStream.write_raw_uint32,
      RawStream.write_raw_uint64.
    apply mother_bind; [apply mother_read_raw|intros tagid].
    apply mother_bind; [apply mother_read_raw|intros tagtype].
    destruct (negb (tagid =? OMETIFFWriter.TIFFTAG_IMAGEDESCRIPTION)); [apply IH|].
    destruct (negb (tagtype =? OMETIFFWriter.TIFF_ASCII)); [other|].
    apply mother_bind; [destruct big; apply mother_read_raw|intros count].
    match goal with |- mother (if ?b then _ else _) => destruct b end; [other|].
    apply mother_bind; [|intros _; apply IH].
    destruct big; (apply mother_bind; [|intros _]); apply mother_write_raw.
Qed.

Lemma mother_read_header : mother OMETIFFWriter.read_header.
Proof.
  unfold OMETIFFWriter.read_header, OMETIFFWriter.bad_endian,
    RawStream.read_raw_uint32, RawStream.read_raw_uint64.
  apply mother_bind; [apply mother_mget|intros s].
  destruct (RawStream.extract_char s 0) as [[c0 p0]|]; [|other].
  destruct (RawStream.extract_char _ p0) as [[c1 pos]|]; [|other].
  apply mother_bind; [other|intros endian].
  apply mother_bind; [apply mother_mconst; intros ?; apply rother_read_here
                     |intros version].
  apply mother_bind; [other|intros big].
  apply mother_bind.
  { destruct big; [apply mother_mconst; intros ?; apply rother_read_here|other]. }
  intros offsetSize.
  match goal with |- mother (if ?b then _ else _) => destruct b end; [other|].
  apply mother_bind; [destruct big; apply mother_read_raw|intros ?]. other.
Qed.

Lemma mother_saveComment xml : mother (OMETIFFWriter.saveComment xml).
Proof.
  unfold OMETIFFWriter.saveComment, RawStream.read_raw_uint16,
    RawStream.read_raw_uint64.
  apply mother_bind; [apply mother_read_header|intros [[endian big] ifd0]].
  apply mother_bind; [intros s e s' H; discriminate H|intros desc].
  apply mother_bind; [destruct big; apply mother_read_raw|intros entries].
  apply mother_bind; [apply mother_patch_entries|intros found]. other.
Qed.

Lemma rother_getOMEXML x path w : rother (OMETIFFWriter.getOMEXML x path w).
Proof. unfold OMETIFFWriter.getOMEXML. other. Qed.

Lemma mother_saveComments x files : mother (OMETIFFWriter.saveComments x files).
Proof.
  induction files as [|[path st] rest IH]; cbn [OMETIFFWriter.saveComments].
  - other.
  - apply mother_bind;
      [apply mother_mconst; intros ?; apply rother_getOMEXML|intros xml].
    apply mother_bind; [intros s e s' H; discriminate H|intros _].
    apply mother_bind; [|intros _; exact IH].
    intros wd e wd'.
    destruct (OMETIFFWriter.saveComment xml _) as [r file] eqn:E.
    intros [= -> _]. exact (mother_saveComment _ _ _ _ E).
Qed.

Lemma fold_badPlanes_inner planes : forall acc,
  0 <= acc ->
  acc + OMETIFFWriter.unwritten [planes] < 2 ^ 64 ->
  fold_left
    (fun bad plane =>
       if negb (OMETIFF.Status_eqb (OMETIFF.status plane) OMETIFF.PRESENT)
       then wadd bad 1 else bad)
    planes acc
  = acc + OMETIFFWriter.unwritten [planes].
Proof.
  unfold OMETIFFWriter.unwritten. cbn [List.concat]. rewrite app_nil_r.
  induction planes as [|p planes IH]; intros acc H0 H1; cbn [fold_left filter].
  - cbn. lia.
  - cbn [filter] in H1.
    destruct (negb (OMETIFF.Status_eqb (OMETIFF.status p) OMETIFF.PRESENT)).
    + cbn [List.length] in *.
      replace (wadd acc 1) with (acc + 1)
        by (unfold wadd; rewrite wrap_small;
            [reflexivity|unfold in_size_t, size_bits; lia]).
      rewrite IH by lia. lia.
    + apply IH; assumption.
Qed.

Lemma unwritten_cons planes st :
  OMETIFFWriter.unwritten (planes :: st)
  = OMETIFFWriter.unwritten [planes] + OMETIFFWriter.unwritten st.
Proof.
  unfold OMETIFFWriter.unwritten. cbn [List.concat].
  rewrite app_nil_r, filter_app, length_app. lia.
Qed.

Lemma unwritten_nonneg st : 0 <= OMETIFFWriter.unwritten st.
Proof. unfold OMETIFFWriter.unwritten. lia. Qed.

(** Below [2^64] planes the counter of [fillMetadata] does not wrap. *)
Lemma countBadPlanes_unwritten st :
  OMETIFFWriter.unwritten st < 2 ^ 64 ->
  OMETIFFWriter.countBadPlanes st = OMETIFFWriter.unwritten st.
Proof.
  unfold OMETIFFWriter.countBadPlanes.
  enough (forall acc, 0 <= acc ->
                      acc + OMETIFFWriter.unwritten st < 2 ^ 64 ->
            fold_left
              (fun bad planes =>
                 fold_left
                   (fun bad plane =>
                      if negb (OMETIFF.Status_eqb (OMETIFF.status plane)
                                                  OMETIFF.PRESENT)
                      then wadd bad 1 else bad) planes bad) st acc
            = acc + OMETIFFWriter.unwritten st) as H
      by (intros Hs; rewrite H by lia; lia).
  induction st as [|planes st IH]; intros acc H0 H1; cbn [fold_left].
  - cbn. lia.
  - rewrite unwritten_cons in H1.
    rewrite unwritten_cons.
    pose proof (unwritten_nonneg [planes]). pose proof (unwritten_nonneg st).
    set (a := OMETIFFWriter.unwritten [planes]) in *.
    set (b := OMETIFFWriter.unwritten st) in *.
    rewrite fold_badPlanes_inner by (fold a; lia).
    fold a. rewrite IH by lia. lia.
Qed.

Lemma unwritten_positive st planes plane :
  In planes st -> In plane planes ->
  OMETIFF.status plane <> OMETIFF.PRESENT ->
  1 <= OMETIFFWriter.unwritten st.
Proof.
  intros Hs Hp Ha. unfold OMETIFFWriter.unwritten.
  assert (In plane
             (filter (fun plane =>
                        negb (OMETIFF.Status_eqb (OMETIFF.status plane)
                                                 OMETIFF.PRESENT))
                     (List.concat st))) as Hin.
  { apply filter_In. split.
    - apply in_concat. eauto.
    - destruct (OMETIFF.status plane); try reflexivity. contradiction. }
  destruct (filter _ (List.concat st)); [contradiction|]. cbn [List.length]. lia.
Qed.

Lemma unwritten_zero st :
  (forall planes plane, In planes st -> In plane planes ->
                        OMETIFF.status plane = OMETIFF.PRESENT) ->
  OMETIFFWriter.unwritten st = 0.
Proof.
  intros H. unfold OMETIFFWriter.unwritten.
  destruct (filter _ (List.concat st)) as [|p rest] eqn:E; [reflexivity|].
  assert (In p (p :: rest)) as Hin by (left; reflexivity).
  rewrite <- E in Hin. apply filter_In in Hin. destruct Hin as [Hc Hn].
  apply in_concat in Hc. destruct Hc as (planes & H1 & H2).
  rewrite (H planes p H1 H2) in Hn. discriminate Hn.
Qed.

Section Close.

Import OMETIFFWriter.

Variable x : External.
Variable w : OMETIFFWriter.t.
Variable d : Disk.
Variable id : string.
Variable m : Metadata.MetadataRetrieve.

Hypothesis is_open : FormatWriter.currentId (base w) = Some id.
Hypothesis store : omeMeta w = Some m.
(** [currentTIFF] is [end()] or points into [tiffs]. *)
Hypothesis iterator : currentTIFF w = None \/ exists c, current w = Ok c.

(** Up to [fillMetadata], [close] flushes the last IFD and empties the
    TiffData lists; the plane table is as it was. *)
Lemma close_try_prefix :
  exists w1,
    seriesState w1 = seriesState w /\
    map fst (tiffs w1) = map fst (tiffs w) /\
    omeMeta w1 = Some (removeTiffData m) /\
    close_try x (w, d) =
    match fillMetadata w1 with
    | (inl e, w2) => (Throw e, (w2, d))
    | (inr _, w2) =>
        match saveComments x (tiffs w2) (w2, d) with
        | (inl e, wd) => (Throw e, wd)
        | (inr _, wd) => (Ok tt, (clear (fst wd), snd wd))
        end
    end.
Proof.
  destruct iterator as [Hend|[[k st] Hc]].
  - exists (set_store w (removeTiffData m)). repeat split.
    unfold close_try, mbind, mret, mget, Ok, Throw. cbn [fst snd].
    rewrite is_open, Hend. cbn [fst snd]. rewrite store. cbn [fst snd].
    destruct (fillMetadata (set_store w (removeTiffData m))) as [[e|u] w2];
      [reflexivity|].
    cbn [fst snd].
    destruct (saveComments x (tiffs w2) (w2, d)) as [[e|u'] wd]; reflexivity.
  - destruct (currentTIFF w) as [k'|] eqn:Hk.
    + pose (wn := set_currentTIFF
                    (set_tiffs w
                       (assign (tiffs w) k
                          (mkTIFFState (uuid st) (writeCurrentDirectory (tiff st))
                                       (wadd (ifdCount st) 1))))
                    None).
      exists (set_store wn (removeTiffData m)). repeat split.
      { cbn [tiffs set_store wn set_currentTIFF set_tiffs].
        generalize (mkTIFFState (uuid st) (writeCurrentDirectory (tiff st))
                                (wadd (ifdCount st) 1)).
        intros v. induction (tiffs w) as [|[k0 v0] rest IH]; [reflexivity|].
        cbn [assign]. destruct (String.eqb k0 k); cbn [map fst];
          [reflexivity|now rewrite IH]. }
      unfold close_try, mbind, mret, mget, nextIFD, update_current, Ok, Throw.
      cbn [fst snd]. rewrite is_open, Hk. cbn [fst snd]. rewrite Hc.
      unfold Ok. cbn [fst snd omeMeta set_currentTIFF set_tiffs].
      rewrite store. cbn [fst snd]. fold wn.
      destruct (fillMetadata (set_store wn (removeTiffData m))) as [[e|u] w2];
        [reflexivity|].
      cbn [fst snd].
      destruct (saveComments x (tiffs w2) (w2, d)) as [[e|u'] wd]; reflexivity.
    + unfold current in Hc. rewrite Hk in Hc. discriminate Hc.
Qed.

Lemma fillMetadata_incomplete w1 :
  omeMeta w1 = Some (removeTiffData m) ->
  countBadPlanes (seriesState w1) <> 0 ->
  fillMetadata w1
  = (Throw (IncompletePlanes (countBadPlanes (seriesState w1))), w1).
Proof.
  intros Hm Hb. unfold fillMetadata. rewrite Hm.
  destruct (Z.eqb_spec (countBadPlanes (seriesState w1)) 0); [contradiction|].
  reflexivity.
Qed.

Lemma fillMetadata_complete w1 :
  countBadPlanes (seriesState w1) = 0 ->
  forall e w2, fillMetadata w1 = (Throw e, w2) -> other_error e.
Proof.
  intros Hb e w2. unfold fillMetadata.
  destruct (omeMeta w1) as [m1|]; [|intros [= <- _]; other_exn].
  rewrite Hb. cbn [Z.eqb negb].
  destruct (FormatWriter.getSeriesCount (base w1)) as [e1|n] eqn:En.
  - intros [= <- _]. revert En. unfold FormatWriter.getSeriesCount, FormatWriter.deref.
    destruct (FormatWriter.metadataRetrieve (base w1)); cbn [rbind Ok];
      [discriminate|]. intros [= <-]. other_exn.
  - destruct (fillSeries w1 _ m1) as [e1|m'] eqn:Ef; [|discriminate].
    intros [= <- _]. exact (rother_fillSeries _ _ _ _ Ef).
Qed.

End Close.

(** C2: on an open OME-TIFF writer whose store is set and whose current file
    iterator is valid, [close] fails with the IncompletePlanes error carrying
    the number of planes that are not [PRESENT] as soon as one plane of some
    series is [ABSENT]; when every plane is [PRESENT], whatever [close] does,
    it does not raise that error. *)
Theorem close_refuses_unwritten_planes
        (x : OMETIFFWriter.External) (w : OMETIFFWriter.t)
        (d : OMETIFFWriter.Disk) (id : string) (m : Metadata.MetadataRetrieve)
        (is_open : FormatWriter.currentId (OMETIFFWriter.base w) = Some id)
        (store : OMETIFFWriter.omeMeta w = Some m)
        (iterator : OMETIFFWriter.currentTIFF w = None \/
                    exists c, OMETIFFWriter.current w = Ok c)
        (fits : OMETIFFWriter.unwritten (OMETIFFWriter.seriesState w) < 2 ^ 64) :
  ((exists planes plane,
       In planes (OMETIFFWriter.seriesState w) /\ In plane planes /\
       OMETIFF.status plane = OMETIFF.ABSENT) ->
   1 <= OMETIFFWriter.unwritten (OMETIFFWriter.seriesState w) /\
   fst (OMETIFFWriter.close x (w, d))
   = Throw (OMETIFFWriter.IncompletePlanes
              (OMETIFFWriter.unwritten (OMETIFFWriter.seriesState w)))) /\
  ((forall planes plane,
       In planes (OMETIFFWriter.seriesState w) -> In plane planes ->
       OMETIFF.status plane = OMETIFF.PRESENT) ->
   forall n,
     fst (OMETIFFWriter.close x (w, d)) <> Throw (OMETIFFWriter.IncompletePlanes n)).
Proof.
  destruct (close_try_prefix x w d id m is_open store iterator)
    as (w1 & Hst & _ & Hm & E).
  pose proof (countBadPlanes_unwritten _ fits) as Hcount.
  split.
  - intros (planes & plane & Hs & Hp & Ha).
    assert (1 <= OMETIFFWriter.unwritten (OMETIFFWriter.seriesState w)) as Hpos.
    { apply (unwritten_positive _ planes plane Hs Hp). rewrite Ha. discriminate. }
    split; [exact Hpos|].
    unfold OMETIFFWriter.close. rewrite E.
    rewrite (fillMetadata_incomplete m w1 Hm) by (rewrite Hst, Hcount; lia).
    rewrite Hst, Hcount. reflexivity.
  - intros Hall n.
    pose proof (unwritten_zero _ Hall) as Hzero.
    unfold OMETIFFWriter.close. rewrite E.
    destruct (OMETIFFWriter.fillMetadata w1) as [[e|u] w2] eqn:Ef.
    + cbn [fst]. intros [= He].
      apply (fillMetadata_complete w1 ltac:(rewrite Hst, Hcount; exact Hzero)
                                   e w2 Ef n).
      exact He.
    + destruct (OMETIFFWriter.saveComments x (OMETIFFWriter.tiffs w2) (w2, d))
        as [[e|u'] [w3 d3]] eqn:Es.
      * cbn [fst]. intros [= He].
        exact (mother_saveComments x _ _ _ _ Es n He).
      * cbn [fst]. discriminate.
Qed.


Lemma close_refuses_unwritten_planes_witness :
  1 <= OMETIFFWriter.unwritten (OMETIFFWriter.seriesState stack_writer_three_saved) /\
  fst (OMETIFFWriter.close silent (stack_writer_three_saved, []))
  = Throw (OMETIFFWriter.IncompletePlanes
             (OMETIFFWriter.unwritten
                (OMETIFFWriter.seriesState stack_writer_three_saved))).
Proof.
  refine (proj1 (close_refuses_unwritten_planes
                   silent stack_writer_three_saved [] "stack.ome.tiff"
                   stack_store _ _ _ _) _).
  - vm_compute. reflexivity.
  - vm_compute. reflexivity.
  - right.
    exists (match OMETIFFWriter.current stack_writer_three_saved with
            | inr c => c
            | inl _ => ("", OMETIFFWriter.mkTIFFState
                              "" (OMETIFFWriter.mkTIFF OMETIFFWriter.emptyIFD []) 0)
            end).
    vm_compute. reflexivity.
  - vm_compute. reflexivity.
  - exists (nth 0 (OMETIFFWriter.seriesState stack_writer_three_saved) []).
    exists (nth 3 (nth 0 (OMETIFFWriter.seriesState stack_writer_three_saved) [])
                OMETIFF.defaultPlane).
    vm_compute. repeat split; auto.
Defined.

(** Scenario S6: with the last of four planes never written, [close] reports
    one unwritten plane. *)
Example close_three_of_four :
  fst (OMETIFFWriter.close silent (stack_writer_three_saved, []))
  = Throw (FormatException
             "Inconsistent writer state: %1% planes have not been written" [1]).
Proof. vm_compute. reflexivity. Qed.

(** ** Raw byte streams *)

Section Bytes.

Import RawStream.

Lemma encode_length endian n v : List.length (encode endian n v) = n.
Proof.
  destruct endian; cbn [encode]; rewrite ?length_rev; apply length_le_split.
Qed.

(** Reading back an encoded value gives the value truncated to [n] bytes. *)
Lemma decode_encode endian n v :
  decode endian (encode endian n v) = v mod 2 ^ (8 * Z.of_nat n).
Proof.
  destruct endian; cbn [decode encode]; rewrite ?rev_involutive;
    rewrite le_combine_split; f_equal; f_equal; lia.
Qed.

Lemma decode_nonneg endian bs : 0 <= decode endian bs.
Proof.
  destruct endian; cbn [decode];
    match goal with |- 0 <= le_combine ?l => pose proof (le_combine_bound l) end;
    lia.
Qed.

Variable s : stream.
Variable off : nat.
Variable bs : list byte.
Hypothesis in_file : (off <= List.length s)%nat.

Lemma overwrite_in_file :
  overwrite s off bs = firstn off s ++ bs ++ skipn (off + List.length bs) s.
Proof.
  unfold overwrite. replace (off - List.length s)%nat with 0%nat by lia.
  reflexivity.
Qed.

Lemma overwrite_length :
  List.length (overwrite s off bs)
  = Nat.max (List.length s) (off + List.length bs).
Proof.
  rewrite overwrite_in_file, !length_app, length_firstn, length_skipn. lia.
Qed.

Lemma overwrite_firstn T :
  (T <= off)%nat -> firstn T (overwrite s off bs) = firstn T s.
Proof.
  intros H. rewrite overwrite_in_file, firstn_app, length_firstn.
  replace (T - Nat.min off (List.length s))%nat with 0%nat by lia.
  cbn [firstn]. rewrite app_nil_r, firstn_firstn. f_equal. lia.
Qed.

Lemma overwrite_skipn T :
  (off + List.length bs <= T)%nat -> skipn T (overwrite s off bs) = skipn T s.
Proof.
  intros H. rewrite overwrite_in_file, app_assoc, skipn_app.
  rewrite length_app, length_firstn.
  rewrite (skipn_all2 (firstn off s ++ bs))
    by (rewrite length_app, length_firstn; lia).
  cbn [app]. rewrite skipn_skipn. f_equal. lia.
Qed.

Lemma overwrite_read :
  firstn (List.length bs) (skipn off (overwrite s off bs)) = bs.
Proof.
  rewrite overwrite_in_file, skipn_app, length_firstn.
  rewrite (skipn_all2 (firstn off s)) by (rewrite length_firstn; lia).
  replace (off - Nat.min off (List.length s))%nat with 0%nat by lia.
  cbn [app skipn]. rewrite firstn_app, Nat.sub_diag. cbn [firstn].
  now rewrite app_nil_r, firstn_all.
Qed.

End Bytes.

Section Fields.

Import RawStream.

Lemma prefix_mono T T' s s' :
  0 <= T' <= T -> prefix T s' = prefix T s -> prefix T' s' = prefix T' s.
Proof.
  unfold prefix. intros H E.
  replace (Z.to_nat T') with (Nat.min (Z.to_nat T') (Z.to_nat T)) by lia.
  now rewrite <- !firstn_firstn, E.
Qed.

Lemma suffix_mono T T' s s' :
  0 <= T <= T' -> suffix T s' = suffix T s -> suffix T' s' = suffix T' s.
Proof.
  unfold suffix. intros H E.
  replace (Z.to_nat T') with (Z.to_nat T' - Z.to_nat T + Z.to_nat T)%nat by lia.
  now rewrite <- !skipn_skipn, E.
Qed.

(** A field that ends before [T] only depends on the first [T] bytes. *)
Lemma field_prefix n e off T s s' :
  0 <= off -> off + Z.of_nat n <= T ->
  prefix T s' = prefix T s -> field n e off s' = field n e off s.
Proof.
  unfold prefix, field. intros H0 H1 E. f_equal.
  assert (forall l : stream,
             firstn n (skipn (Z.to_nat off) l)
             = firstn n (skipn (Z.to_nat off) (firstn (Z.to_nat T) l))) as cut.
  { intros l. rewrite skipn_firstn_comm, firstn_firstn. f_equal. lia. }
  now rewrite (cut s'), (cut s), E.
Qed.

(** A field that starts at or after [T] only depends on the bytes from [T]. *)
Lemma field_suffix n e off T s s' :
  0 <= T <= off ->
  suffix T s' = suffix T s -> field n e off s' = field n e off s.
Proof.
  intros H E. unfold field.
  pose proof (suffix_mono T off s s' H E) as E'. unfold suffix in E'.
  now rewrite E'.
Qed.

Lemma read_raw_Ok n e off s v s' :
  read_raw n e off s = (Ok v, s') ->
  s' = s /\ off < 2 ^ 63 /\ off + Z.of_nat n <= size s /\
  v = field n e off s.
Proof.
  unfold read_raw, mconst, read_here, seekable, field.
  destruct (Z.ltb_spec off (2 ^ 63)); cbn [negb]; [|discriminate].
  destruct (Z.ltb_spec (size s) (off + Z.of_nat n)); [discriminate|].
  intros [= <- <-]. repeat split; lia.
Qed.

Lemma write_raw_Ok n e off v s u s' :
  write_raw n e off v s = (Ok u, s') ->
  s' = overwrite s (Z.to_nat off) (encode e n v).
Proof.
  unfold write_raw. destruct (negb (seekable off)); [discriminate|].
  now intros [= <-].
Qed.

(** The effect of one in-file write on sizes, prefixes, suffixes and on the
    field written. *)
Lemma write_effect n e off v s :
  0 <= off <= size s ->
  let s' := overwrite s (Z.to_nat off) (encode e n v) in
  size s <= size s' /\
  prefix off s' = prefix off s /\
  suffix (off + Z.of_nat n) s' = suffix (off + Z.of_nat n) s /\
  field n e off s' = v mod 2 ^ (8 * Z.of_nat n).
Proof.
  intros H s'. unfold size in H.
  assert (Z.to_nat off <= List.length s)%nat as Hin by lia.
  subst s'. unfold size, prefix, suffix, field. repeat split.
  - rewrite overwrite_length by exact Hin. lia.
  - apply overwrite_firstn; [exact Hin|lia].
  - apply overwrite_skipn; [exact Hin|]. rewrite encode_length. lia.
  - pose proof (overwrite_read s (Z.to_nat off) (encode e n v) Hin) as R.
    rewrite encode_length in R. rewrite R. apply decode_encode.
Qed.

End Fields.

Lemma mbind_Ok {S A B} (m : M S A) (k : A -> M S B) s b s' :
  mbind m k s = (Ok b, s') ->
  exists a s1, m s = (Ok a, s1) /\ k a s1 = (Ok b, s').
Proof.
  unfold mbind. destruct (m s) as [[e|a] s1]; [discriminate|]. eauto.
Qed.

Lemma wadd_exact a k : 0 <= a + k < 2 ^ 64 -> wadd a k = a + k.
Proof. intros H. unfold wadd. now apply wrap_small. Qed.

Lemma mod_mod_pow a n k : 0 <= n <= k -> (a mod 2 ^ k) mod 2 ^ n = a mod 2 ^ n.
Proof.
  intros H. replace k with (n + (k - n)) by lia.
  rewrite Z.pow_add_r by lia.
  rewrite Z.rem_mul_r by (apply Z.pow_nonzero || apply Z.pow_pos_nonneg; lia).
  rewrite Z.mul_comm, Z.mod_add by (apply Z.pow_nonzero; lia).
  apply Z.mod_mod. apply Z.pow_nonzero; lia.
Qed.

Section PatchLoop.

Import RawStream OMETIFFWriter.

Variable e : EndianType.
Variable big : bool.
Variables ifd0 desc xs : Z.
Hypothesis ifd0_nonneg : 0 <= ifd0.

Local Abbreviation T := (entryOffset big ifd0).
Local Abbreviation vs := (value_size big).
Local Abbreviation patched := (OMETIFFWriter.patched e big ifd0 desc xs).

Lemma entryOffset_succ i : T (i + 1) = T i + 4 + Z.of_nat vs + Z.of_nat vs.
Proof. unfold entryOffset, entry_size, value_size. destruct big; lia. Qed.

Lemma entryOffset_nonneg i : 0 <= i -> 0 <= T i.
Proof. unfold entryOffset, entries_start, entry_size. destruct big; lia. Qed.

Lemma entryOffset_mono i j : i <= j -> T i <= T j.
Proof. unfold entryOffset, entry_size. destruct big; lia. Qed.

(** Below [2^64] the [uint64_t] computation of an entry offset is exact. *)
Lemma tagOffset_exact i :
  0 <= i -> T i < 2 ^ 64 -> tagOffset big ifd0 i = T i.
Proof.
  intros Hi Hb. unfold tagOffset, entryOffset, entries_start, entry_size in *.
  unfold wadd, wmul, wrap, size_bits.
  destruct big; rewrite Z.add_mod_idemp_l, Z.add_mod_idemp_r by lia;
    apply Z.mod_small; lia.
Qed.

Lemma patch_entries_step n i found h r h' :
  0 <= i -> T i < 2 ^ 64 ->
  patch_entries e big ifd0 desc xs (S n) i found h = (Ok r, h') ->
  T i < 2 ^ 63 /\ T i + 4 <= size h /\
  ((entry_tag e big ifd0 i h <> TIFFTAG_IMAGEDESCRIPTION /\
    patch_entries e big ifd0 desc xs n (i + 1) found h = (Ok r, h')) \/
   (entry_tag e big ifd0 i h = TIFFTAG_IMAGEDESCRIPTION /\
    entry_type e big ifd0 i h = TIFF_ASCII /\
    entry_count e big ifd0 i h
    = Z.of_nat (String.length default_description) + 1 /\
    T i + 4 + Z.of_nat vs <= size h /\
    patch_entries e big ifd0 desc xs n (i + 1) true (patched h i) = (Ok r, h'))).
Proof.
  intros Hi Hb. cbn [patch_entries].
  rewrite (tagOffset_exact i Hi Hb).
  pose proof (entryOffset_nonneg i Hi) as Hn.
  intros H.
  apply mbind_Ok in H. destruct H as (tagid & s1 & R1 & H).
  rewrite wadd_exact in R1 by lia.
  apply read_raw_Ok in R1. destruct R1 as (-> & B1 & L1 & ->).
  rewrite Z.add_0_r in *.
  apply mbind_Ok in H. destruct H as (tagtype & s2 & R2 & H).
  assert (2 ^ 63 < 2 ^ 64) as P by reflexivity.
  rewrite wadd_exact in R2 by lia.
  apply read_raw_Ok in R2. destruct R2 as (-> & B2 & L2 & ->).
  cbn [Z.of_nat Pos.of_succ_nat Pos.succ] in L1, L2.
  split; [exact B1|]. split; [lia|].
  fold (entry_tag e big ifd0 i h) in H.
  fold (entry_type e big ifd0 i h) in H.
  destruct (Z.eqb_spec (entry_tag e big ifd0 i h) TIFFTAG_IMAGEDESCRIPTION)
    as [Et|Et]; cbn [negb] in H.
  2: { left. split; assumption. }
  right.
  destruct (Z.eqb_spec (entry_type e big ifd0 i h) TIFF_ASCII) as [Ety|Ety];
    cbn [negb] in H; [|discriminate H].
  apply mbind_Ok in H. destruct H as (count & s3 & R3 & H).
  assert (read_raw vs e (T i + 4) h = (Ok count, s3)) as R3'.
  { rewrite wadd_exact in R3 by lia. destruct big; exact R3. }
  clear R3. apply read_raw_Ok in R3'. destruct R3' as (-> & B3 & L3 & ->).
  fold (entry_count e big ifd0 i h) in H.
  destruct (Z.eqb_spec (entry_count e big ifd0 i h)
                       (Z.of_nat (String.length default_description) + 1))
    as [Ec|Ec]; cbn [negb] in H; [|discriminate H].
  apply mbind_Ok in H. destruct H as (u & s4 & W & H).
  do 4 (split; [assumption|]).
  assert (s4 = patched h i) as E4.
  { unfold OMETIFFWriter.patched. clear H.
    destruct big; cbn [value_size] in *;
      apply mbind_Ok in W; destruct W as (u1 & s5 & W1 & W2);
      rewrite wadd_exact in W1, W2 by lia;
      apply write_raw_Ok in W1; apply write_raw_Ok in W2; subst s5 s4;
      do 2 f_equal; lia. }
  rewrite <- E4. exact H.
Qed.

(** What patching entry [i] changes: nothing before its count field and
    nothing after its last byte, and the two fields read back as written. *)
Lemma patched_effect h i :
  0 <= i -> T i + 4 + Z.of_nat vs <= size h ->
  size h <= size (patched h i) /\
  prefix (T i + 4) (patched h i) = prefix (T i + 4) h /\
  suffix (T (i + 1)) (patched h i) = suffix (T (i + 1)) h /\
  entry_count e big ifd0 i (patched h i) = (xs + 1) mod 2 ^ (8 * Z.of_nat vs) /\
  entry_value e big ifd0 i (patched h i) = desc mod 2 ^ (8 * Z.of_nat vs).
Proof.
  intros Hi Hs. pose proof (entryOffset_nonneg i Hi) as Hn.
  unfold OMETIFFWriter.patched.
  set (off1 := T i + 4).
  set (h0 := overwrite h (Z.to_nat off1) (encode e vs (wadd xs 1))).
  destruct (write_effect vs e off1 (wadd xs 1) h ltac:(subst off1; lia))
    as (S0 & P0 & F0 & V0).
  fold h0 in S0, P0, F0, V0.
  set (off2 := off1 + Z.of_nat vs).
  set (h1 := overwrite h0 (Z.to_nat off2) (encode e vs desc)).
  destruct (write_effect vs e off2 desc h0 ltac:(subst off1 off2; lia))
    as (S1 & P1 & F1 & V1).
  fold h1 in S1, P1, F1, V1.
  assert (Z.of_nat vs <= 8) as Hvs by (unfold value_size; destruct big; lia).
  repeat split.
  - lia.
  - rewrite <- P0. apply (prefix_mono off2); [subst off1 off2; lia|exact P1].
  - rewrite entryOffset_succ. fold off1 off2. rewrite F1.
    apply (suffix_mono (off1 + Z.of_nat vs)); [subst off1 off2; lia|exact F0].
  - unfold entry_count. fold off1.
    rewrite (field_prefix vs e off1 off2 h0 h1) by (subst off1 off2; lia || exact P1).
    rewrite V0. unfold wadd, wrap, size_bits. apply mod_mod_pow. lia.
  - unfold entry_value. fold off1 off2. exact V1.
Qed.

(** The invariant of the loop of [saveComment]: run from entry [i] on a file
    [h] for [n] entries, it ends on a file [h'] that agrees with [h] before
    entry [i] and after entry [i + n], keeps every tag and type, finds the
    flag set exactly when some entry is an ImageDescription, and has checked
    and patched every such entry. *)
Lemma patch_entries_invariant n : forall i found h r h',
  0 <= i -> T i < 2 ^ 64 ->
  patch_entries e big ifd0 desc xs n i found h = (Ok r, h') ->
  size h <= size h' /\
  prefix (T i) h' = prefix (T i) h /\
  suffix (T (i + Z.of_nat n)) h' = suffix (T (i + Z.of_nat n)) h /\
  (r = true <->
   found = true \/
   exists j, i <= j < i + Z.of_nat n /\
             entry_tag e big ifd0 j h = TIFFTAG_IMAGEDESCRIPTION) /\
  (forall j,
      i <= j < i + Z.of_nat n ->
      T j + 4 <= size h /\
      entry_tag e big ifd0 j h' = entry_tag e big ifd0 j h /\
      entry_type e big ifd0 j h' = entry_type e big ifd0 j h /\
      (entry_tag e big ifd0 j h = TIFFTAG_IMAGEDESCRIPTION ->
       entry_type e big ifd0 j h = TIFF_ASCII /\
       entry_count e big ifd0 j h
       = Z.of_nat (String.length default_description) + 1 /\
       entry_count e big ifd0 j h' = (xs + 1) mod 2 ^ (8 * Z.of_nat vs) /\
       entry_value e big ifd0 j h' = desc mod 2 ^ (8 * Z.of_nat vs))).
Proof.
  induction n as [|n IH]; intros i found h r h' Hi Hb H.
  - cbn [patch_entries] in H. injection H as <- <-.
    rewrite Z.add_0_r. repeat split; try reflexivity; try lia.
    + intros ->. now left.
    + intros [->|(j & Hj & _)]; [reflexivity|lia].
  - apply patch_entries_step in H; [|exact Hi|exact Hb].
    destruct H as (B & L & H).
    pose proof (entryOffset_nonneg i Hi) as Hn.
    pose proof (entryOffset_succ i) as Hsucc.
    assert (Z.of_nat vs <= 8) as Hvs by (unfold value_size; destruct big; lia).
    assert (2 ^ 63 + 20 < 2 ^ 64) as P by reflexivity.
    assert (0 <= i + 1) as Hi1 by lia.
    assert (T (i + 1) < 2 ^ 64) as Hb1 by lia.
    replace (i + Z.of_nat (S n)) with (i + 1 + Z.of_nat n) by lia.
    destruct H as [(Et & H)|(Et & Ety & Ec & L3 & H)].
    + (* entry [i] is another tag: the file is not touched *)
      destruct (IH (i + 1) found h r h' Hi1 Hb1 H) as (S1 & P1 & F1 & R1 & E1).
      repeat split.
      * exact S1.
      * apply (prefix_mono (T (i + 1))); [lia|exact P1].
      * exact F1.
      * intros Hr. apply R1 in Hr. destruct Hr as [Hf|(j & Hj & Hjt)];
          [now left|right; exists j; split; [lia|exact Hjt]].
      * intros [Hf|(j & Hj & Hjt)]; apply R1; [now left|].
        right. exists j. split; [|exact Hjt].
        destruct (Z.eq_dec j i) as [->|]; [contradiction|lia].
      * destruct (Z.eq_dec j i) as [->|Hne]; [exact L|]. apply E1. lia.
      * destruct (Z.eq_dec j i) as [->|Hne]; [|apply E1; lia].
        unfold entry_tag. apply (field_prefix 2 e (T i) (T (i + 1))); [lia|lia|exact P1].
      * destruct (Z.eq_dec j i) as [->|Hne]; [|apply E1; lia].
        unfold entry_type. apply (field_prefix 2 e (T i + 2) (T (i + 1))); [lia|lia|exact P1].
      * destruct (Z.eq_dec j i) as [->|Hne]; [contradiction|].
        apply (E1 j ltac:(lia)). assumption.
      * destruct (Z.eq_dec j i) as [->|Hne]; [contradiction|].
        apply (E1 j ltac:(lia)). assumption.
      * destruct (Z.eq_dec j i) as [->|Hne]; [contradiction|].
        apply (E1 j ltac:(lia)). assumption.
      * destruct (Z.eq_dec j i) as [->|Hne]; [contradiction|].
        apply (E1 j ltac:(lia)). assumption.
    + (* entry [i] is the ImageDescription: it is patched *)
      destruct (patched_effect h i Hi L3) as (S0 & P0 & F0 & C0 & V0).
      set (h1 := patched h i) in *.
      destruct (IH (i + 1) true h1 r h' Hi1 Hb1 H) as (S1 & P1 & F1 & R1 & E1).
      assert (forall j k off, i + 1 <= j -> 0 <= off ->
                              field k e (T j + off) h1 = field k e (T j + off) h)
        as later.
      { intros j k off Hj Hoff.
        apply (field_suffix k e (T j + off) (T (i + 1))); [|exact F0].
        pose proof (entryOffset_mono (i + 1) j Hj). lia. }
      assert (forall k off, off + Z.of_nat k <= 4 + Z.of_nat vs + Z.of_nat vs ->
                            0 <= off ->
                            field k e (T i + off) h' = field k e (T i + off) h1)
        as kept.
      { intros k off Hk Hoff.
        apply (field_prefix k e (T i + off) (T (i + 1))); [lia|lia|exact P1]. }
      assert (forall j, i + 1 <= j ->
                        entry_tag e big ifd0 j h1 = entry_tag e big ifd0 j h /\
                        entry_type e big ifd0 j h1 = entry_type e big ifd0 j h /\
                        entry_count e big ifd0 j h1 = entry_count e big ifd0 j h)
        as same.
      { intros j Hj. unfold entry_tag, entry_type, entry_count.
        rewrite <- (Z.add_0_r (T j)) at 1 2.
        rewrite !later by lia. now rewrite Z.add_0_r. }
      assert (entry_tag e big ifd0 i h1 = entry_tag e big ifd0 i h /\
              entry_type e big ifd0 i h1 = entry_type e big ifd0 i h) as [Ti Tyi].
      { unfold entry_tag, entry_type. split.
        - apply (field_prefix 2 e (T i) (T i + 4)); [lia|lia|exact P0].
        - apply (field_prefix 2 e (T i + 2) (T i + 4)); [lia|lia|exact P0]. }
      repeat split.
      * lia.
      * rewrite <- (prefix_mono (T i + 4) (T i) h h1 ltac:(lia) P0).
        apply (prefix_mono (T (i + 1))); [lia|exact P1].
      * rewrite F1. apply (suffix_mono (T (i + 1))); [|exact F0].
        pose proof (entryOffset_mono (i + 1) (i + 1 + Z.of_nat n) ltac:(lia)).
        lia.
      * intros _. right. exists i. split; [lia|exact Et].
      * intros _. apply R1. now left.
      * destruct (Z.eq_dec j i) as [->|Hne]; [exact L|].
        destruct (E1 j ltac:(lia)) as (Lj & _). 
        pose proof (entryOffset_mono (i + 1) j ltac:(lia)).
        (* the size of [h] bounds entry [j] because [h1] agrees with [h]
           from entry [i + 1] on *)
        unfold suffix in F0. unfold size in *.
        assert (List.length (skipn (Z.to_nat (T (i + 1))) h1)
                = List.length (skipn (Z.to_nat (T (i + 1))) h)) as Hl
            by now rewrite F0.
        rewrite !length_skipn in Hl. lia.
      * destruct (Z.eq_dec j i) as [->|Hne].
        -- rewrite <- Ti. unfold entry_tag.
           rewrite <- (Z.add_0_r (T i)). apply kept; lia.
        -- destruct (E1 j ltac:(lia)) as (_ & Ej & _).
           rewrite Ej. apply same. lia.
      * destruct (Z.eq_dec j i) as [->|Hne].
        -- rewrite <- Tyi. unfold entry_type. apply kept; lia.
        -- destruct (E1 j ltac:(lia)) as (_ & _ & Ej & _).
           rewrite Ej. apply same. lia.
      * destruct (Z.eq_dec j i) as [->|Hne]; [exact Ety|].
        destruct (E1 j ltac:(lia)) as (_ & _ & _ & Ej).
        destruct (same j ltac:(lia)) as (A1 & A2 & A3).
        rewrite <- A2. apply Ej. now rewrite A1.
      * destruct (Z.eq_dec j i) as [->|Hne]; [exact Ec|].
        destruct (E1 j ltac:(lia)) as (_ & _ & _ & Ej).
        destruct (same j ltac:(lia)) as (A1 & A2 & A3).
        rewrite <- A3. apply Ej. now rewrite A1.
      * destruct (Z.eq_dec j i) as [->|Hne].
        -- rewrite <- C0. unfold entry_count. apply kept; lia.
        -- destruct (E1 j ltac:(lia)) as (_ & _ & _ & Ej).
           destruct (same j ltac:(lia)) as (A1 & A2 & A3).
           apply Ej. now rewrite A1.
      * destruct (Z.eq_dec j i) as [->|Hne].
        -- rewrite <- V0. unfold entry_value.
           rewrite <- !Z.add_assoc. apply kept; lia.
        -- destruct (E1 j ltac:(lia)) as (_ & _ & _ & Ej).
           destruct (same j ltac:(lia)) as (A1 & A2 & A3).
           apply Ej. now rewrite A1.
Qed.

End PatchLoop.

(** ** The post-close patch of the ImageDescription entry *)

Section SaveComment.

Import RawStream OMETIFFWriter.

(** Reading the header leaves the file as it is, and the offset of IFD 0 is
    not negative. *)
Lemma read_header_Ok f endian big ifd0 s1 :
  read_header f = (Ok (endian, big, ifd0), s1) -> s1 = f /\ 0 <= ifd0.
Proof.
  unfold read_header, bad_endian. intros H.
  apply mbind_Ok in H. destruct H as (s & s0 & G & H).
  injection G as <- <-.
  destruct (extract_char f 0) as [[c0 p0]|]; [|discriminate H].
  destruct (extract_char _ p0) as [[c1 pos]|]; [|discriminate H].
  apply mbind_Ok in H. destruct H as (en & s2 & G & H).
  assert (s2 = f) as ->.
  { destruct (Byte.eqb c0 char_I && Byte.eqb c1 char_I);
      [now injection G|].
    destruct (Byte.eqb c0 char_M && Byte.eqb c1 char_M);
      [now injection G|discriminate G]. }
  clear G.
  apply mbind_Ok in H. destruct H as (version & s3 & G & H).
  unfold mconst in G. injection G as _ <-.
  apply mbind_Ok in H. destruct H as (bo & s4 & G & H).
  assert (s4 = f) as ->.
  { destruct (version =? 42); [now injection G|].
    destruct (version =? 43); [now injection G|discriminate G]. }
  clear G.
  apply mbind_Ok in H. destruct H as (offsetSize & s5 & G & H).
  assert (s5 = f) as ->.
  { destruct bo; unfold mconst, mret in G; now injection G. }
  clear G.
  destruct (negb (offsetSize =? 4) && negb (offsetSize =? 8));
    [discriminate H|].
  apply mbind_Ok in H. destruct H as (off & s6 & G & H).
  injection H as <- <- <- <-.
  assert (exists n, read_raw n en (if bo then 8 else 4) f = (Ok off, s6))
    as (n & G') by (destruct bo; eexists; exact G).
  apply read_raw_Ok in G'. destruct G' as (-> & _ & _ & ->).
  split; [reflexivity|apply decode_nonneg].
Qed.

Lemma skipn_size_app (f rest : stream) : suffix (size f) (f ++ rest) = rest.
Proof.
  unfold suffix, size. rewrite Nat2Z.id, skipn_app, Nat.sub_diag.
  now rewrite skipn_all.
Qed.

Lemma prefix_size_app (f rest : stream) :
  prefix (size f) (f ++ rest) = prefix (size f) f.
Proof.
  unfold prefix, size. rewrite Nat2Z.id, firstn_app, Nat.sub_diag.
  cbn [firstn]. now rewrite app_nil_r.
Qed.

(** C1: whenever [saveComment] succeeds on a file, the ImageDescription entry
    of its first IFD has been patched in place: the entry had type ASCII and
    count [strlen("OME-TIFF") + 1], its count field now holds [len(xml) + 1]
    and its offset field the offset of the XML text appended at the end of the
    file, which a single NUL follows; the fields are 32 bits wide at entry
    offsets +4 and +8 for classic TIFF and 64 bits wide at +4 and +12 for
    BigTIFF. *)
Theorem saveComment_patches_ImageDescription (xml : list byte) (f f' : stream) :
  saveComment xml f = (Ok tt, f') -> description_patched xml f f'.
Proof.
  unfold saveComment. intros H.
  apply mbind_Ok in H. destruct H as ([[endian big] ifd0] & s1 & Hh & H).
  destruct (read_header_Ok _ _ _ _ _ Hh) as (-> & Hifd).
  apply mbind_Ok in H. destruct H as (descOffset & g & Ha & H).
  unfold append_xml in Ha. injection Ha as <- <-.
  apply mbind_Ok in H. destruct H as (entries & s2 & He & H).
  assert (read_raw (if big then 8 else 2)%nat endian ifd0 (f ++ xml ++ [Byte.x00])
          = (Ok entries, s2)) as He' by (destruct big; exact He).
  clear He. apply read_raw_Ok in He'. destruct He' as (-> & Bi & Li & Ee).
  apply mbind_Ok in H. destruct H as (found & s3 & Hp & H).
  destruct found; cbn [negb] in H; [|discriminate H].
  injection H as <-.
  set (g := f ++ xml ++ [Byte.x00]) in *.
  assert (0 <= entries) as Hen by (rewrite Ee; apply decode_nonneg).
  assert (2 ^ 63 + 8 < 2 ^ 64) as P by reflexivity.
  assert (entryOffset big ifd0 0 < 2 ^ 64) as Hb
      by (unfold entryOffset, entries_start; destruct big; lia).
  destruct (patch_entries_invariant endian big ifd0 (size f) (size xml) Hifd
              (Z.to_nat entries) 0 false g true s3 ltac:(lia) Hb Hp)
    as (S1 & P1 & F1 & R1 & E1).
  rewrite Z2Nat.id, Z.add_0_l in * by exact Hen.
  exists endian, big, ifd0, entries.
  split; [exact Hh|]. cbn zeta. fold g.
  assert (8 * Z.of_nat (value_size big) = if big then 64 else 32) as Hbits
      by (destruct big; reflexivity).
  rewrite Hbits in E1.
  split; [exact Ee|]. split; [|split].
  - destruct (proj1 R1 eq_refl) as [Hf|Hj]; [discriminate Hf|exact Hj].
  - intros i Hi Ht.
    destruct (E1 i Hi) as (_ & Et & Ety & Ep).
    destruct (Ep Ht) as (A1 & A2 & A3 & A4).
    repeat split; try assumption.
    + now rewrite Et.
    + now rewrite Ety.
  - intros Hin.
    assert (size g = size f + size xml + 1) as Hg.
    { unfold g, size. rewrite !length_app. cbn [List.length]. lia. }
    assert (0 <= entryOffset big ifd0 entries) as Hn
        by (apply entryOffset_nonneg; assumption).
    split; [|split].
    + (* the size is unchanged: [f'] and [g] agree from the end of IFD 0 *)
      unfold suffix in F1. unfold size in *.
      assert (List.length (skipn (Z.to_nat (entryOffset big ifd0 entries)) s3)
              = List.length (skipn (Z.to_nat (entryOffset big ifd0 entries)) g))
        as Hl by now rewrite F1.
      rewrite !length_skipn in Hl. lia.
    + rewrite (suffix_mono (entryOffset big ifd0 entries) (size f) g s3);
        [apply skipn_size_app| |exact F1].
      unfold size in *. lia.
    + intros i Hi.
      pose proof (entryOffset_mono big ifd0 (i + 1) entries ltac:(lia)) as Hm.
      pose proof (entryOffset_succ big ifd0 i) as Hsucc.
      pose proof (entryOffset_nonneg big ifd0 Hifd i ltac:(lia)) as Hni.
      assert (forall k off, 0 <= off ->
                            off + Z.of_nat k
                            <= 4 + Z.of_nat (value_size big)
                               + Z.of_nat (value_size big) ->
                field k endian (entryOffset big ifd0 i + off) g
                = field k endian (entryOffset big ifd0 i + off) f) as same.
      { intros k off H0 H1.
        apply (field_prefix k endian _ (size f)); [lia|lia|].
        apply prefix_size_app. }
      unfold entry_tag, entry_type, entry_count.
      rewrite <- (Z.add_0_r (entryOffset big ifd0 i)) at 1 2.
      rewrite !same by (destruct big; cbn [value_size]; lia).
      now rewrite Z.add_0_r.
Qed.

End SaveComment.

Lemma saveComment_patches_ImageDescription_witness :
  OMETIFFWriter.description_patched
    tiny_xml tiny_tiff (snd (OMETIFFWriter.saveComment tiny_xml tiny_tiff)).
Proof.
  apply saveComment_patches_ImageDescription. vm_compute. reflexivity.
Defined.

(** On the 35-byte file: after the patch the entry has count 7 and offset 35,
    and the file ends with the XML text and its NUL. *)
Example saveComment_tiny_tiff :
  let f' := snd (OMETIFFWriter.saveComment tiny_xml tiny_tiff) in
  fst (OMETIFFWriter.saveComment tiny_xml tiny_tiff) = Ok tt /\
  OMETIFFWriter.entry_tag RawStream.ENDIAN_LITTLE false 8 0 f' = 270 /\
  OMETIFFWriter.entry_type RawStream.ENDIAN_LITTLE false 8 0 f' = 2 /\
  OMETIFFWriter.entry_count RawStream.ENDIAN_LITTLE false 8 0 f' = 7 /\
  OMETIFFWriter.entry_value RawStream.ENDIAN_LITTLE false 8 0 f' = 35 /\
  RawStream.size f' = 42 /\
  RawStream.suffix 35 f' = tiny_xml ++ [Byte.x00].
Proof. vm_compute. repeat split; reflexivity. Qed.

(** ** Every file that [close] finishes has gone through [saveComment] *)

Section ClosePatches.

Import RawStream OMETIFFWriter.

Lemma disk_find_store_same d k v : disk_find (disk_store d k v) k = Some v.
Proof. unfold disk_store. cbn [disk_find]. now rewrite String.eqb_refl. Qed.

Lemma disk_find_store_other d k k' v :
  k <> k' -> disk_find (disk_store d k v) k' = disk_find d k'.
Proof.
  intros Hne. unfold disk_store. cbn [disk_find].
  destruct (String.eqb_spec k k') as [->|_]; [contradiction|].
  induction d as [|[k0 v0] rest IH]; [reflexivity|].
  cbn [filter fst negb disk_find].
  destruct (String.eqb_spec k0 k) as [->|Hk]; cbn [negb disk_find].
  - destruct (String.eqb_spec k k'); [contradiction|exact IH].
  - destruct (String.eqb k0 k'); [reflexivity|exact IH].
Qed.

Variable x : External.

(** The loop of [close] over the files leaves the writer alone, and leaves on
    disk, for every file, the result of a successful [saveComment] on the
    bytes of the closed TIFF. *)
Lemma saveComments_Ok files : forall w d w' d',
  NoDup (map fst files) ->
  saveComments x files (w, d) = (Ok tt, (w', d')) ->
  w' = w /\
  (forall path, ~ In path (map fst files) -> disk_find d' path = disk_find d path) /\
  (forall path st,
      In (path, st) files ->
      exists xml f',
        getOMEXML x path w = Ok xml /\
        disk_find d' path = Some f' /\
        saveComment xml (tiff_bytes x (tiff st)) = (Ok tt, f')).
Proof.
  induction files as [|[path0 st0] rest IH]; intros w d w' d' Hnd H.
  - cbn [saveComments] in H. injection H as <- <-.
    split; [reflexivity|]. split; [reflexivity|intros ? ? []].
  - cbn [saveComments] in H. cbn [map fst] in Hnd.
    apply NoDup_cons_iff in Hnd. destruct Hnd as [Hnotin Hnd].
    apply mbind_Ok in H. destruct H as (xml & wd1 & Hx & H).
    unfold mconst in Hx. cbn [fst] in Hx. injection Hx as Hx <-.
    apply mbind_Ok in H. destruct H as (u1 & wd2 & H1 & H).
    injection H1 as _ <-. cbn [fst snd] in H.
    apply mbind_Ok in H. destruct H as (u2 & wd3 & H2 & H).
    cbn [fst snd] in H2.
    destruct (saveComment xml (tiff_bytes x (tiff st0))) as [r file] eqn:Es.
    injection H2 as -> <-.
    destruct u2.
    destruct (IH _ _ _ _ Hnd H) as (-> & Hother & Hin).
    split; [reflexivity|]. split.
    + intros path Hp. cbn [map fst In] in Hp.
      rewrite Hother by tauto.
      rewrite !disk_find_store_other by (intros ->; tauto). reflexivity.
    + intros path st [[= <- <-]|Hi].
      * exists xml, file. split; [exact Hx|]. split; [|exact Es].
        rewrite Hother by exact Hnotin. apply disk_find_store_same.
      * apply Hin. exact Hi.
Qed.

Lemma find_In (m : tiff_map) path :
  find m path <> None -> exists st, In (path, st) m.
Proof.
  induction m as [|[k v] rest IH]; cbn [find]; [congruence|].
  destruct (String.eqb_spec k path) as [->|Hne].
  - intros _. exists v. now left.
  - intros H. destruct (IH H) as (st & Hin). exists st. now right.
Qed.

Lemma find_keys (m m' : tiff_map) path :
  map fst m = map fst m' -> find m path <> None -> find m' path <> None.
Proof.
  revert m'. induction m as [|[k v] rest IH]; intros [|[k' v'] rest'];
    cbn [map fst find]; try discriminate; [congruence|].
  intros [= <- Hrest].
  destruct (String.eqb k path); [discriminate|]. now apply IH.
Qed.

Lemma fillMetadata_tiffs w u w2 :
  fillMetadata w = (Ok u, w2) -> tiffs w2 = tiffs w.
Proof.
  unfold fillMetadata. destruct (omeMeta w); [|discriminate].
  destruct (negb (countBadPlanes (seriesState w) =? 0)); [discriminate|].
  destruct (FormatWriter.getSeriesCount (base w)); [discriminate|].
  destruct (fillSeries w _ _); [discriminate|].
  now intros [= _ <-].
Qed.

(** When [close] succeeds on an open writer, every file of the writer is on
    disk as a successful [saveComment] left it, so that the patch of the
    ImageDescription entry has been applied to each of them. *)
Lemma close_saves_every_comment w d id m w' d' :
  FormatWriter.currentId (base w) = Some id ->
  omeMeta w = Some m ->
  (currentTIFF w = None \/ exists c, current w = Ok c) ->
  NoDup (map fst (tiffs w)) ->
  close x (w, d) = (Ok tt, (w', d')) ->
  forall path,
    find (tiffs w) path <> None ->
    exists xml f f',
      disk_find d' path = Some f' /\ saveComment xml f = (Ok tt, f').
Proof.
  intros is_open store iterator Hnd H path Hp.
  destruct (close_try_prefix x w d id m is_open store iterator)
    as (w1 & _ & Hk & _ & E).
  unfold close in H. rewrite E in H.
  destruct (fillMetadata w1) as [[e|u] w2] eqn:Ef; [discriminate H|].
  destruct (saveComments x (tiffs w2) (w2, d)) as [[e|u'] [w3 d3]] eqn:Es;
    [discriminate H|].
  cbn [fst snd] in H. injection H as _ <-.
  destruct u'.
  pose proof (fillMetadata_tiffs _ _ _ Ef) as Ht.
  assert (NoDup (map fst (tiffs w2))) as Hnd2 by now rewrite Ht, Hk.
  destruct (saveComments_Ok _ _ _ _ _ Hnd2 Es) as (_ & _ & Hin).
  assert (find (tiffs w2) path <> None) as Hp2.
  { apply (find_keys (tiffs w)); [|exact Hp]. now rewrite Ht, Hk. }
  destruct (find_In _ _ Hp2) as (st & Hst).
  destruct (Hin path st Hst) as (xml & f' & _ & Hd & Hs).
  exists xml, (tiff_bytes x (tiff st)), f'. split; [exact Hd|exact Hs].
Qed.

End ClosePatches.

(** With all four planes saved, [close] succeeds, the store lists one
    TiffData per plane on IFDs 0 to 3, and the file on disk is patched. *)
Example close_all_saved :
  let r := OMETIFFWriter.close tiny_external (stack_writer_all_saved, []) in
  fst r = Ok tt /\
  OMETIFFWriter.disk_find (snd (snd r)) "stack.ome.tiff"
  = Some (snd (OMETIFFWriter.saveComment tiny_xml tiny_tiff)) /\
  FormatWriter.currentId (OMETIFFWriter.base (fst (snd r))) = None /\
  OMETIFFWriter.seriesState (fst (snd r)) = [].
Proof. vm_compute. repeat split; reflexivity. Qed.

(** * Further properties of the code *)

(** ** The baseline TIFF reader: how [readIFDs] groups the directories *)

Section MinimalReader.

Import MinimalTIFFReader.

Variable make : IFD -> CoreMetadata.
Variable currentId : string.
Variable ranges0 : list IFDRange.

Local Abbreviation series_of := (MinimalTIFFReader.series_of make currentId).
Local Abbreviation reading := (MinimalTIFFReader.reading make currentId ranges0).
Local Abbreviation len l := (Z.of_nat (List.length l)).

Lemma dir_app_lt done i j :
  0 <= j < len done -> dir (done ++ [i]) j = dir done j.
Proof. unfold dir. intros H. apply nth_error_app1. lia. Qed.

Lemma dir_app_last done i : dir (done ++ [i]) (len done) = Some i.
Proof.
  unfold dir. rewrite Nat2Z.id, nth_error_app2, Nat.sub_diag by lia. reflexivity.
Qed.

Lemma dir_Some ifds j a : 0 <= j -> dir ifds j = Some a -> j < len ifds.
Proof.
  unfold dir. intros Hj H.
  assert (nth_error ifds (Z.to_nat j) <> None) as N by congruence.
  apply nth_error_Some in N. lia.
Qed.

Lemma series_of_app done i r c :
  series_of done r c -> series_of (done ++ [i]) r c.
Proof.
  intros (Hf & Hb & He & Hh & first & Hd & Hc).
  split; [exact Hf|]. split; [exact Hb|].
  split; [rewrite length_app; cbn [List.length]; lia|]. split.
  - intros j a b H1 H2 Ha Hb'. rewrite dir_app_lt in Ha, Hb' by lia.
    exact (Hh j a b H1 H2 Ha Hb').
  - exists first. split; [|exact Hc]. rewrite dir_app_lt by lia. exact Hd.
Qed.

Lemma series_end_app done i r :
  0 < range_end r -> series_end done r -> series_end (done ++ [i]) r.
Proof.
  intros H0 (a & b & Ha & Hb & Hc). exists a, b.
  pose proof (dir_Some done (range_end r) b ltac:(lia) Hb) as L.
  rewrite !dir_app_lt by lia. auto.
Qed.

Lemma tiles_snoc closed : forall a cur n,
  tiles a (closed ++ [cur]) n <->
  exists b, tiles a closed b /\ range_begin cur = b /\ b < range_end cur /\
            range_end cur = n.
Proof.
  induction closed as [|r rest IH]; intros a cur n; cbn [app tiles].
  - split.
    + intros (H1 & H2 & H3). exists a. repeat split; auto.
    + intros (b & <- & H1 & H2 & H3). repeat split; auto.
  - rewrite IH. split.
    + intros (H1 & H2 & b & H3). exists b. tauto.
    + intros (b & (H1 & H2 & H3) & H4). repeat split; auto. exists b. tauto.
Qed.

(** The ranges cover every directory between their ends. *)
Lemma tiles_cover rs : forall a n j,
  tiles a rs n -> a <= j < n ->
  exists r, In r rs /\ range_begin r <= j < range_end r.
Proof.
  induction rs as [|r rest IH]; intros a n j; cbn [tiles].
  - intros <- H. lia.
  - intros (H1 & H2 & H3) Hj.
    destruct (Z.lt_ge_cases j (range_end r)) as [Hlt|Hge].
    + exists r. split; [now left|lia].
    + destruct (IH _ _ j H3 ltac:(lia)) as (r' & Hin & Hr').
      exists r'. split; [now right|exact Hr'].
Qed.

Lemma grown_one c : grown c 1 = c.
Proof. reflexivity. Qed.

Lemma next_timepoint_grown c n :
  1 <= n -> next_timepoint (grown c n) = grown c (n + 1).
Proof.
  intros Hn. unfold grown, next_timepoint.
  destruct (Z.leb_spec (n + 1) 1); [lia|].
  destruct (Z.leb_spec n 1).
  - assert (n = 1) as -> by lia. reflexivity.
  - cbn [sizeX sizeY sizeZ sizeT sizeC pixelType].
    assert (wadd (wrap (sizeT c + (n - 1))) 1 = wrap (sizeT c + (n + 1 - 1))) as ->.
    { unfold wadd, wrap. rewrite Z.add_mod_idemp_l by (unfold size_bits; lia).
      f_equal. lia. }
    reflexivity.
Qed.

Lemma bump_back_snoc front r :
  bump_back (front ++ [r])
  = Ok (front ++ [mkIFDRange (filename r) (range_begin r) (wadd (range_end r) 1)]).
Proof.
  unfold bump_back. rewrite rev_app_distr. cbn [rev app].
  now rewrite rev_involutive.
Qed.

(** One turn of the loop keeps the invariant, and never calls [back()] on an
    empty vector. *)
Lemma readIFDs_step_reading done st i :
  reading done st -> len done + 1 < 2 ^ 64 ->
  exists st', readIFDs_step make currentId st i = Ok st' /\
              reading (done ++ [i]) st'.
Proof.
  intros (Hn & [(-> & Hp & Hc & Hcore & Hr)
               |(front & p & closed & cur & c & Hdone & Hp & Hc & Hr & Hclosed
                 & Hcur & Hend & Htiles)]) Hb.
  - (* the first directory *)
    unfold readIFDs_step. rewrite Hc. cbn [rbind Ok].
    eexists. split; [reflexivity|].
    cbn [List.length Z.of_nat] in Hn.
    split; cbn [current_ifd new_series app List.length].
    + rewrite Hn. reflexivity.
    + right. exists [], i, [],
        (mkIFDRange currentId (current_ifd st) (wadd (current_ifd st) 1)),
        (make i).
      cbn [prev_ifd current_core seriesIFDRange core new_series app].
      rewrite Hn, Hr. unfold push_core. rewrite Hc, Hcore.
      repeat split; cbn [range_begin range_end filename List.length Z.of_nat];
        try reflexivity; try lia.
      * constructor.
      * intros j a b H1 H2. change (wadd 0 1) with 1 in H2. lia.
      * exists i. split; reflexivity.
  - (* a later directory *)
    set (n := len done) in *.
    assert (0 <= n) as Hn0 by (subst n; lia).
    assert (wadd n 1 = n + 1) as Hw by (apply wadd_exact; lia).
    assert (dir done (n - 1) = Some p) as Hlast.
    { subst n. rewrite Hdone, length_app. cbn [List.length].
      replace (Z.of_nat (List.length front + 1) - 1) with (len front) by lia.
      apply dir_app_last. }
    assert (len (done ++ [i]) = n + 1) as Hlen
        by (subst n; rewrite length_app; cbn [List.length]; lia).
    destruct Hcur as (Hf & Hbe & He & Hh & first & Hd & Hcc).
    assert (Forall2
              (fun r cs => exists c', cs = [c'] /\ series_of (done ++ [i]) r c' /\
                                      series_end (done ++ [i]) r)
              closed (core st)) as Hclosed'.
    { eapply Forall2_impl; [|exact Hclosed].
      intros r cs (c' & -> & H1 & H2). exists c'. split; [reflexivity|].
      split; [now apply series_of_app|].
      apply series_end_app; [|exact H2]. destruct H1 as (_ & H1 & _). lia. }
    unfold readIFDs_step. rewrite Hc, Hp.
    destruct (compare_ifd p i) eqn:E.
    + (* the same format: one more timepoint of the current series *)
      rewrite Hr, app_assoc, bump_back_snoc. cbn [rbind Ok].
      eexists. split; [reflexivity|].
      split; cbn [current_ifd]; [rewrite Hn, Hw, Hlen; reflexivity|].
      right. exists done, i, closed,
        (mkIFDRange (filename cur) (range_begin cur) (wadd (range_end cur) 1)),
        (next_timepoint c).
      cbn [prev_ifd current_core seriesIFDRange core].
      rewrite Hend, Hw, Hlen.
      split; [reflexivity|]. split; [reflexivity|]. split; [reflexivity|].
      split; [now rewrite app_assoc|]. split; [exact Hclosed'|].
      split; [|split; [reflexivity|]].
      * split; [exact Hf|]. cbn [range_begin range_end filename].
        split; [lia|]. split; [lia|]. split.
        -- intros j a b H1 H2 Ha Hb'.
           destruct (Z.eq_dec (j + 1) n) as [Hj|Hj].
           ++ rewrite Hj in Hb'. unfold n in Hb'. rewrite dir_app_last in Hb'.
              rewrite dir_app_lt in Ha by (fold n; lia).
              replace j with (n - 1) in Ha by lia.
              rewrite Hlast in Ha. injection Ha as <-. injection Hb' as <-.
              exact E.
           ++ rewrite dir_app_lt in Ha, Hb' by (fold n; lia).
              apply (Hh j a b H1 ltac:(lia) Ha Hb').
        -- exists first. split; [rewrite dir_app_lt by (fold n; lia); exact Hd|].
           rewrite Hcc, next_timepoint_grown by lia. f_equal. lia.
      * apply tiles_snoc. apply tiles_snoc in Htiles.
        destruct Htiles as (b & T1 & T2 & T3 & T4). exists b.
        cbn [range_begin range_end]. repeat split; auto; lia.
    + (* another format: a new series *)
      cbn [rbind Ok]. eexists. split; [reflexivity|].
      split; cbn [current_ifd new_series]; [rewrite Hn, Hw, Hlen; reflexivity|].
      right. exists done, i, (closed ++ [cur]),
        (mkIFDRange currentId n (n + 1)), (make i).
      cbn [prev_ifd current_core seriesIFDRange core new_series].
      rewrite Hn, Hw, Hlen. unfold push_core. rewrite Hc, Hr.
      split; [reflexivity|]. split; [reflexivity|]. split; [reflexivity|].
      split; [now rewrite <- !app_assoc|]. split; [|split; [|split]].
      * apply Forall2_app; [exact Hclosed'|]. constructor; [|constructor].
        exists c. split; [reflexivity|]. split.
        -- apply series_of_app. split; [exact Hf|]. split; [exact Hbe|].
           split; [exact He|]. split; [exact Hh|]. exists first. auto.
        -- exists p, i. rewrite Hend. split; [|split; [|exact E]].
           ++ rewrite dir_app_lt by (fold n; lia). exact Hlast.
           ++ apply dir_app_last.
      * split; [reflexivity|]. cbn [range_begin range_end filename].
        split; [lia|]. split; [lia|]. split.
        -- intros j a b H1 H2. lia.
        -- exists i. split; [apply dir_app_last|].
           replace (n + 1 - n) with 1 by lia. reflexivity.
      * reflexivity.
      * apply tiles_snoc. exists n. cbn [range_begin range_end].
        repeat split; auto; lia.
Qed.

Lemma readIFDs_loop_reading rest : forall done st,
  reading done st -> len (done ++ rest) < 2 ^ 64 ->
  exists st', readIFDs_loop make currentId rest st = Ok st' /\
              reading (done ++ rest) st'.
Proof.
  induction rest as [|i rest IH]; intros done st Hst Hb; cbn [readIFDs_loop].
  - exists st. rewrite app_nil_r. auto.
  - rewrite length_app in Hb. cbn [List.length] in Hb.
    destruct (readIFDs_step_reading done st i Hst ltac:(lia)) as (st1 & E & H1).
    rewrite E. cbn [rbind Ok].
    replace (done ++ i :: rest) with ((done ++ [i]) ++ rest)
      by (rewrite <- app_assoc; reflexivity).
    apply IH; [exact H1|]. rewrite !length_app. cbn [List.length]. lia.
Qed.

(** What [readIFDs] makes of the directories of a file: [core] holds one
    series per new range, each described by [series_of]; the new ranges cut
    the directories into consecutive pieces; and every series but the last
    ends where the format changes. *)
Lemma readIFDs_reads tiff :
  len tiff < 2 ^ 64 ->
  exists core' new,
    readIFDs make currentId tiff ranges0 = Ok (core', ranges0 ++ new) /\
    Forall2 (fun r cs => exists c, cs = [c] /\ series_of tiff r c) new core' /\
    tiles 0 new (len tiff) /\
    (forall closed cur, new = closed ++ [cur] -> Forall (series_end tiff) closed).
Proof.
  intros Hb.
  destruct (readIFDs_loop_reading tiff [] (mkLoop None None 0 [] ranges0))
    as (st & E & Hn & H).
  { split; [reflexivity|]. left. repeat split. }
  { exact Hb. }
  cbn [app] in *. unfold readIFDs. rewrite E. cbn [rbind Ok].
  destruct H as [(-> & Hp & Hc & Hcore & Hr)
                |(front & p & closed & cur & c & Hdone & Hp & Hc & Hr & Hclosed
                  & Hcur & Hend & Htiles)].
  - exists [], []. unfold push_core. rewrite Hc, Hcore, Hr, app_nil_r.
    split; [reflexivity|]. split; [constructor|]. split; [reflexivity|].
    intros closed cur Habs. destruct closed; discriminate Habs.
  - exists (core st ++ [[c]]), (closed ++ [cur]).
    unfold push_core. rewrite Hc, Hr.
    split; [reflexivity|]. split; [|split; [exact Htiles|]].
    + apply Forall2_app.
      * eapply Forall2_impl; [|exact Hclosed].
        intros r cs (c' & -> & H1 & _). exists c'. auto.
      * constructor; [|constructor]. exists c. auto.
    + intros closed0 cur0 Heq. apply app_inj_tail in Heq. destruct Heq as [<- _].
      clear - Hclosed. induction Hclosed as [|r cs rs css (c' & _ & _ & H) _ IH];
        constructor; assumption.
Qed.

Lemma Forall2_In_l {A B} (R : A -> B -> Prop) l l' a :
  Forall2 R l l' -> In a l -> exists b, In b l' /\ R a b.
Proof.
  induction 1 as [|x y l l' Hxy _ IH]; intros Hin; [contradiction|].
  destruct Hin as [<-|Hin].
  - exists y. split; [now left|exact Hxy].
  - destruct (IH Hin) as (b & Hb & Hr). exists b. split; [now right|exact Hr].
Qed.

End MinimalReader.

(** [readIFDs] never fails on a file of fewer than [2^64] directories, and
    cuts them into series: the ranges it appends to [seriesIFDRange] are
    consecutive and not empty, start at directory 0, end at the last
    directory and name the open file, and [core] holds one entry of one
    resolution per range.  The ranges that [seriesIFDRange] held before the
    call stay in front. *)
Theorem readIFDs_ranges_tile
        (make : MinimalTIFFReader.IFD -> MinimalTIFFReader.CoreMetadata)
        (currentId : string) (ranges0 : list MinimalTIFFReader.IFDRange)
        (tiff : list MinimalTIFFReader.IFD)
        (fits : Z.of_nat (List.length tiff) < 2 ^ 64) :
  exists core' new,
    MinimalTIFFReader.readIFDs make currentId tiff ranges0
    = Ok (core', ranges0 ++ new) /\
    List.length core' = List.length new /\
    MinimalTIFFReader.tiles 0 new (Z.of_nat (List.length tiff)) /\
    Forall (fun r => MinimalTIFFReader.filename r = currentId) new /\
    Forall (fun cs => List.length cs = 1%nat) core'.
Proof.
  destruct (readIFDs_reads make currentId ranges0 tiff fits)
    as (core' & new & E & H & T & _).
  exists core', new. split; [exact E|].
  split; [symmetry; exact (Forall2_length H)|]. split; [exact T|].
  clear - H. induction H as [|r cs rs css (c & -> & Hf & _) _ [IH1 IH2]].
  - split; constructor.
  - split; constructor; auto.
Qed.

Lemma readIFDs_ranges_tile_witness :
  exists core' new,
    MinimalTIFFReader.readIFDs plain_core "cells.tif" three_directories []
    = Ok (core', [] ++ new) /\
    List.length core' = List.length new /\
    MinimalTIFFReader.tiles 0 new 3 /\
    Forall (fun r => MinimalTIFFReader.filename r = "cells.tif") new /\
    Forall (fun cs => List.length cs = 1%nat) core'.
Proof.
  apply (readIFDs_ranges_tile plain_core "cells.tif" [] three_directories).
  vm_compute. reflexivity.
Defined.

(** The core metadata that [readIFDs] leaves for a series is that of the
    first directory of its range; when the range holds [n > 1] directories,
    [sizeT] has been incremented [n - 1] times and [imageCount] is [sizeT],
    the other fields being those of the first directory. *)
Theorem readIFDs_series_sizes
        (make : MinimalTIFFReader.IFD -> MinimalTIFFReader.CoreMetadata)
        (currentId : string) (ranges0 : list MinimalTIFFReader.IFDRange)
        (tiff : list MinimalTIFFReader.IFD)
        (fits : Z.of_nat (List.length tiff) < 2 ^ 64) :
  exists core' new,
    MinimalTIFFReader.readIFDs make currentId tiff ranges0
    = Ok (core', ranges0 ++ new) /\
    Forall2
      (fun r cs =>
         exists first c,
           MinimalTIFFReader.dir tiff (MinimalTIFFReader.range_begin r)
           = Some first /\
           cs = [c] /\
           let n := MinimalTIFFReader.range_end r
                    - MinimalTIFFReader.range_begin r in
           (n = 1 -> c = make first) /\
           (1 < n ->
            MinimalTIFFReader.sizeT c
            = (MinimalTIFFReader.sizeT (make first) + (n - 1)) mod 2 ^ 64 /\
            MinimalTIFFReader.imageCount c = MinimalTIFFReader.sizeT c /\
            MinimalTIFFReader.sizeX c = MinimalTIFFReader.sizeX (make first) /\
            MinimalTIFFReader.sizeY c = MinimalTIFFReader.sizeY (make first) /\
            MinimalTIFFReader.sizeZ c = MinimalTIFFReader.sizeZ (make first) /\
            MinimalTIFFReader.sizeC c = MinimalTIFFReader.sizeC (make first) /\
            MinimalTIFFReader.pixelType c
            = MinimalTIFFReader.pixelType (make first)))
      new core'.
Proof.
  destruct (readIFDs_reads make currentId ranges0 tiff fits)
    as (core' & new & E & H & _).
  exists core', new. split; [exact E|].
  eapply Forall2_impl; [|exact H].
  intros r cs (c & -> & _ & _ & _ & _ & first & Hd & ->).
  exists first, (MinimalTIFFReader.grown
                   (make first)
                   (MinimalTIFFReader.range_end r - MinimalTIFFReader.range_begin r)).
  split; [exact Hd|]. split; [reflexivity|]. cbn zeta.
  unfold MinimalTIFFReader.grown. split.
  - intros ->. reflexivity.
  - intros Hn.
    destruct (Z.leb_spec (MinimalTIFFReader.range_end r
                          - MinimalTIFFReader.range_begin r) 1); [lia|].
    repeat split.
Qed.

Lemma readIFDs_series_sizes_witness :
  exists core' new,
    MinimalTIFFReader.readIFDs plain_core "cells.tif" three_directories []
    = Ok (core', [] ++ new) /\
    Forall2
      (fun r cs =>
         exists first c,
           MinimalTIFFReader.dir three_directories
                                 (MinimalTIFFReader.range_begin r)
           = Some first /\
           cs = [c] /\
           let n := MinimalTIFFReader.range_end r
                    - MinimalTIFFReader.range_begin r in
           (n = 1 -> c = plain_core first) /\
           (1 < n ->
            MinimalTIFFReader.sizeT c
            = (MinimalTIFFReader.sizeT (plain_core first) + (n - 1)) mod 2 ^ 64 /\
            MinimalTIFFReader.imageCount c = MinimalTIFFReader.sizeT c /\
            MinimalTIFFReader.sizeX c = MinimalTIFFReader.sizeX (plain_core first) /\
            MinimalTIFFReader.sizeY c = MinimalTIFFReader.sizeY (plain_core first) /\
            MinimalTIFFReader.sizeZ c = MinimalTIFFReader.sizeZ (plain_core first) /\
            MinimalTIFFReader.sizeC c = MinimalTIFFReader.sizeC (plain_core first) /\
            MinimalTIFFReader.pixelType c
            = MinimalTIFFReader.pixelType (plain_core first)))
      new core'.
Proof.
  apply (readIFDs_series_sizes plain_core "cells.tif" [] three_directories).
  vm_compute. reflexivity.
Defined.

(** Two neighbouring directories of the file end up in the same series
    exactly when [compare_ifd] finds them equal in width, height, pixel
    type, samples per pixel, planar configuration and photometric
    interpretation. *)
Theorem readIFDs_groups_equal_neighbours
        (make : MinimalTIFFReader.IFD -> MinimalTIFFReader.CoreMetadata)
        (currentId : string) (ranges0 : list MinimalTIFFReader.IFDRange)
        (tiff : list MinimalTIFFReader.IFD)
        (fits : Z.of_nat (List.length tiff) < 2 ^ 64) :
  exists core' new,
    MinimalTIFFReader.readIFDs make currentId tiff ranges0
    = Ok (core', ranges0 ++ new) /\
    forall j a b,
      0 <= j ->
      MinimalTIFFReader.dir tiff j = Some a ->
      MinimalTIFFReader.dir tiff (j + 1) = Some b ->
      (MinimalTIFFReader.compare_ifd a b = true <->
       exists r, In r new /\ MinimalTIFFReader.range_begin r <= j /\
                 j + 1 < MinimalTIFFReader.range_end r).
Proof.
  destruct (readIFDs_reads make currentId ranges0 tiff fits)
    as (core' & new & E & H & T & L).
  exists core', new. split; [exact E|].
  intros j a b Hj Ha Hb. split.
  - intros Hc.
    pose proof (dir_Some tiff (j + 1) b ltac:(lia) Hb) as Hlen.
    destruct (tiles_cover new 0 _ j T ltac:(lia)) as (r & Hin & Hr).
    exists r. split; [exact Hin|]. split; [lia|].
    destruct (Z.lt_ge_cases (j + 1) (MinimalTIFFReader.range_end r)) as [|Hge];
      [assumption|exfalso].
    assert (new <> []) as Hne by (intros ->; contradiction).
    destruct (exists_last Hne) as (closed & cur & ->).
    apply tiles_snoc in T. destruct T as (b0 & _ & _ & _ & Hend).
    apply in_app_or in Hin. destruct Hin as [Hin|[<-|[]]]; [|lia].
    pose proof (L closed cur eq_refl) as Hends.
    rewrite Forall_forall in Hends.
    destruct (Hends r Hin) as (a' & b' & Ha' & Hb' & Hc').
    replace (MinimalTIFFReader.range_end r) with (j + 1) in Ha', Hb' by lia.
    replace (j + 1 - 1) with j in Ha' by lia.
    congruence.
  - intros (r & Hin & H1 & H2).
    destruct (Forall2_In_l _ _ _ _ H Hin)
      as (cs & _ & c & _ & _ & _ & _ & Hh & _).
    exact (Hh j a b H1 H2 Ha Hb).
Qed.

Lemma readIFDs_groups_equal_neighbours_witness :
  exists core' new,
    MinimalTIFFReader.readIFDs plain_core "cells.tif" three_directories []
    = Ok (core', [] ++ new) /\
    forall j a b,
      0 <= j ->
      MinimalTIFFReader.dir three_directories j = Some a ->
      MinimalTIFFReader.dir three_directories (j + 1) = Some b ->
      (MinimalTIFFReader.compare_ifd a b = true <->
       exists r, In r new /\ MinimalTIFFReader.range_begin r <= j /\
                 j + 1 < MinimalTIFFReader.range_end r).
Proof.
  apply (readIFDs_groups_equal_neighbours plain_core "cells.tif" []
                                          three_directories).
  vm_compute. reflexivity.
Defined.

(** The three directories make two series: directories 0 and 1 with two
    timepoints, and directory 2 on its own. *)
Example readIFDs_three_directories :
  MinimalTIFFReader.readIFDs plain_core "cells.tif" three_directories []
  = Ok ([[MinimalTIFFReader.mkCore 64 64 1 2 [1] UINT8 2];
         [MinimalTIFFReader.mkCore 32 32 1 1 [1] UINT8 1]],
        [MinimalTIFFReader.mkIFDRange "cells.tif" 0 2;
         MinimalTIFFReader.mkIFDRange "cells.tif" 2 3]).
Proof. reflexivity. Qed.

(** ** The OME-TIFF reader: index starts and their compensation *)

Section ReaderMinima.

Import OMETIFFReader.

(** The running minimum over a list of values. *)
Lemma update_start_fold vs : forall m,
  exists m',
    fold_left update_start vs (Some m) = Some m' /\
    m' <= m /\ (forall v, In v vs -> m' <= v) /\ (m' = m \/ In m' vs).
Proof.
  induction vs as [|v vs IH]; intros m; cbn [fold_left update_start].
  - exists m. repeat split; [lia|intros ? []|now left].
  - destruct (IH (Z.min m v)) as (m' & E & H1 & H2 & H3).
    exists m'. split; [exact E|]. split; [lia|]. split.
    + intros v' [<-|Hin]; [lia|now apply H2].
    + destruct H3 as [->|Hin]; [|right; now right].
      destruct (Z.min_spec m v) as [[_ ->]|[_ ->]]; [now left|right; now left].
Qed.

Lemma update_start_fold_None vs :
  vs <> [] ->
  exists m,
    fold_left update_start vs None = Some m /\
    (forall v, In v vs -> m <= v) /\ In m vs.
Proof.
  destruct vs as [|v vs]; [contradiction|]. intros _.
  cbn [fold_left update_start].
  destruct (update_start_fold vs v) as (m & E & H1 & H2 & H3).
  exists m. split; [exact E|]. split.
  - intros v' [<-|Hin]; [exact H1|now apply H2].
  - destruct H3 as [->|Hin]; [now left|now right].
Qed.

Variable meta : Metadata.MetadataRetrieve.
Variable series : Z.

(** Each start of the pre-scan is the running minimum of the values read for
    it, whatever the other two are. *)
Lemma seriesIndexStart_fold tds : forall st,
  cIndexStart (fold_left (seriesIndexStart_step meta series) tds st)
  = fold_left update_start
      (map (fun td => try_assign (Metadata.getTiffDataFirstC meta series td) 0) tds)
      (cIndexStart st) /\
  tIndexStart (fold_left (seriesIndexStart_step meta series) tds st)
  = fold_left update_start
      (map (fun td => try_assign (Metadata.getTiffDataFirstT meta series td) 0) tds)
      (tIndexStart st).
Proof.
  induction tds as [|td tds IH]; intros st; cbn [fold_left map].
  - split; reflexivity.
  - destruct (IH (seriesIndexStart_step meta series st td)) as [-> ->].
    split; reflexivity.
Qed.

Variable im : Metadata.Image.
Hypothesis image : Metadata.getImage meta series = Ok im.

Lemma getTiffData_nth k d :
  nth_error (Metadata.TiffDataList im) k = Some d ->
  Metadata.getTiffData meta series (Z.of_nat k) = Ok d.
Proof.
  intros H. unfold Metadata.getTiffData. rewrite image. cbn [rbind Ok].
  unfold at_. destruct (Z.ltb_spec (Z.of_nat k) 0); [lia|].
  now rewrite Nat2Z.id, H.
Qed.

Lemma map_seq_nth {A B} (f : Z -> B) (g : A -> B) (l : list A) : forall a,
  (forall k d, nth_error l k = Some d -> f (Z.of_nat (a + k)) = g d) ->
  map f (map Z.of_nat (seq a (List.length l))) = map g l.
Proof.
  induction l as [|x l IH]; intros a H; cbn [List.length seq map]; [reflexivity|].
  f_equal.
  - rewrite <- (H 0%nat x eq_refl). f_equal. lia.
  - apply IH. intros k d Hk. rewrite <- (H (S k) d Hk). f_equal. lia.
Qed.

Lemma seriesIndexStart_values :
  exists st,
    seriesIndexStart meta series (mkIndexStart None None None) = Ok st /\
    cIndexStart st
    = fold_left update_start
        (map (fun d => first_or_zero (Metadata.FirstC d)) (Metadata.TiffDataList im))
        None /\
    tIndexStart st
    = fold_left update_start
        (map (fun d => first_or_zero (Metadata.FirstT d)) (Metadata.TiffDataList im))
        None.
Proof.
  unfold seriesIndexStart, Metadata.getTiffDataCount. rewrite image.
  cbn [rbind Ok]. rewrite Nat2Z.id. eexists. split; [reflexivity|].
  destruct (seriesIndexStart_fold
              (map Z.of_nat (seq 0 (List.length (Metadata.TiffDataList im))))
              (mkIndexStart None None None)) as [-> ->].
  cbn [cIndexStart tIndexStart].
  split; f_equal; apply map_seq_nth; intros k d Hk; cbn [Nat.add];
    unfold Metadata.getTiffDataFirstC, Metadata.getTiffDataFirstT;
    rewrite (getTiffData_nth k d Hk); cbn [rbind Ok];
    [destruct (Metadata.FirstC d)|destruct (Metadata.FirstT d)]; reflexivity.
Qed.

End ReaderMinima.

(** For a series of the store, the pre-scan [seriesIndexStart] leaves the C
    and T starts unset when the series has no TiffData, and otherwise finds
    the smallest FirstC and the smallest FirstT of its TiffData elements, a
    missing attribute counting as 0; the compensation of [findTiffData] then
    takes every FirstC and FirstT down by that minimum, so that the smallest
    compensated C and T indexes of the series are 0. *)
Theorem seriesIndexStart_minimum
        (meta : Metadata.MetadataRetrieve) (series : Z) (im : Metadata.Image)
        (image : Metadata.getImage meta series = Ok im) :
  let firstC d := OMETIFFReader.first_or_zero (Metadata.FirstC d) in
  let firstT d := OMETIFFReader.first_or_zero (Metadata.FirstT d) in
  exists st,
    OMETIFFReader.seriesIndexStart meta series
      (OMETIFFReader.mkIndexStart None None None) = Ok st /\
    (Metadata.TiffDataList im = [] ->
     OMETIFFReader.cIndexStart st = None /\ OMETIFFReader.tIndexStart st = None) /\
    (Metadata.TiffDataList im <> [] ->
     exists c t,
       OMETIFFReader.cIndexStart st = Some c /\
       OMETIFFReader.tIndexStart st = Some t /\
       (exists d, In d (Metadata.TiffDataList im) /\ firstC d = c) /\
       (exists d, In d (Metadata.TiffDataList im) /\ firstT d = t) /\
       forall d,
         In d (Metadata.TiffDataList im) ->
         c <= firstC d /\ t <= firstT d /\
         OMETIFFReader.subtract_start (OMETIFFReader.cIndexStart st) (firstC d)
         = firstC d - c /\
         OMETIFFReader.subtract_start (OMETIFFReader.tIndexStart st) (firstT d)
         = firstT d - t).
Proof.
  intros firstC firstT.
  destruct (seriesIndexStart_values meta series im image) as (st & E & Hc & Ht).
  exists st. split; [exact E|]. split.
  - intros Hnil. rewrite Hnil in Hc, Ht. auto.
  - intros Hne.
    destruct (update_start_fold_None
                (map firstC (Metadata.TiffDataList im))) as (c & Ec & Lc & Ic).
    { destruct (Metadata.TiffDataList im); [contradiction|discriminate]. }
    destruct (update_start_fold_None
                (map firstT (Metadata.TiffDataList im))) as (t & Et & Lt & It).
    { destruct (Metadata.TiffDataList im); [contradiction|discriminate]. }
    exists c, t. subst firstC firstT. cbn beta in *.
    rewrite Hc, Ht, Ec, Et.
    split; [reflexivity|]. split; [reflexivity|].
    apply in_map_iff in Ic. apply in_map_iff in It.
    destruct Ic as (dc & Hdc & Idc). destruct It as (dt & Hdt & Idt).
    split; [exists dc; auto|]. split; [exists dt; auto|].
    intros d Hd.
    assert (c <= OMETIFFReader.first_or_zero (Metadata.FirstC d)) as H1
        by (apply Lc, in_map_iff; eauto).
    assert (t <= OMETIFFReader.first_or_zero (Metadata.FirstT d)) as H2
        by (apply Lt, in_map_iff; eauto).
    split; [exact H1|]. split; [exact H2|].
    unfold OMETIFFReader.subtract_start.
    destruct (Z.leb_spec c (OMETIFFReader.first_or_zero (Metadata.FirstC d)));
      [|lia].
    destruct (Z.leb_spec t (OMETIFFReader.first_or_zero (Metadata.FirstT d)));
      [|lia].
    split; reflexivity.
Qed.

Lemma seriesIndexStart_minimum_witness :
  exists st,
    OMETIFFReader.seriesIndexStart c_from_one 0
      (OMETIFFReader.mkIndexStart None None None) = Ok st /\
    exists c t,
      OMETIFFReader.cIndexStart st = Some c /\
      OMETIFFReader.tIndexStart st = Some t /\
      forall d,
        In d (Metadata.TiffDataList c_from_one_image) ->
        OMETIFFReader.subtract_start
          (OMETIFFReader.cIndexStart st)
          (OMETIFFReader.first_or_zero (Metadata.FirstC d))
        = OMETIFFReader.first_or_zero (Metadata.FirstC d) - c.
Proof.
  destruct (seriesIndexStart_minimum c_from_one 0 c_from_one_image eq_refl)
    as (st & E & _ & H).
  exists st. split; [exact E|].
  destruct H as (c & t & Hc & Ht & _ & _ & Hall); [discriminate|].
  exists c, t. split; [exact Hc|]. split; [exact Ht|].
  intros d Hd. exact (proj1 (proj2 (proj2 (Hall d Hd)))).
Defined.

(** On the series numbered from 1 on C, the detected C start is 1. *)
Example seriesIndexStart_c_start :
  OMETIFFReader.seriesIndexStart c_from_one 0
    (OMETIFFReader.mkIndexStart None None None)
  = Ok (OMETIFFReader.mkIndexStart (Some 1) (Some 0) (Some 1)).
Proof. reflexivity. Qed.

(** ** The OME-TIFF reader: what [findTiffData] accepts *)

Section ReaderAccepts.

Import OMETIFFReader.

Variable meta : Metadata.MetadataRetrieve.
Variable series : Z.


Variable st : IndexStart.
Variable order : DimensionOrder.
Variables sizeZ effSizeC sizeT num : Z.



End ReaderAccepts.



(** ** The OME-TIFF reader: what the fix-ups achieve *)

(** When [fixDimensions] finds more planes by dimensions than by count in a
    series without multi-sample channels, the dimensions it leaves multiply
    to the image count exactly, the image count itself being untouched; so
    a second run finds nothing to correct.  Proved for non-negative extents
    whose products fit [size_t]. *)
Theorem fixDimensions_restores_count
        (cm : OMETIFFReader.CoreMetadata)
        (sizeZ_range : 0 <= OMETIFFReader.sizeZ cm)
        (sizeT_range : 0 <= OMETIFFReader.sizeT cm)
        (sizeC_range : Forall (fun c => 0 <= c) (OMETIFFReader.sizeC cm))
        (count_range : 0 <= OMETIFFReader.imageCount cm)
        (sum_fits : sum (OMETIFFReader.sizeC cm) < 2 ^ 64)
        (product_fits : OMETIFFReader.sizeZ cm * OMETIFFReader.sizeT cm
                        * sum (OMETIFFReader.sizeC cm) < 2 ^ 64)
        (guard : OMETIFFReader.fix_guard cm) :
  let cm' := OMETIFFReader.fixDimensions_core cm in
  OMETIFFReader.imageCount cm' = OMETIFFReader.imageCount cm /\
  OMETIFFReader.sizeZ cm' * OMETIFFReader.sizeT cm' * sum (OMETIFFReader.sizeC cm')
  = OMETIFFReader.imageCount cm /\
  ~ OMETIFFReader.fix_guard cm' /\
  OMETIFFReader.fixDimensions_core cm' = cm'.
Proof.
  intros cm'.
  assert (OMETIFFReader.imageCount cm' = OMETIFFReader.imageCount cm /\
          OMETIFFReader.sizeZ cm' * OMETIFFReader.sizeT cm'
          * sum (OMETIFFReader.sizeC cm') = OMETIFFReader.imageCount cm /\
          0 <= OMETIFFReader.sizeZ cm' /\ 0 <= OMETIFFReader.sizeT cm' /\
          Forall (fun c => 0 <= c) (OMETIFFReader.sizeC cm') /\
          sum (OMETIFFReader.sizeC cm') < 2 ^ 64) as (Hi & Hp & Hz & Ht & Hc & Hs).
  { subst cm'.
    rewrite (fixDimensions_core_guarded cm sizeZ_range sizeT_range sizeC_range
                                        sum_fits product_fits guard).
    destruct guard as [G1 G2].
    destruct (Z.eqb_spec (OMETIFFReader.sizeZ cm) (OMETIFFReader.imageCount cm));
      [|destruct (Z.eqb_spec (OMETIFFReader.sizeT cm) (OMETIFFReader.imageCount cm));
        [|destruct (Z.eqb_spec (sum (OMETIFFReader.sizeC cm))
                               (OMETIFFReader.imageCount cm))]];
      cbn [OMETIFFReader.set_dims OMETIFFReader.imageCount OMETIFFReader.sizeZ
           OMETIFFReader.sizeT OMETIFFReader.sizeC sum];
      repeat split; try lia; try assumption;
        try (repeat constructor; lia); reflexivity. }
  split; [exact Hi|]. split; [exact Hp|].
  assert (~ OMETIFFReader.fix_guard cm') as Hg
      by (intros [G _]; rewrite Hi in G; lia).
  split; [exact Hg|].
  apply fixDimensions_core_unguarded; try assumption.
  destruct guard as [G _]. rewrite Hp. lia.
Qed.

Lemma fixDimensions_restores_count_witness :
  let cm' := OMETIFFReader.fixDimensions_core five_sections in
  OMETIFFReader.imageCount cm' = 5 /\
  OMETIFFReader.sizeZ cm' * OMETIFFReader.sizeT cm' * sum (OMETIFFReader.sizeC cm')
  = 5 /\
  ~ OMETIFFReader.fix_guard cm' /\
  OMETIFFReader.fixDimensions_core cm' = cm'.
Proof.
  apply (fixDimensions_restores_count five_sections).
  - cbn; lia.
  - cbn; lia.
  - repeat constructor; lia.
  - cbn; lia.
  - reflexivity.
  - reflexivity.
  - split; reflexivity.
Defined.

Section ReaderCoreLoops.

Import OMETIFFReader.

Lemma length_replace_nth {A} (l : list A) : forall n a,
  List.length (replace_nth n l a) = List.length l.
Proof.
  induction l as [|x l IH]; intros n a; [destruct n; reflexivity|].
  destruct n as [|n]; cbn [replace_nth List.length]; [reflexivity|].
  now rewrite IH.
Qed.

Lemma nth_error_replace_nth_other {A} (l : list A) : forall n m a,
  n <> m -> nth_error (replace_nth n l a) m = nth_error l m.
Proof.
  induction l as [|x l IH]; intros n m a Hne; [destruct n; reflexivity|].
  destruct n as [|n], m as [|m]; cbn [replace_nth nth_error];
    try reflexivity; try contradiction.
  apply IH. congruence.
Qed.

Lemma at_Ok_nth {A} (v : list A) i a :
  at_ v i = Ok a -> 0 <= i /\ nth_error v (Z.to_nat i) = Some a.
Proof.
  unfold at_. destruct (Z.ltb_spec i 0); [discriminate|].
  destruct (nth_error v (Z.to_nat i)); [|discriminate].
  intros [= ->]. split; [lia|reflexivity].
Qed.

Lemma at_nth {A} (v : list A) i a :
  0 <= i -> nth_error v (Z.to_nat i) = Some a -> at_ v i = Ok a.
Proof.
  intros H0 H. unfold at_. destruct (Z.ltb_spec i 0); [lia|]. now rewrite H.
Qed.

Lemma at_replace_nth_other {A} (v : list A) s s' a :
  0 <= s -> s' <> s -> at_ (replace_nth (Z.to_nat s) v a) s' = at_ v s'.
Proof.
  intros H0 Hne. unfold at_. destruct (Z.ltb_spec s' 0); [reflexivity|].
  rewrite nth_error_replace_nth_other by lia. reflexivity.
Qed.

Lemma getCoreMetadata_Ok core s r cm :
  getCoreMetadata core s r = Ok cm ->
  exists row, at_ core s = Ok row /\ at_ row r = Ok (Some cm).
Proof.
  unfold getCoreMetadata.
  destruct (at_ core s) as [e|row] eqn:Er; cbn [rbind]; [discriminate|].
  destruct (at_ row r) as [e|[c|]] eqn:Ec; cbn [rbind]; unfold Ok, Throw;
    try discriminate.
  intros [= ->]. exists row. split; [reflexivity|exact Ec].
Qed.

(** Running a body on the core metadata of a series changes that entry of
    [core] and no other. *)
Lemma with_core_Ok s body core u core' :
  with_core s body core = (Ok u, core') ->
  exists cm cm',
    getCoreMetadata core s 0 = Ok cm /\ body cm = (Ok u, cm') /\
    getCoreMetadata core' s 0 = Ok cm' /\
    List.length core' = List.length core /\
    forall s', s' <> s -> getCoreMetadata core' s' 0 = getCoreMetadata core s' 0.
Proof.
  unfold with_core.
  destruct (getCoreMetadata core s 0) as [e|cm] eqn:Eg; [discriminate|].
  destruct (body cm) as [r cm'] eqn:Eb. intros [= -> <-].
  exists cm, cm'. split; [reflexivity|]. split; [exact Eb|].
  destruct (getCoreMetadata_Ok _ _ _ _ Eg) as (row & Hrow & Hcm).
  destruct (at_Ok_nth _ _ _ Hrow) as (Hs & Hn).
  pose proof (at_Ok_range _ _ _ Hrow) as Rs.
  pose proof (at_Ok_range _ _ _ Hcm) as Rr.
  rewrite (nth_error_nth _ _ [] Hn).
  split; [|split].
  - unfold getCoreMetadata.
    rewrite (at_nth _ s (replace_nth 0 row (Some cm')) Hs)
      by (apply nth_error_replace_nth; lia).
    cbn [rbind Ok].
    rewrite (at_nth _ 0 (Some cm') ltac:(lia))
      by (apply nth_error_replace_nth; lia).
    reflexivity.
  - apply length_replace_nth.
  - intros s' Hne. unfold getCoreMetadata.
    now rewrite at_replace_nth_other.
Qed.

Lemma for_each_with_core (b : Z -> M CoreMetadata unit) n : forall a core core',
  for_each n a (fun s => with_core s (b s)) core = (Ok tt, core') ->
  List.length core' = List.length core /\
  (forall s, a <= s < a + Z.of_nat n ->
             exists cm cm',
               getCoreMetadata core s 0 = Ok cm /\ b s cm = (Ok tt, cm') /\
               getCoreMetadata core' s 0 = Ok cm') /\
  (forall s, ~ a <= s < a + Z.of_nat n ->
             getCoreMetadata core' s 0 = getCoreMetadata core s 0).
Proof.
  induction n as [|n IH]; intros a core core' H; cbn [for_each] in H.
  - injection H as <-. split; [reflexivity|]. split; [intros s Hs; lia|reflexivity].
  - apply mbind_Ok in H. destruct H as (u & c1 & Hw & H). destruct u.
    apply with_core_Ok in Hw.
    destruct Hw as (cm & cm' & Hg & Hb & Hg' & Hl & Ho).
    destruct (IH _ _ _ H) as (Hl1 & Hin & Hout).
    split; [congruence|]. split.
    + intros s Hs. destruct (Z.eq_dec s a) as [->|Hne].
      * exists cm, cm'. split; [exact Hg|]. split; [exact Hb|].
        rewrite Hout by lia. exact Hg'.
      * destruct (Hin s ltac:(lia)) as (c & c' & H1 & H2 & H3).
        exists c, c'. rewrite <- (Ho s Hne). auto.
    + intros s Hs. rewrite Hout by lia. apply Ho. lia.
Qed.

(** What the body of [fixImageCounts] does to the core metadata of one
    series. *)
Lemma fixImageCounts_core_Ok cm cm' :
  fixImageCounts_core cm = (Ok tt, cm') ->
  imageCount cm' = imageCount cm /\
  (imageCount cm = 1 ->
   sizeZ cm' = 1 /\ sizeT cm' = 1 /\
   exists samples, sizeC cm' = [samples] /\ nth_error (sizeC cm) 0 = Some samples) /\
  (imageCount cm <> 1 -> cm' = cm).
Proof.
  unfold fixImageCounts_core.
  destruct (Z.eqb_spec (imageCount cm) 1) as [H1|H1]; cbn [andb].
  - destruct (Z.eqb_spec (sizeZ cm) 1) as [Hz|Hz];
      destruct (Z.eqb_spec (sizeT cm) 1) as [Ht|Ht];
      destruct (Z.eqb_spec (Z.of_nat (List.length (sizeC cm))) 1) as [Hc|Hc];
      cbn [negb orb].
    1: { intros [= <-]. split; [reflexivity|]. split; [|contradiction].
         intros _. split; [exact Hz|]. split; [exact Ht|].
         destruct (sizeC cm) as [|x [|y l]]; cbn [List.length] in Hc; try lia.
         exists x. split; reflexivity. }
    all: cbn [set_dims sizeC];
      destruct (at_ (sizeC cm) 0) as [e|samples] eqn:Ea; [discriminate|];
      intros [= <-]; cbn [set_dims imageCount sizeZ sizeT sizeC];
      (split; [reflexivity|]); (split; [|contradiction]);
      intros _; (split; [reflexivity|]); (split; [reflexivity|]);
      exists samples; (split; [reflexivity|]);
      exact (proj2 (at_Ok_nth _ _ _ Ea)).
  - intros [= <-]. split; [reflexivity|]. split; [contradiction|reflexivity].
Qed.


End ReaderCoreLoops.

(** After [fixImageCounts], every series that holds one image has
    [sizeZ = sizeT = 1] and a single channel, which keeps the samples of the
    first channel it had; the image count of a series never changes, and a
    series with another image count is left as it was.  For a single image
    without any channel the correction itself fails, on [sizeC.at(0)]. *)
Theorem fixImageCounts_single_image
        (core core' : OMETIFFReader.Core)
        (run : OMETIFFReader.fixImageCounts core = (Ok tt, core')) :
  List.length core' = List.length core /\
  (forall s cm',
      OMETIFFReader.getCoreMetadata core' s 0 = Ok cm' ->
      exists cm,
        OMETIFFReader.getCoreMetadata core s 0 = Ok cm /\
        OMETIFFReader.imageCount cm' = OMETIFFReader.imageCount cm /\
        (OMETIFFReader.imageCount cm = 1 ->
         OMETIFFReader.sizeZ cm' = 1 /\ OMETIFFReader.sizeT cm' = 1 /\
         exists samples,
           OMETIFFReader.sizeC cm' = [samples] /\
           nth_error (OMETIFFReader.sizeC cm) 0 = Some samples) /\
        (OMETIFFReader.imageCount cm <> 1 -> cm' = cm)) /\
  (forall cm,
      OMETIFFReader.imageCount cm = 1 -> OMETIFFReader.sizeC cm = [] ->
      OMETIFFReader.fixImageCounts_core cm
      = (Throw (out_of_range "vector::at"), OMETIFFReader.set_dims cm 1 1 [])).
Proof.
  unfold OMETIFFReader.fixImageCounts in run.
  apply for_each_with_core in run. destruct run as (Hl & Hin & _).
  split; [exact Hl|]. split.
  - intros s cm' Hg.
    destruct (getCoreMetadata_Ok _ _ _ _ Hg) as (row & Hrow & _).
    pose proof (at_Ok_range _ _ _ Hrow) as R.
    destruct (Hin s ltac:(lia)) as (cm & cm1 & H1 & H2 & H3).
    assert (cm1 = cm') as ->
        by (rewrite Hg in H3; unfold Ok in H3; congruence).
    exists cm. split; [exact H1|]. exact (fixImageCounts_core_Ok _ _ H2).
  - intros cm H1 Hc. unfold OMETIFFReader.fixImageCounts_core.
    rewrite H1, Hc. cbn [List.length Z.of_nat Z.eqb negb orb andb].
    rewrite !orb_true_r. reflexivity.
Qed.

Lemma fixImageCounts_single_image_witness :
  exists cm,
    OMETIFFReader.getCoreMetadata
      [[Some (OMETIFFReader.mkCore 16 16 3 2 [3] 1 XYZCT [])]] 0 0 = Ok cm /\
    (OMETIFFReader.imageCount cm = 1 ->
     exists samples,
       [3] = [samples] /\ nth_error (OMETIFFReader.sizeC cm) 0 = Some samples).
Proof.
  destruct (proj1 (proj2 (fixImageCounts_single_image
                            [[Some (OMETIFFReader.mkCore 16 16 3 2 [3] 1 XYZCT [])]]
                            [[Some (OMETIFFReader.mkCore 16 16 1 1 [3] 1 XYZCT [])]]
                            eq_refl))
                  0 (OMETIFFReader.mkCore 16 16 1 1 [3] 1 XYZCT []) eq_refl)
    as (cm & Hcm & _ & Hone & _).
  exists cm. split; [exact Hcm|]. intro H1.
  destruct (Hone H1) as (_ & _ & Hs). exact Hs.
Defined.

(** A single RGB image declared with three Z sections and two timepoints is
    brought down to one plane of three samples. *)
Example fixImageCounts_rgb :
  OMETIFFReader.fixImageCounts
    [[Some (OMETIFFReader.mkCore 16 16 3 2 [3] 1 XYZCT [])]]
  = (Ok tt, [[Some (OMETIFFReader.mkCore 16 16 1 1 [3] 1 XYZCT [])]]).
Proof. reflexivity. Qed.



(** The samples of the second channel are not read: a grey channel followed
    by an RGB channel gives two channels of one sample. *)
Example checkChannelSamplesPerPixel_reads_channel0 :
  let meta :=
    [Metadata.mkImage 16 16 1 1 4 XYZCT
       [Metadata.mkChannel (Some 1) None; Metadata.mkChannel (Some 3) None] []] in
  OMETIFFReader.checkChannelSamplesPerPixel
    meta [[Some (OMETIFFReader.mkCore 0 0 0 0 [] 0 XYZCT [])]]
  = (Ok tt, [[Some (OMETIFFReader.mkCore 0 0 0 0 [1; 1] 0 XYZCT [])]]).
Proof. reflexivity. Qed.

(** ** The OME-TIFF reader: the sanity check on the ImageDescription text *)

Section ReaderSanity.

Import OMETIFFReader.

Local Abbreviation blanks ws := (forallb blank (list_ascii_of_string ws) = true).

Lemma find_last_not_of_None s : forall pos,
  find_last_not_of s pos = None <-> blanks s.
Proof.
  induction s as [|c s IH]; intros pos;
    cbn [find_last_not_of list_ascii_of_string forallb].
  - tauto.
  - destruct (find_last_not_of s (S pos)) as [l|] eqn:E.
    + split; [discriminate|]. intros H. apply andb_true_iff in H.
      destruct H as [_ H]. apply (IH (S pos)) in H. congruence.
    + rewrite (proj1 (IH (S pos)) E), andb_true_r.
      destruct (blank c); split; congruence.
Qed.

Lemma find_last_not_of_Some s : forall pos l,
  find_last_not_of s pos = Some l ->
  exists pre c ws,
    s = (pre ++ String c ws)%string /\ blank c = false /\ blanks ws /\
    l = (pos + String.length pre)%nat.
Proof.
  induction s as [|c s IH]; intros pos l; cbn [find_last_not_of]; [discriminate|].
  destruct (find_last_not_of s (S pos)) as [l'|] eqn:E.
  - intros [= <-]. destruct (IH _ _ E) as (pre & c' & ws & -> & Hc & Hw & ->).
    exists (String c pre), c', ws. cbn [String.append String.length].
    repeat split; auto; lia.
  - destruct (blank c) eqn:Hc; [discriminate|]. intros [= <-].
    exists EmptyString, c, s. cbn [String.append String.length].
    repeat split; auto; try lia. now apply (find_last_not_of_None s (S pos)).
Qed.

Lemma find_last_not_of_app pre c ws : forall pos,
  blank c = false -> blanks ws ->
  find_last_not_of (pre ++ String c ws) pos = Some (pos + String.length pre)%nat.
Proof.
  induction pre as [|c0 pre IH]; intros pos Hc Hw;
    cbn [String.append find_last_not_of String.length].
  - rewrite (proj2 (find_last_not_of_None ws (S pos)) Hw), Hc. f_equal. lia.
  - rewrite IH by assumption. f_equal. lia.
Qed.

Lemma get_app_length pre c ws :
  String.get (String.length pre) (pre ++ String c ws) = Some c.
Proof. induction pre as [|c0 pre IH]; cbn; [reflexivity|exact IH]. Qed.

Lemma code_inj c n :
  code c = Z.of_nat n -> c = Ascii.ascii_of_nat n.
Proof.
  unfold code. intros H. apply Nat2Z.inj in H. rewrite <- H.
  symmetry. apply Ascii.ascii_nat_embedding.
Qed.

End ReaderSanity.

(** [cacheMetadata] takes the text of an ImageDescription for a candidate
    XML document exactly when it starts with '<' and its last character
    other than space, tab, line feed, vertical tab, form feed and carriage
    return is a later '>': white space is allowed after the document, and
    nothing, not even white space, before it. *)
Theorem badly_formed_accepts (omexml : string) :
  OMETIFFReader.badly_formed omexml = false <->
  exists mid ws,
    omexml = ("<" ++ mid ++ ">" ++ ws)%string /\
    forallb OMETIFFReader.blank (list_ascii_of_string ws) = true.
Proof.
  unfold OMETIFFReader.badly_formed. split.
  - intros H. apply orb_false_iff in H. destruct H as [H H3].
    apply orb_false_iff in H. destruct H as [H1 H2].
    destruct omexml as [|c0 rest]; [discriminate H1|].
    cbn [String.get] in H2. apply negb_false_iff, Z.eqb_eq in H2.
    apply (code_inj c0 60) in H2. subst c0.
    destruct (OMETIFFReader.find_last_not_of _ 0) as [l|] eqn:E;
      [|discriminate H3].
    destruct (find_last_not_of_Some _ _ _ E) as (pre & c & ws & Hs & Hc & Hw & ->).
    rewrite Hs in H3. cbn [Nat.add] in H3. rewrite get_app_length in H3.
    apply negb_false_iff, Z.eqb_eq in H3.
    apply (code_inj c 62) in H3. subst c.
    destruct pre as [|p0 pre]; cbn [String.append] in Hs; [discriminate Hs|].
    injection Hs as <- ->. exists pre, ws. split; [reflexivity|exact Hw].
  - intros (mid & ws & -> & Hw).
    assert (("<" ++ mid ++ ">" ++ ws)%string
            = (String (Ascii.ascii_of_nat 60) mid
               ++ String (Ascii.ascii_of_nat 62) ws)%string) as -> by reflexivity.
    rewrite find_last_not_of_app by (reflexivity || exact Hw).
    cbn [Nat.add]. rewrite get_app_length. reflexivity.
Qed.

(** A document followed by a line feed is taken, the same document after a
    space is refused. *)
Example badly_formed_white_space :
  OMETIFFReader.badly_formed
    (String.append "<OME/>" (String (Ascii.ascii_of_nat 10) EmptyString)) = false /\
  OMETIFFReader.badly_formed " <OME/>" = true.
Proof. split; reflexivity. Qed.

(** ** What a member function leaves alone *)

Section Keeps.

Context {S : Type} (R : S -> S -> Prop).
Hypothesis R_refl : forall s, R s s.
Hypothesis R_trans : forall s1 s2 s3, R s1 s2 -> R s2 s3 -> R s1 s3.

Lemma keeps_ret {A} (a : A) : keeps R (mret a).
Proof. intros s r s' [= _ <-]. apply R_refl. Qed.

Lemma keeps_throw {A} e : keeps R (@mthrow S A e).
Proof. intros s r s' [= _ <-]. apply R_refl. Qed.

Lemma keeps_mconst {A} (f : S -> result A) : keeps R (mconst f).
Proof. intros s r s' [= _ <-]. apply R_refl. Qed.

Lemma keeps_mget : keeps R (@mget S).
Proof. intros s r s' [= _ <-]. apply R_refl. Qed.

Lemma keeps_bind {A B} (m : M S A) (k : A -> M S B) :
  keeps R m -> (forall a, keeps R (k a)) -> keeps R (mbind m k).
Proof.
  intros Hm Hk s r s'. unfold mbind.
  destruct (m s) as [[e|a] s1] eqn:E.
  - intros [= _ <-]. exact (Hm _ _ _ E).
  - intros H. exact (R_trans _ _ _ (Hm _ _ _ E) (Hk a _ _ _ H)).
Qed.

End Keeps.

Lemma mbind_run {S A B} (m : M S A) (k : A -> M S B) s a s1 :
  m s = (Ok a, s1) -> mbind m k s = k a s1.
Proof. intros H. unfold mbind. now rewrite H. Qed.

(** ** Raw byte streams: reading back what was written *)

Section RawRoundTrip.

Import RawStream.

Lemma read_raw_in n e off s :
  off < 2 ^ 63 -> off + Z.of_nat n <= size s ->
  read_raw n e off s = (Ok (field n e off s), s).
Proof.
  intros H1 H2. unfold read_raw, mconst, read_here, seekable, field.
  destruct (Z.ltb_spec off (2 ^ 63)); [|lia]. cbn [negb].
  destruct (Z.ltb_spec (size s) (off + Z.of_nat n)); [lia|]. reflexivity.
Qed.

(** Reading a stream never changes it. *)
Lemma read_raw_keeps n e off : keeps (fun s s' : stream => s' = s) (read_raw n e off).
Proof. unfold read_raw. apply keeps_mconst. reflexivity. Qed.

End RawRoundTrip.

(** A value written with [write_raw] at an offset within the file, or at its
    end, reads back with [read_raw] at that offset in the same byte order as
    the value truncated to the [n] bytes written.  The write leaves every
    byte before the offset and after the [n] bytes as it was, makes the file
    [off + n] bytes long when it was shorter, and any [read_raw] of a field
    of one byte or more that lies before or after the bytes written gives
    what it gave before. *)
Theorem write_raw_read_raw
        (n : nat) (e : RawStream.EndianType) (off v : Z) (s : RawStream.stream)
        (in_file : 0 <= off <= RawStream.size s)
        (seekable : off < 2 ^ 63) :
  exists s',
    RawStream.write_raw n e off v s = (Ok tt, s') /\
    RawStream.read_raw n e off s' = (Ok (v mod 2 ^ (8 * Z.of_nat n)), s') /\
    RawStream.size s' = Z.max (RawStream.size s) (off + Z.of_nat n) /\
    RawStream.prefix off s' = RawStream.prefix off s /\
    RawStream.suffix (off + Z.of_nat n) s'
    = RawStream.suffix (off + Z.of_nat n) s /\
    forall k e' off',
      (0 < k)%nat -> 0 <= off' ->
      off' + Z.of_nat k <= off \/ off + Z.of_nat n <= off' ->
      fst (RawStream.read_raw k e' off' s') = fst (RawStream.read_raw k e' off' s).
Proof.
  set (s' := RawStream.overwrite s (Z.to_nat off) (RawStream.encode e n v)).
  destruct (write_effect n e off v s in_file) as (Hs & Hp & Hx & Hf).
  fold s' in Hs, Hp, Hx, Hf.
  assert (RawStream.size s' = Z.max (RawStream.size s) (off + Z.of_nat n)) as Hsize.
  { unfold s', RawStream.size in *.
    rewrite overwrite_length, encode_length by lia. lia. }
  exists s'. split; [|split; [|split; [exact Hsize|split; [exact Hp|split; [exact Hx|]]]]].
  - unfold RawStream.write_raw, RawStream.seekable.
    destruct (Z.ltb_spec off (2 ^ 63)); [|lia]. reflexivity.
  - rewrite read_raw_in by lia. now rewrite Hf.
  - intros k e' off' Hpos H0 Hk.
    unfold RawStream.read_raw, mconst, RawStream.read_here. cbn [fst].
    destruct (negb (RawStream.seekable off')); [reflexivity|].
    assert (RawStream.field k e' off' s' = RawStream.field k e' off' s) as Hfield.
    { destruct Hk as [Hk|Hk].
      - apply (field_prefix k e' off' off); [lia|lia|exact Hp].
      - apply (field_suffix k e' off' (off + Z.of_nat n)); [lia|exact Hx]. }
    unfold RawStream.field in Hfield. rewrite Hfield.
    destruct (Z.ltb_spec (RawStream.size s') (off' + Z.of_nat k));
      destruct (Z.ltb_spec (RawStream.size s) (off' + Z.of_nat k));
      try reflexivity; lia.
Qed.

Lemma write_raw_read_raw_witness :
  exists s',
    RawStream.write_raw 4 RawStream.ENDIAN_BIG 12 65537 tiny_tiff = (Ok tt, s') /\
    RawStream.read_raw 4 RawStream.ENDIAN_BIG 12 s' = (Ok 65537, s').
Proof.
  destruct (write_raw_read_raw 4 RawStream.ENDIAN_BIG 12 65537 tiny_tiff)
    as (s' & Hw & Hr & _).
  - vm_compute. split; discriminate.
  - vm_compute. reflexivity.
  - exists s'. split; [exact Hw|exact Hr].
Defined.

(** ** [saveComment] on a file that cannot be patched *)

Section SaveCommentFails.

Import RawStream OMETIFFWriter.

Lemma read_header_keeps : keeps (fun s s' : stream => s' = s) read_header.
Proof.
  unfold read_header, bad_endian, read_raw_uint32, read_raw_uint64.
  assert (forall s : stream, s = s) as Hr by reflexivity.
  assert (forall s1 s2 s3 : stream, s2 = s1 -> s3 = s2 -> s3 = s1) as Ht
      by (intros; congruence).
  apply keeps_bind; [exact Ht|apply keeps_mget; exact Hr|intros s].
  destruct (extract_char s 0) as [[c0 p0]|]; [|apply keeps_throw; exact Hr].
  destruct (extract_char _ p0) as [[c1 pos]|]; [|apply keeps_throw; exact Hr].
  repeat first
         [ apply keeps_ret; exact Hr
         | apply keeps_throw; exact Hr
         | apply keeps_mconst; exact Hr
         | apply read_raw_keeps
         | apply keeps_bind; [exact Ht| |intros ?]
         | match goal with
           | |- keeps _ (if ?b then _ else _) => destruct b
           end ].
Qed.

Variable e : EndianType.
Variable big : bool.
Variables ifd0 desc xs : Z.
Hypothesis ifd0_nonneg : 0 <= ifd0.

(** Over entries none of which is an ImageDescription, the loop of
    [saveComment] reads and writes nothing. *)
Lemma patch_entries_absent n : forall i found h,
  0 <= i ->
  entryOffset big ifd0 (i + Z.of_nat n) <= size h -> size h < 2 ^ 63 ->
  (forall j, i <= j < i + Z.of_nat n ->
             entry_tag e big ifd0 j h <> TIFFTAG_IMAGEDESCRIPTION) ->
  patch_entries e big ifd0 desc xs n i found h = (Ok found, h).
Proof.
  induction n as [|n IH]; intros i found h Hi Hin Hsz Hno; cbn [patch_entries];
    [reflexivity|].
  assert (2 ^ 63 < 2 ^ 64) as P by reflexivity.
  pose proof (entryOffset_nonneg big ifd0 ifd0_nonneg i Hi) as Hn.
  pose proof (entryOffset_succ big ifd0 i) as Hsucc.
  pose proof (entryOffset_mono big ifd0 (i + 1) (i + Z.of_nat (S n)) ltac:(lia))
    as Hm.
  assert (0 <= Z.of_nat (value_size big)) as Hvs by lia.
  rewrite (tagOffset_exact big ifd0 ifd0_nonneg i Hi) by lia.
  rewrite !wadd_exact by lia. rewrite Z.add_0_r.
  unfold mbind, read_raw_uint16.
  rewrite (read_raw_in 2 e (entryOffset big ifd0 i) h) by lia.
  rewrite (read_raw_in 2 e (entryOffset big ifd0 i + 2) h) by lia.
  unfold Ok. cbn beta iota. fold (entry_tag e big ifd0 i h).
  destruct (Z.eqb_spec (entry_tag e big ifd0 i h) TIFFTAG_IMAGEDESCRIPTION)
    as [Et|Et]; [exfalso; apply (Hno i); [lia|exact Et]|].
  cbn [negb]. apply IH; [lia| |exact Hsz|intros j Hj; apply Hno; lia].
  replace (i + 1 + Z.of_nat n) with (i + Z.of_nat (S n)) by lia. exact Hin.
Qed.

End SaveCommentFails.

(** When the header of the file cannot be read as a TIFF header (no "II" or
    "MM", a version other than 42 and 43, an offset size other than 4 and 8,
    or a file that ends too early), [saveComment] fails with the error of the
    header and leaves the file as it was: nothing has been appended. *)
Theorem saveComment_header_failure
        (xml : list byte) (f f1 : RawStream.stream) (e : exn)
        (header : OMETIFFWriter.read_header f = (Throw e, f1)) :
  OMETIFFWriter.saveComment xml f = (Throw e, f).
Proof.
  pose proof (read_header_keeps _ _ _ header) as ->.
  unfold OMETIFFWriter.saveComment, mbind. now rewrite header.
Qed.

Lemma saveComment_header_failure_witness :
  OMETIFFWriter.saveComment tiny_xml (map byte.of_Z [80; 75; 3; 4])
  = (Throw (FormatException
              "%1% is not a valid TIFF file: Invalid endian header" [80; 75]),
     map byte.of_Z [80; 75; 3; 4]).
Proof.
  apply (saveComment_header_failure
           tiny_xml (map byte.of_Z [80; 75; 3; 4]) (map byte.of_Z [80; 75; 3; 4])).
  vm_compute. reflexivity.
Defined.

(** When the first IFD lies within the file and holds no ImageDescription
    entry, [saveComment] fails with "Could not find TIFF ImageDescription
    tag", and the file it leaves is the original one with the XML text and
    its NUL appended: no directory entry has been changed, but the text is
    there. *)
Theorem saveComment_without_ImageDescription
        (xml : list byte) (f : RawStream.stream)
        (endian : RawStream.EndianType) (big : bool) (ifd0 : Z)
        (header : OMETIFFWriter.read_header f = (Ok (endian, big, ifd0), f)) :
  let g := f ++ xml ++ [Byte.x00] in
  let entries := RawStream.field (if big then 8%nat else 2%nat) endian ifd0 g in
  OMETIFFWriter.entryOffset big ifd0 entries <= RawStream.size g ->
  RawStream.size g < 2 ^ 63 ->
  (forall i, 0 <= i < entries ->
             OMETIFFWriter.entry_tag endian big ifd0 i g
             <> OMETIFFWriter.TIFFTAG_IMAGEDESCRIPTION) ->
  OMETIFFWriter.saveComment xml f
  = (Throw (FormatException "Could not find TIFF ImageDescription tag" []), g).
Proof.
  intros g entries Hin Hsz Hno.
  destruct (read_header_Ok _ _ _ _ _ header) as (_ & Hifd).
  assert (0 <= entries) as Hen by apply decode_nonneg.
  pose proof (entryOffset_mono big ifd0 0 entries Hen) as Hm.
  unfold OMETIFFWriter.saveComment.
  rewrite (mbind_run _ _ _ _ _ header). cbn beta iota zeta.
  rewrite (mbind_run (OMETIFFWriter.append_xml xml) _ f (RawStream.size f) g)
    by reflexivity.
  rewrite (mbind_run _ _ g entries g).
  2: { assert (ifd0 + (if big then 8 else 2) <= RawStream.size g) as Hread
           by (unfold OMETIFFWriter.entryOffset, OMETIFFWriter.entries_start,
                 OMETIFFWriter.entry_size in Hm, Hin; destruct big; lia).
       unfold entries, RawStream.read_raw_uint64, RawStream.read_raw_uint16.
       destruct big; apply read_raw_in;
         cbn [Z.of_nat Pos.of_succ_nat Pos.succ]; lia. }
  rewrite (mbind_run _ _ g false g); [reflexivity|].
  apply (patch_entries_absent endian big ifd0 (RawStream.size f)
                              (RawStream.size xml) Hifd);
    [lia| |exact Hsz|].
  - rewrite Z2Nat.id, Z.add_0_l by exact Hen. exact Hin.
  - intros j Hj. apply Hno. lia.
Qed.

Lemma saveComment_without_ImageDescription_witness :
  OMETIFFWriter.saveComment tiny_xml tiny_tiff_no_description
  = (Throw (FormatException "Could not find TIFF ImageDescription tag" []),
     tiny_tiff_no_description ++ tiny_xml ++ [Byte.x00]).
Proof.
  apply (saveComment_without_ImageDescription
           tiny_xml tiny_tiff_no_description RawStream.ENDIAN_LITTLE false 8).
  - vm_compute. reflexivity.
  - vm_compute. discriminate.
  - vm_compute. reflexivity.
  - intros i Hi.
    assert (i = 0) as -> by (vm_compute in Hi; destruct Hi as [H0 H1];
                             destruct i; [reflexivity| |];
                             [destruct p; discriminate H1|contradiction H0; reflexivity]).
    vm_compute. discriminate.
Defined.

(** ** The OME-TIFF writer: what moving the cursor leaves alone *)

Section WriterFrames.

Import OMETIFFWriter.

Lemma assign_keys (m : tiff_map) k v : map fst (assign m k v) = map fst m.
Proof.
  induction m as [|[k0 v0] rest IH]; [reflexivity|].
  cbn [assign]. destruct (String.eqb k0 k); cbn [map fst];
    [reflexivity|now rewrite IH].
Qed.

Variable R : OMETIFFWriter.t -> OMETIFFWriter.t -> Prop.
Hypothesis R_refl : forall w, R w w.
Hypothesis R_trans : forall w1 w2 w3, R w1 w2 -> R w2 w3 -> R w1 w3.
(** [R] does not look at the state of the files that are open. *)
Hypothesis R_tiffs : forall w k v, R w (set_tiffs w (assign (tiffs w) k v)).

Lemma keeps_update_current f : keeps R (update_current f).
Proof.
  intros w r w'. unfold update_current.
  destruct (current w) as [e|[k st]]; intros [= _ <-]; [apply R_refl|apply R_tiffs].
Qed.

Lemma keeps_const_base {A} (f : FormatWriter.t -> result A) :
  keeps R (const_base f).
Proof. apply keeps_mconst. exact R_refl. Qed.

Ltac keeps_tiffs :=
  repeat first
         [ apply keeps_update_current
         | apply keeps_const_base
         | apply keeps_ret; exact R_refl
         | apply keeps_throw; exact R_refl
         | apply keeps_mconst; exact R_refl
         | apply keeps_mget; exact R_refl
         | apply keeps_bind; [exact R_trans| |intros ?]
         | match goal with
           | |- keeps _ (if ?b then _ else _) => destruct b
           | |- keeps _ (match ?x with _ => _ end) => destruct x
           end ].

Lemma keeps_nextIFD : keeps R nextIFD.
Proof. apply keeps_update_current. Qed.

Lemma keeps_nextSUBIFD : keeps R nextSUBIFD.
Proof. apply keeps_update_current. Qed.

Lemma keeps_setupIFD : keeps R setupIFD.
Proof. unfold setupIFD, update_ifd. keeps_tiffs. Qed.

(** [R] does not look at the base class either. *)
Hypothesis R_base : forall w b, R w (set_base w b).

Lemma keeps_on_base {A} (m : M FormatWriter.t A) : keeps R (on_base m).
Proof.
  intros w r w'. unfold on_base. destruct (m (base w)) as [r0 b].
  intros [= _ <-]. apply R_base.
Qed.



Lemma keeps_setPlane plane : keeps R (setPlane plane).
Proof.
  unfold setPlane.
  apply keeps_bind; [exact R_trans|apply keeps_const_base|intros ?].
  apply keeps_bind; [exact R_trans|apply keeps_on_base|intros ?].
  destruct (negb _); [|apply keeps_ret; exact R_refl].
  apply keeps_bind; [exact R_trans|apply keeps_nextIFD|intros ?].
  apply keeps_setupIFD.
Qed.

End WriterFrames.

Lemma same_files_refl w : same_files w w.
Proof. repeat split. Qed.

Lemma same_files_trans w1 w2 w3 :
  same_files w1 w2 -> same_files w2 w3 -> same_files w1 w3.
Proof.
  intros (A1 & A2 & A3 & A4 & A5) (B1 & B2 & B3 & B4 & B5).
  repeat split; congruence.
Qed.

Lemma same_files_tiffs w k v :
  same_files w (OMETIFFWriter.set_tiffs
                  w (OMETIFFWriter.assign (OMETIFFWriter.tiffs w) k v)).
Proof. repeat split. cbn. apply assign_keys. Qed.

Lemma same_files_base w b : same_files w (OMETIFFWriter.set_base w b).
Proof. repeat split. Qed.


(** ** The OME-TIFF writer: what [saveBytes] records *)

Section WriterSaveBytes.

Import OMETIFFWriter.

Local Abbreviation same_base := (fun w w' : OMETIFFWriter.t => base w' = base w).

Lemma same_base_trans (w1 w2 w3 : OMETIFFWriter.t) :
  base w2 = base w1 -> base w3 = base w2 -> base w3 = base w1.
Proof. congruence. Qed.

Lemma nextIFD_base : keeps same_base nextIFD.
Proof. apply keeps_nextIFD; reflexivity. Qed.

Lemma nextSUBIFD_base : keeps same_base nextSUBIFD.
Proof. apply keeps_nextSUBIFD; reflexivity. Qed.

Lemma setupIFD_base : keeps same_base setupIFD.
Proof.
  apply keeps_setupIFD; [reflexivity|exact same_base_trans|reflexivity].
Qed.

Lemma const_base_Ok {A} (f : FormatWriter.t -> result A) w a w' :
  const_base f w = (Ok a, w') -> w' = w /\ f (base w) = Ok a.
Proof. unfold const_base, mconst. intros [= H <-]. auto. Qed.

Lemma on_base_Ok {A} (m : M FormatWriter.t A) w a w' :
  on_base m w = (Ok a, w') ->
  exists b, m (base w) = (Ok a, b) /\ w' = set_base w b.
Proof.
  unfold on_base. destruct (m (base w)) as [r b]. intros [= -> <-]. eauto.
Qed.

(** A successful [setPlane] of the base class sets the plane and nothing
    else, on a writer that is open. *)
Lemma FormatWriter_setPlane_Ok p b u b' :
  FormatWriter.setPlane p b = (Ok u, b') ->
  b' = FormatWriter.set_cursor b (FormatWriter.series b)
                               (FormatWriter.resolution b) p /\
  FormatWriter.currentId b <> None.
Proof.
  unfold FormatWriter.setPlane. intros H.
  apply mbind_Ok in H. destruct H as (u0 & b0 & H0 & H).
  unfold mconst in H0. injection H0 as H0 <-.
  assert (FormatWriter.currentId b <> None) as Hid
      by (destruct (FormatWriter.currentId b); [discriminate|discriminate H0]).
  apply mbind_Ok in H. destruct H as (count & b1 & H1 & H).
  unfold mconst in H1. injection H1 as _ <-.
  destruct (count <=? p); [discriminate H|].
  apply mbind_Ok in H. destruct H as (cur & b2 & H2 & H).
  unfold mconst in H2. injection H2 as _ <-.
  destruct (negb (cur =? p) && _); [discriminate H|].
  injection H as _ <-. auto.
Qed.

(** The OME-TIFF [setPlane]: on success the base class holds the new plane,
    with its series and resolution as before, and the files and the plane
    table are those of before. *)
Lemma setPlane_Ok p w u w' :
  setPlane p w = (Ok u, w') ->
  base w' = FormatWriter.set_cursor (base w) (FormatWriter.series (base w))
                                    (FormatWriter.resolution (base w)) p /\
  FormatWriter.currentId (base w) <> None /\
  same_files w w'.
Proof.
  intros H.
  pose proof (keeps_setPlane same_files same_files_refl same_files_trans
                             same_files_tiffs same_files_base p _ _ _ H) as Hf.
  unfold setPlane in H.
  apply mbind_Ok in H. destruct H as (cur & w0 & H0 & H).
  apply const_base_Ok in H0. destruct H0 as (-> & _).
  apply mbind_Ok in H. destruct H as (u1 & w1 & H1 & H).
  apply on_base_Ok in H1. destruct H1 as (b & Hb & ->).
  apply FormatWriter_setPlane_Ok in Hb. destruct Hb as (-> & Hid).
  split; [|split; [exact Hid|exact Hf]].
  destruct (negb (cur =? p)).
  - apply mbind_Ok in H. destruct H as (u2 & w2 & H2 & H).
    rewrite (setupIFD_base _ _ _ H), (nextIFD_base _ _ _ H2). reflexivity.
  - injection H as _ <-. reflexivity.
Qed.

Local Abbreviation bad plane :=
  (if OMETIFF.Status_eqb (OMETIFF.status plane) OMETIFF.PRESENT then 0 else 1).

Lemma replace_nth_split {A} (l : list A) : forall n x a,
  nth_error l n = Some x ->
  exists pre post,
    l = pre ++ x :: post /\ OMETIFFReader.replace_nth n l a = pre ++ a :: post.
Proof.
  induction l as [|y l IH]; intros n x a H; [destruct n; discriminate H|].
  destruct n as [|n]; cbn [nth_error OMETIFFReader.replace_nth] in *.
  - injection H as ->. exists [], l. auto.
  - destruct (IH n x a H) as (pre & post & -> & ->).
    exists (y :: pre), post. auto.
Qed.

Lemma unwritten_app st1 st2 :
  unwritten (st1 ++ st2) = unwritten st1 + unwritten st2.
Proof.
  unfold unwritten. rewrite concat_app, filter_app, length_app. lia.
Qed.

Lemma unwritten_planes_app l1 l2 :
  unwritten [l1 ++ l2] = unwritten [l1] + unwritten [l2].
Proof.
  unfold unwritten. cbn [List.concat]. rewrite !app_nil_r, filter_app, length_app.
  lia.
Qed.

Lemma unwritten_one plane : unwritten [[plane]] = bad plane.
Proof.
  unfold unwritten. cbn [List.concat app filter].
  destruct (OMETIFF.Status_eqb (OMETIFF.status plane) OMETIFF.PRESENT); reflexivity.
Qed.

(** Replacing one plane of the table changes the number of unwritten planes
    by what the old and the new plane count for. *)
Lemma unwritten_replace st s planes p old new :
  nth_error st s = Some planes -> nth_error planes p = Some old ->
  unwritten (OMETIFFReader.replace_nth
               s st (OMETIFFReader.replace_nth p planes new))
  = unwritten st - bad old + bad new.
Proof.
  intros Hs Hp.
  destruct (replace_nth_split planes p old new Hp) as (l1 & l2 & El & ->).
  destruct (replace_nth_split st s planes (l1 ++ new :: l2) Hs)
    as (s1 & s2 & Es & ->).
  rewrite Es, El.
  rewrite !unwritten_app.
  rewrite (unwritten_cons (l1 ++ old :: l2)), (unwritten_cons (l1 ++ new :: l2)).
  change (new :: l2) with ([new] ++ l2). change (old :: l2) with ([old] ++ l2).
  rewrite !unwritten_planes_app, !unwritten_one. lia.
Qed.

End WriterSaveBytes.

(** A successful [saveBytes(plane, ...)] leaves the cursor on that plane, in
    the series and at the resolution it was on, and opens or closes no file.
    At the full resolution it records the plane in the table of the series as
    PRESENT and certain, in the current file, at the number of IFDs that file
    has completed; no other entry of the table changes, and the number of
    planes still to be written drops by one, unless the plane had been
    written before.  At a reduced resolution the table is not touched. *)
Theorem saveBytes_marks_plane
        (w w' : OMETIFFWriter.t) (plane : Z)
        (run : OMETIFFWriter.saveBytes plane w = (Ok tt, w')) :
  exists series resolution planes old,
    FormatWriter.getSeries (OMETIFFWriter.base w') = Ok series /\
    FormatWriter.getResolution (OMETIFFWriter.base w') = Ok resolution /\
    FormatWriter.getPlane (OMETIFFWriter.base w') = Ok plane /\
    series = FormatWriter.series (OMETIFFWriter.base w) /\
    resolution = FormatWriter.resolution (OMETIFFWriter.base w) /\
    map fst (OMETIFFWriter.tiffs w') = map fst (OMETIFFWriter.tiffs w) /\
    at_ (OMETIFFWriter.seriesState w) series = Ok planes /\
    at_ planes plane = Ok old /\
    (resolution = 0 ->
     exists file st,
       OMETIFFWriter.current w' = Ok (file, st) /\
       let new := OMETIFF.mkPlane file (OMETIFFWriter.ifdCount st) true
                                  OMETIFF.PRESENT in
       OMETIFFWriter.seriesState w'
       = OMETIFFReader.replace_nth
           (Z.to_nat series) (OMETIFFWriter.seriesState w)
           (OMETIFFReader.replace_nth (Z.to_nat plane) planes new) /\
       (planes' <- at_ (OMETIFFWriter.seriesState w') series ;;
        at_ planes' plane)%res = Ok new /\
       OMETIFFWriter.unwritten (OMETIFFWriter.seriesState w')
       = OMETIFFWriter.unwritten (OMETIFFWriter.seriesState w)
         - (if OMETIFF.Status_eqb (OMETIFF.status old) OMETIFF.PRESENT
            then 0 else 1)) /\
    (resolution <> 0 ->
     OMETIFFWriter.seriesState w' = OMETIFFWriter.seriesState w).
Proof.
  unfold OMETIFFWriter.saveBytes in run.
  apply mbind_Ok in run. destruct run as (u0 & w0 & H0 & H).
  apply const_base_Ok in H0. destruct H0 as (-> & _).
  apply mbind_Ok in H. destruct H as (u1 & w1 & H1 & H).
  apply setPlane_Ok in H1. destruct H1 as (Hb & Hid & (Hk & Hc & Hs & _)).
  apply mbind_Ok in H. destruct H as (series & w2 & H2 & H).
  apply const_base_Ok in H2. destruct H2 as (-> & Hser).
  apply mbind_Ok in H. destruct H as (w3 & w4 & H3 & H).
  injection H3 as <- <-.
  apply mbind_Ok in H. destruct H as (planes & w5 & H5 & H).
  unfold mconst in H5. injection H5 as Hplanes <-.
  apply mbind_Ok in H. destruct H as (old & w6 & H6 & H).
  unfold mconst in H6. injection H6 as Hold <-.
  apply mbind_Ok in H. destruct H as (resolution & w7 & H7 & H).
  apply const_base_Ok in H7. destruct H7 as (-> & Hres).
  assert (series = FormatWriter.series (OMETIFFWriter.base w) /\
          resolution = FormatWriter.resolution (OMETIFFWriter.base w) /\
          FormatWriter.getPlane (OMETIFFWriter.base w1) = Ok plane)
    as (Es & Er & Hp).
  { revert Hser Hres. rewrite Hb.
    unfold FormatWriter.getSeries, FormatWriter.getResolution,
      FormatWriter.getPlane, FormatWriter.set_cursor, FormatWriter.assertId.
    cbn [FormatWriter.currentId FormatWriter.series FormatWriter.resolution
         FormatWriter.plane].
    destruct (FormatWriter.currentId (OMETIFFWriter.base w)); [|contradiction].
    cbn [rbind Ok]. unfold Ok. intros [= <-] [= <-]. auto. }
  rewrite Hs in Hplanes.
  exists series, resolution, planes, old.
  destruct (Z.eqb_spec resolution 0) as [Hr0|Hr0].
  - apply mbind_Ok in H. destruct H as ([file st] & w8 & H8 & H).
    unfold mconst in H8. injection H8 as Hcur <-.
    injection H as <-.
    cbn [OMETIFFWriter.base OMETIFFWriter.set_seriesState OMETIFFWriter.tiffs
         OMETIFFWriter.seriesState fst snd].
    rewrite Hs.
    do 8 (split; [assumption|]). split; [|intros; contradiction].
    intros _. exists file, st. split; [exact Hcur|]. cbn zeta.
    destruct (at_Ok_nth _ _ _ Hplanes) as (Hs0 & Hsn).
    destruct (at_Ok_nth _ _ _ Hold) as (Hp0 & Hpn).
    pose proof (at_Ok_range _ _ _ Hplanes) as Rs.
    pose proof (at_Ok_range _ _ _ Hold) as Rp.
    split; [reflexivity|]. split.
    + rewrite (at_nth _ series
                 (OMETIFFReader.replace_nth
                    (Z.to_nat plane) planes
                    (OMETIFF.mkPlane file (OMETIFFWriter.ifdCount st) true
                                     OMETIFF.PRESENT)) Hs0)
        by (apply nth_error_replace_nth; lia).
      cbn [rbind Ok]. apply at_nth; [exact Hp0|].
      apply nth_error_replace_nth. lia.
    + rewrite (unwritten_replace _ _ _ _ old _ Hsn Hpn). cbn. lia.
  - injection H as <-.
    do 8 (split; [assumption|]). split; [intros; contradiction|].
    intros _. exact Hs.
Qed.

Lemma saveBytes_marks_plane_witness :
  exists series resolution planes old,
    FormatWriter.getSeries
      (OMETIFFWriter.base (snd (OMETIFFWriter.saveBytes 1 stack_writer)))
    = Ok series /\
    FormatWriter.getResolution
      (OMETIFFWriter.base (snd (OMETIFFWriter.saveBytes 1 stack_writer)))
    = Ok resolution /\
    FormatWriter.getPlane
      (OMETIFFWriter.base (snd (OMETIFFWriter.saveBytes 1 stack_writer)))
    = Ok 1 /\
    at_ (OMETIFFWriter.seriesState stack_writer) series = Ok planes /\
    at_ planes 1 = Ok old.
Proof.
  destruct (saveBytes_marks_plane
              stack_writer (snd (OMETIFFWriter.saveBytes 1 stack_writer)) 1)
    as (series & resolution & planes & old & H1 & H2 & H3 & _ & _ & _ & H4 & H5 & _).
  - vm_compute. reflexivity.
  - exists series, resolution, planes, old. auto.
Defined.

(** Saved after plane 0, plane 1 of the stack goes to IFD 1 of the file, and
    two of the four planes are then left to write. *)
Example saveBytes_second_plane :
  let w := snd ((OMETIFFWriter.saveBytes 0 ;;; OMETIFFWriter.saveBytes 1)%M
                  stack_writer) in
  (planes <- at_ (OMETIFFWriter.seriesState w) 0 ;; at_ planes 1)%res
  = Ok (OMETIFF.mkPlane "stack.ome.tiff" 1 true OMETIFF.PRESENT) /\
  OMETIFFWriter.unwritten (OMETIFFWriter.seriesState stack_writer) = 4 /\
  OMETIFFWriter.unwritten (OMETIFFWriter.seriesState w) = 2.
Proof. vm_compute. repeat split; reflexivity. Qed.

(** ** The OME-TIFF writer: the directory that [setupIFD] prepares *)

Section WriterSetupIFD.

Import OMETIFFWriter.

Lemma find_assign_same (m : tiff_map) k st v :
  find m k = Some st -> find (assign m k v) k = Some v.
Proof.
  induction m as [|[k0 v0] rest IH]; cbn [find assign]; [discriminate|].
  destruct (String.eqb k0 k) eqn:E; cbn [find]; rewrite E; [reflexivity|exact IH].
Qed.

Lemma find_assign_other (m : tiff_map) k k' v :
  k' <> k -> find (assign m k v) k' = find m k'.
Proof.
  intros Hne. induction m as [|[k0 v0] rest IH]; cbn [find assign]; [reflexivity|].
  destruct (String.eqb_spec k0 k) as [->|Hk]; cbn [find].
  - destruct (String.eqb_spec k k'); [congruence|reflexivity].
  - destruct (String.eqb k0 k'); [reflexivity|exact IH].
Qed.

Lemma current_Ok w k st :
  current w = Ok (k, st) -> currentTIFF w = Some k /\ find (tiffs w) k = Some st.
Proof.
  unfold current. destruct (currentTIFF w) as [k0|]; [|discriminate].
  destruct (find (tiffs w) k0) as [st0|] eqn:E; [|discriminate].
  intros [= <- <-]. auto.
Qed.

(** The state of a file after a change [f] to the directory being built. *)
Local Abbreviation upd f st :=
  (mkTIFFState (uuid st)
               (mkTIFF (f (currentDirectory (tiff st))) (directories (tiff st)))
               (ifdCount st)).

Lemma update_ifd_Ok f w u w' k st :
  update_ifd f w = (Ok u, w') -> current w = Ok (k, st) ->
  current w' = Ok (k, upd f st) /\ base w' = base w.
Proof.
  unfold update_ifd, update_current. intros H Hc. rewrite Hc in H.
  injection H as _ <-. split; [|reflexivity].
  destruct (current_Ok _ _ _ Hc) as (Hk & Hf).
  unfold current. cbn [currentTIFF set_tiffs tiffs]. rewrite Hk.
  now rewrite (find_assign_same _ _ _ _ Hf).
Qed.

End WriterSetupIFD.

(** What a successful [setupIFD] does to the current file. *)
Lemma setupIFD_Ok
        (w w' : OMETIFFWriter.t)
        (run : OMETIFFWriter.setupIFD w = (Ok tt, w')) :
  exists file st st' sizeX sizeY,
    OMETIFFWriter.current w = Ok (file, st) /\
    OMETIFFWriter.current w' = Ok (file, st') /\
    OMETIFFWriter.base w' = OMETIFFWriter.base w /\
    OMETIFFWriter.uuid st' = OMETIFFWriter.uuid st /\
    OMETIFFWriter.ifdCount st' = OMETIFFWriter.ifdCount st /\
    OMETIFFWriter.directories (OMETIFFWriter.tiff st')
    = OMETIFFWriter.directories (OMETIFFWriter.tiff st) /\
    FormatWriter.getSizeX (OMETIFFWriter.base w) = Ok sizeX /\
    FormatWriter.getSizeY (OMETIFFWriter.base w) = Ok sizeY /\
    let ifd := OMETIFFWriter.currentDirectory (OMETIFFWriter.tiff st') in
    OMETIFFWriter.imageWidth ifd = sizeX /\
    OMETIFFWriter.imageHeight ifd = sizeY /\
    OMETIFFWriter.tileWidth ifd <> 0 /\
    OMETIFFWriter.tileHeight ifd <> 0 /\
    (OMETIFFWriter.ifdCount st = 0 ->
     OMETIFFWriter.imageDescription ifd
     = Some OMETIFFWriter.default_description) /\
    (FormatWriter.tile_size_y (OMETIFFWriter.base w) = None ->
     (0 < sizeX < 2048 ->
      OMETIFFWriter.tileType ifd = OMETIFFWriter.STRIP /\
      OMETIFFWriter.tileWidth ifd = sizeX /\
      OMETIFFWriter.tileHeight ifd = 65536 / sizeX /\
      sizeX * OMETIFFWriter.tileHeight ifd <= 65536
      < sizeX * (OMETIFFWriter.tileHeight ifd + 1)) /\
     (2048 <= sizeX ->
      OMETIFFWriter.tileType ifd = OMETIFFWriter.TILE /\
      OMETIFFWriter.tileWidth ifd = 256 /\
      OMETIFFWriter.tileHeight ifd = 256)).
Proof.
  unfold OMETIFFWriter.setupIFD in run.
  apply mbind_Ok in run. destruct run as (u0 & w0 & H0 & H).
  unfold mconst in H0. injection H0 as H0 <-.
  destruct (OMETIFFWriter.current w) as [e|[file st]] eqn:Hc; [discriminate H0|].
  clear H0.
  apply mbind_Ok in H. destruct H as (sizeX & w1 & H1 & H).
  apply const_base_Ok in H1. destruct H1 as (-> & HX).
  apply mbind_Ok in H. destruct H as (sizeY & w1 & H1 & H).
  apply const_base_Ok in H1. destruct H1 as (-> & HY).
  apply mbind_Ok in H. destruct H as (u1 & w1 & H1 & H).
  destruct (update_ifd_Ok _ _ _ _ _ _ H1 Hc) as (Hc1 & Hb1). clear H1.
  apply mbind_Ok in H. destruct H as (w1' & w1'' & H1 & H).
  injection H1 as <- <-.
  apply mbind_Ok in H. destruct H as (u2 & w2 & H2 & H).
  rewrite Hb1 in H2.
  set (tx := FormatWriter.tile_size_x (OMETIFFWriter.base w)) in *.
  set (ty := FormatWriter.tile_size_y (OMETIFFWriter.base w)) in *.
  destruct (Z.eqb_spec sizeX 0) as [HX0|HX0]; [discriminate H2|].
  assert (exists type width height,
             OMETIFFWriter.update_ifd
               (OMETIFFWriter.setTile type width height) w1 = (Ok u2, w2) /\
             width <> 0 /\ height <> 0 /\
             (ty = None ->
              (0 < sizeX < 2048 ->
               type = OMETIFFWriter.STRIP /\ width = sizeX /\
               height = 65536 / sizeX) /\
              (2048 <= sizeX ->
               type = OMETIFFWriter.TILE /\ width = 256 /\ height = 256)))
    as (type & width & height & Ht & Hw0 & Hh0 & Hdef).
  { assert (forall (P : Prop), (None = None :> option Z -> P) -> P) as triv
        by (intros P HP; exact (HP eq_refl)).
    destruct tx as [x|], ty as [y|].
    - destruct (Z.eqb_spec x 0), (Z.eqb_spec y 0); cbn [negb andb] in H2;
        do 3 eexists; (split; [exact H2|]);
        repeat split; try lia; discriminate.
    - destruct (Z.ltb_spec sizeX 2048) as [Hlt|Hge].
      + destruct (Z.eqb_spec ((65536 / sizeX) mod 2 ^ 32) 0) as [Hz|Hz];
          do 3 eexists; (split; [exact H2|]);
          (split; [exact HX0|]); (split; [lia || exact Hz|]);
          intros _; (split; [|intros; lia]); intros Hpos;
          assert (32 <= 65536 / sizeX <= 65536) as Hq
            by (split; [apply Z.div_le_lower_bound; lia
                       |apply Z.div_le_upper_bound; lia]);
          rewrite Z.mod_small in * by lia; repeat split; lia.
      + do 3 eexists. split; [exact H2|].
        repeat split; try lia.
    - destruct (Z.eqb_spec y 0); cbn [negb] in H2;
        do 3 eexists; (split; [exact H2|]);
        repeat split; try lia; discriminate.
    - destruct (Z.ltb_spec sizeX 2048) as [Hlt|Hge].
      + destruct (Z.eqb_spec ((65536 / sizeX) mod 2 ^ 32) 0) as [Hz|Hz];
          do 3 eexists; (split; [exact H2|]);
          (split; [exact HX0|]); (split; [lia || exact Hz|]);
          intros _; (split; [|intros; lia]); intros Hpos;
          assert (32 <= 65536 / sizeX <= 65536) as Hq
            by (split; [apply Z.div_le_lower_bound; lia
                       |apply Z.div_le_upper_bound; lia]);
          rewrite Z.mod_small in * by lia; repeat split; lia.
      + do 3 eexists. split; [exact H2|].
        repeat split; try lia. }
  clear H2.
  destruct (update_ifd_Ok _ _ _ _ _ _ Ht Hc1) as (Hc2 & Hb2). clear Ht.
  apply mbind_Ok in H. destruct H as (p & w3 & H3 & H).
  apply const_base_Ok in H3. destruct H3 as (-> & _).
  apply mbind_Ok in H. destruct H as (coords & w3 & H3 & H).
  apply const_base_Ok in H3. destruct H3 as (-> & _).
  apply mbind_Ok in H. destruct H as (samples & w3 & H3 & H).
  apply const_base_Ok in H3. destruct H3 as (-> & _).
  apply mbind_Ok in H. destruct H as (rgb & w3 & H3 & H).
  apply const_base_Ok in H3. destruct H3 as (-> & _).
  apply mbind_Ok in H. destruct H as (u3 & w3 & H3 & H).
  destruct (update_ifd_Ok _ _ _ _ _ _ H3 Hc2) as (Hc3 & Hb3). clear H3.
  apply mbind_Ok in H. destruct H as (c & w4 & H4 & H).
  unfold mconst in H4. rewrite Hc3 in H4. injection H4 as <- <-.
  apply mbind_Ok in H. destruct H as (u4 & w4 & H4 & H).
  cbn [snd OMETIFFWriter.ifdCount] in H4.
  assert (exists f,
             OMETIFFWriter.current w4
             = Ok (file,
                   OMETIFFWriter.mkTIFFState
                     (OMETIFFWriter.uuid st)
                     (OMETIFFWriter.mkTIFF
                        (f (OMETIFFWriter.setSamples
                              samples
                              match FormatWriter.interleaved (OMETIFFWriter.base w1)
                              with
                              | Some true => OMETIFFWriter.CONTIG
                              | _ => OMETIFFWriter.SEPARATE
                              end
                              (if rgb && (samples =? 3)
                               then OMETIFFWriter.RGB
                               else OMETIFFWriter.MIN_IS_BLACK)
                              (OMETIFFWriter.setTile
                                 type width height
                                 (OMETIFFWriter.setImageSize
                                    sizeX sizeY
                                    (OMETIFFWriter.currentDirectory
                                       (OMETIFFWriter.tiff st))))))
                        (OMETIFFWriter.directories (OMETIFFWriter.tiff st)))
                     (OMETIFFWriter.ifdCount st)) /\
             OMETIFFWriter.base w4 = OMETIFFWriter.base w3 /\
             (forall d, OMETIFFWriter.imageWidth (f d) = OMETIFFWriter.imageWidth d /\
                        OMETIFFWriter.imageHeight (f d) = OMETIFFWriter.imageHeight d /\
                        OMETIFFWriter.tileType (f d) = OMETIFFWriter.tileType d /\
                        OMETIFFWriter.tileWidth (f d) = OMETIFFWriter.tileWidth d /\
                        OMETIFFWriter.tileHeight (f d) = OMETIFFWriter.tileHeight d) /\
             (OMETIFFWriter.ifdCount st = 0 ->
              forall d, OMETIFFWriter.imageDescription (f d)
                        = Some OMETIFFWriter.default_description))
    as (f4 & Hc4 & Hb4 & Hkeep4 & Hdesc4).
  { destruct (Z.eqb_spec (OMETIFFWriter.ifdCount st) 0) as [Hz|Hz].
    - destruct (update_ifd_Ok _ _ _ _ _ _ H4 Hc3) as (Hc4 & Hb4).
      exists (OMETIFFWriter.setDescription OMETIFFWriter.default_description).
      split; [exact Hc4|]. split; [exact Hb4|]. split; [|reflexivity].
      intros d. repeat split.
    - injection H4 as _ <-. exists (fun d => d).
      split; [exact Hc3|]. split; [reflexivity|]. split; [|contradiction].
      intros d. repeat split. }
  clear H4.
  apply mbind_Ok in H. destruct H as (r & w5 & H5 & H).
  apply const_base_Ok in H5. destruct H5 as (-> & _).
  assert (exists ty' n',
             OMETIFFWriter.update_ifd (OMETIFFWriter.setSubfile ty' n') w4
             = (Ok tt, w')) as (ty' & n' & H5).
  { destruct (r =? 0).
    - apply mbind_Ok in H. destruct H as (n & w5 & H5 & H).
      apply const_base_Ok in H5. destruct H5 as (-> & _). eauto.
    - eauto. }
  clear H.
  destruct (update_ifd_Ok _ _ _ _ _ _ H5 Hc4) as (Hc5 & Hb5). clear H5.
  eexists file, st, _, sizeX, sizeY.
  split; [reflexivity|]. split; [exact Hc5|].
  split; [congruence|].
  cbn [OMETIFFWriter.uuid OMETIFFWriter.ifdCount OMETIFFWriter.tiff
       OMETIFFWriter.directories OMETIFFWriter.currentDirectory].
  do 5 (split; [reflexivity || assumption|]).
  cbn zeta.
  cbn [OMETIFFWriter.setSubfile OMETIFFWriter.imageWidth
       OMETIFFWriter.imageHeight OMETIFFWriter.tileType OMETIFFWriter.tileWidth
       OMETIFFWriter.tileHeight OMETIFFWriter.imageDescription].
  destruct (Hkeep4
              (OMETIFFWriter.setSamples
                 samples
                 match FormatWriter.interleaved (OMETIFFWriter.base w1) with
                 | Some true => OMETIFFWriter.CONTIG
                 | _ => OMETIFFWriter.SEPARATE
                 end
                 (if rgb && (samples =? 3)
                  then OMETIFFWriter.RGB else OMETIFFWriter.MIN_IS_BLACK)
                 (OMETIFFWriter.setTile
                    type width height
                    (OMETIFFWriter.setImageSize
                       sizeX sizeY
                       (OMETIFFWriter.currentDirectory (OMETIFFWriter.tiff st))))))
    as (K1 & K2 & K3 & K4 & K5).
  rewrite K1, K2, K3, K4, K5.
  cbn [OMETIFFWriter.setSamples OMETIFFWriter.setTile OMETIFFWriter.setImageSize
       OMETIFFWriter.imageWidth OMETIFFWriter.imageHeight OMETIFFWriter.tileType
       OMETIFFWriter.tileWidth OMETIFFWriter.tileHeight].
  split; [reflexivity|]. split; [reflexivity|]. split; [exact Hw0|].
  split; [exact Hh0|]. split; [intros Hz; now apply Hdesc4|].
  intros Hty. destruct (Hdef Hty) as (D1 & D2). split.
  - intros Hpos. destruct (D1 Hpos) as (-> & -> & ->).
    repeat split.
    + apply Z.mul_div_le. lia.
    + rewrite Z.mul_add_distr_l, Z.mul_1_r.
      pose proof (Z.mod_pos_bound 65536 sizeX ltac:(lia)).
      pose proof (Z.div_mod 65536 sizeX ltac:(lia)). lia.
  - intros Hge. destruct (D2 Hge) as (-> & -> & ->). repeat split.
Qed.

(** A successful [setupIFD] changes the directory being built of the current
    file and nothing else of that file.  The directory gets the X and Y size
    of the current resolution level, a strip or tile size neither dimension
    of which is 0, and, when the file has not completed any IFD yet, the
    placeholder ImageDescription.  When no tile height has been set: below a
    width of 2048 the image is cut into strips of the full width holding as
    many rows as fit 65536 pixels, and from 2048 on into tiles of
    256 x 256. *)
Theorem setupIFD_tile_geometry
        (w w' : OMETIFFWriter.t)
        (run : OMETIFFWriter.setupIFD w = (Ok tt, w')) :
  exists file st st' sizeX sizeY,
    OMETIFFWriter.current w = Ok (file, st) /\
    OMETIFFWriter.current w' = Ok (file, st') /\
    OMETIFFWriter.base w' = OMETIFFWriter.base w /\
    OMETIFFWriter.uuid st' = OMETIFFWriter.uuid st /\
    OMETIFFWriter.ifdCount st' = OMETIFFWriter.ifdCount st /\
    OMETIFFWriter.directories (OMETIFFWriter.tiff st')
    = OMETIFFWriter.directories (OMETIFFWriter.tiff st) /\
    FormatWriter.getSizeX (OMETIFFWriter.base w) = Ok sizeX /\
    FormatWriter.getSizeY (OMETIFFWriter.base w) = Ok sizeY /\
    let ifd := OMETIFFWriter.currentDirectory (OMETIFFWriter.tiff st') in
    OMETIFFWriter.imageWidth ifd = sizeX /\
    OMETIFFWriter.imageHeight ifd = sizeY /\
    OMETIFFWriter.tileWidth ifd <> 0 /\
    OMETIFFWriter.tileHeight ifd <> 0 /\
    (OMETIFFWriter.ifdCount st = 0 ->
     OMETIFFWriter.imageDescription ifd
     = Some OMETIFFWriter.default_description) /\
    (FormatWriter.tile_size_y (OMETIFFWriter.base w) = None ->
     (0 < sizeX < 2048 ->
      OMETIFFWriter.tileType ifd = OMETIFFWriter.STRIP /\
      OMETIFFWriter.tileWidth ifd = sizeX /\
      OMETIFFWriter.tileHeight ifd = 65536 / sizeX /\
      sizeX * OMETIFFWriter.tileHeight ifd <= 65536
      < sizeX * (OMETIFFWriter.tileHeight ifd + 1)) /\
     (2048 <= sizeX ->
      OMETIFFWriter.tileType ifd = OMETIFFWriter.TILE /\
      OMETIFFWriter.tileWidth ifd = 256 /\
      OMETIFFWriter.tileHeight ifd = 256)).
Proof. exact (setupIFD_Ok w w' run). Qed.


Lemma setupIFD_tile_geometry_witness :
  exists file st st' sizeX sizeY,
    OMETIFFWriter.current wide_writer = Ok (file, st) /\
    OMETIFFWriter.current (snd (OMETIFFWriter.setupIFD wide_writer))
    = Ok (file, st') /\
    FormatWriter.getSizeX (OMETIFFWriter.base wide_writer) = Ok sizeX /\
    FormatWriter.getSizeY (OMETIFFWriter.base wide_writer) = Ok sizeY /\
    OMETIFFWriter.tileWidth
      (OMETIFFWriter.currentDirectory (OMETIFFWriter.tiff st')) <> 0.
Proof.
  destruct (setupIFD_tile_geometry
              wide_writer (snd (OMETIFFWriter.setupIFD wide_writer)))
    as (file & st & st' & sizeX & sizeY & H1 & H2 & _ & _ & _ & _ & H3 & H4
        & _ & _ & H5 & _).
  - vm_compute. reflexivity.
  - exists file, st, st', sizeX, sizeY. auto.
Defined.

(** An image 3000 pixels wide is cut into tiles of 256 x 256. *)
Example setupIFD_wide_image :
  let store :=
    [Metadata.mkImage 3000 2000 1 1 1 XYZCT [Metadata.mkChannel (Some 1) None] []] in
  let w := snd ((OMETIFFWriter.on_base
                   (FormatWriter.setMetadataRetrieve (Some store) [[]]) ;;;
                 OMETIFFWriter.setId "big.ome.tiff" "51ab0c3e" false)%M
                  OMETIFFWriter.init) in
  rbind (OMETIFFWriter.getCurrentDirectory w)
        (fun ifd => Ok (OMETIFFWriter.tileType ifd, OMETIFFWriter.getTileWidth ifd,
                        OMETIFFWriter.getTileHeight ifd))
  = Ok (OMETIFFWriter.TILE, 256, 256).
Proof. vm_compute. reflexivity. Qed.

(** ** The OME-TIFF writer: what [setId] opens *)

Section WriterSetId.

Import OMETIFFWriter.









End WriterSetId.

Section WriterSetIdFacts.

Import OMETIFFWriter.

Variables id new_uuid : string.
Variable big : bool.
Variables w w' : OMETIFFWriter.t.
Hypothesis switch : FormatWriter.currentId (base w) <> Some id.
Hypothesis run : setId id new_uuid big w = (Ok tt, w').


Variable m : Metadata.MetadataRetrieve.
Hypothesis fresh : seriesState w = [].
Hypothesis store : FormatWriter.metadataRetrieve (base w) = Some m.


End WriterSetIdFacts.





(** ** The OME-TIFF writer: [close] is final *)

Section WriterCloseTwice.

Import OMETIFFWriter.

Variable x : External.



Lemma clear_clear w : clear (clear w) = clear w.
Proof. reflexivity. Qed.


End WriterCloseTwice.



(** After the [close] that failed for the plane never written, a second
    [close] reports success; the file is not on the disk. *)
Example close_after_failure :
  let r := OMETIFFWriter.close silent (stack_writer_three_saved, []) in
  fst (OMETIFFWriter.close silent (snd r)) = Ok tt /\
  OMETIFFWriter.disk_find (snd (snd (OMETIFFWriter.close silent (snd r))))
                          "stack.ome.tiff" = None.
Proof. vm_compute. split; reflexivity. Qed.

(** ** The OME-TIFF writer: what a successful [close] leaves on disk *)



(** ** Writer properties: the compression tables *)

Section CompressionTables.

Lemma PixelType_eqb_eq a b : PixelType_eqb a b = true <-> a = b.
Proof. destruct a, b; cbn; split; intro H; try reflexivity; discriminate H. Qed.

Lemma PixelType_eqb_refl a : PixelType_eqb a a = true.
Proof. now apply PixelType_eqb_eq. Qed.

Lemma contains_In s x : FormatWriter.contains s x = true <-> In x s.
Proof.
  unfold FormatWriter.contains. rewrite existsb_exists. split.
  - intros (y & Hy & E). apply String.eqb_eq in E. now subst.
  - intro H. exists x. split; [exact H|apply String.eqb_refl].
Qed.

Lemma find_type_In m type v :
  FormatWriter.find_type m type = Some v -> In (type, v) m.
Proof.
  induction m as [|[k v'] m IH]; cbn; [discriminate|].
  destruct (PixelType_eqb k type) eqn:E.
  - apply PixelType_eqb_eq in E. intros [= ->]. left. now subst.
  - intro H. right. now apply IH.
Qed.

Lemma find_type_None m type :
  FormatWriter.find_type m type = None <-> ~ In type (map fst m).
Proof.
  induction m as [|[k v] m IH]; cbn; [tauto|].
  destruct (PixelType_eqb k type) eqn:E.
  - apply PixelType_eqb_eq in E. split; [discriminate|]. intro H. tauto.
  - rewrite IH. split; [|tauto]. intros H [->|H']; [|tauto].
    now rewrite PixelType_eqb_refl in E.
Qed.

Lemma In_find_type m type v :
  NoDup (map fst m) -> In (type, v) m -> FormatWriter.find_type m type = Some v.
Proof.
  induction m as [|[k v'] m IH]; cbn; [tauto|].
  intros Hnd [E|H]; inversion Hnd as [|? ? Hk Hnd']; subst.
  - injection E as -> ->. now rewrite PixelType_eqb_refl.
  - destruct (PixelType_eqb k type) eqn:E.
    + apply PixelType_eqb_eq in E. subst. exfalso. apply Hk.
      now apply (in_map fst) in H.
    + now apply IH.
Qed.

Lemma find_type_app m m' type :
  FormatWriter.find_type (m ++ m') type
  = match FormatWriter.find_type m type with
    | Some v => Some v
    | None => FormatWriter.find_type m' type
    end.
Proof.
  induction m as [|[k v] m IH]; cbn; [reflexivity|].
  now destruct (PixelType_eqb k type).
Qed.

Lemma set_insert_In s x y :
  In y (OMETIFFWriter.set_insert s x) <-> In y s \/ y = x.
Proof.
  unfold OMETIFFWriter.set_insert.
  destruct (FormatWriter.contains s x) eqn:E.
  - apply contains_In in E. split; [tauto|]. intros [H| ->]; assumption.
  - rewrite in_app_iff. cbn. intuition.
Qed.

Lemma set_insert_range_In l s y :
  In y (OMETIFFWriter.set_insert_range s l) <-> In y s \/ In y l.
Proof.
  unfold OMETIFFWriter.set_insert_range. revert s.
  induction l as [|x l IH]; intro s; cbn; [tauto|].
  rewrite IH, set_insert_In. intuition.
Qed.

Lemma map_insert_keys m k v :
  NoDup (map fst m) -> NoDup (map fst (OMETIFFWriter.map_insert m k v)).
Proof.
  intro Hnd. unfold OMETIFFWriter.map_insert.
  destruct (FormatWriter.find_type m k) eqn:E; [exact Hnd|].
  rewrite map_app. cbn. apply find_type_None in E.
  apply NoDup_app_remove_l with (l := []). cbn.
  apply (Permutation.Permutation_NoDup (l := k :: map fst m)).
  - apply Permutation.Permutation_cons_append.
  - now constructor.
Qed.

Lemma find_type_map_insert m k v type :
  FormatWriter.find_type (OMETIFFWriter.map_insert m k v) type
  = match FormatWriter.find_type m type with
    | Some c => Some c
    | None => if PixelType_eqb k type then Some v else None
    end.
Proof.
  unfold OMETIFFWriter.map_insert.
  destruct (FormatWriter.find_type m k) eqn:E.
  - destruct (FormatWriter.find_type m type) eqn:E'; [reflexivity|].
    destruct (PixelType_eqb k type) eqn:Ek; [|reflexivity].
    apply PixelType_eqb_eq in Ek. subst. congruence.
  - rewrite find_type_app. cbn. reflexivity.
Qed.

Variable values : list PixelType.
Variable getCodecNames : PixelType -> list string.

Local Abbreviation props := (OMETIFFWriter.tiff_properties values getCodecNames).
Local Abbreviation step := (OMETIFFWriter.tiff_properties_step getCodecNames).

Local Abbreviation tables_ok := (tables_ok getCodecNames).

Lemma tables_ok_step done p pixeltype :
  tables_ok done p -> tables_ok (done ++ [pixeltype]) (step p pixeltype).
Proof.
  intros (Hnd & Hsub & Hsup & Hmap).
  unfold tables_ok, OMETIFFWriter.tiff_properties_step.
  cbn [FormatWriter.compression_types FormatWriter.pixel_compression_types].
  split; [now apply map_insert_keys|]. split; [|split].
  - intros type codecs codec. rewrite find_type_map_insert.
    rewrite set_insert_range_In.
    destruct (FormatWriter.find_type _ type) eqn:E.
    + intros [= <-] Hc. left. now apply (Hsub type l).
    + destruct (PixelType_eqb pixeltype type); [|discriminate].
      intros [= <-] Hc. now right.
  - intros codec. rewrite set_insert_range_In. intros [H|H].
    + destruct (Hsup codec H) as (type & codecs & E & Hc).
      exists type, codecs. rewrite find_type_map_insert, E. now split.
    + specialize (Hmap pixeltype).
      destruct (FormatWriter.find_type (FormatWriter.pixel_compression_types p)
                                       pixeltype) as [codecs|] eqn:E.
      * exists pixeltype, codecs. rewrite find_type_map_insert, E.
        split; [reflexivity|]. apply Hmap.
        rewrite set_insert_In, set_insert_range_In in H. cbn in H. tauto.
      * exists pixeltype, (OMETIFFWriter.set_insert
                             (OMETIFFWriter.set_insert_range
                                [] (getCodecNames pixeltype)) "default").
        rewrite find_type_map_insert, E, PixelType_eqb_refl. now split.
  - intro type. rewrite find_type_map_insert. specialize (Hmap type).
    destruct (FormatWriter.find_type _ type) eqn:E.
    + destruct Hmap as [Hd Hc]. split; [|exact Hc].
      apply in_app_iff. now left.
    + destruct (PixelType_eqb pixeltype type) eqn:Ek.
      * apply PixelType_eqb_eq in Ek. subst. split.
        { apply in_app_iff. right. now left. }
        intro codec. rewrite set_insert_In, set_insert_range_In. cbn. tauto.
      * rewrite in_app_iff. cbn. intros [H|[H|[]]]; [tauto|].
        subst. now rewrite PixelType_eqb_refl in Ek.
Qed.

Lemma tables_ok_fold l done p :
  tables_ok done p -> tables_ok (done ++ l) (fold_left step l p).
Proof.
  revert done p. induction l as [|x l IH]; intros done p H; cbn.
  - now rewrite app_nil_r.
  - replace (done ++ x :: l) with ((done ++ [x]) ++ l)
      by now rewrite <- app_assoc.
    apply IH. now apply tables_ok_step.
Qed.

Lemma tiff_properties_ok : tables_ok values props.
Proof.
  apply (tables_ok_fold values [] (FormatWriter.mkWriterProperties [] [])).
  split; [constructor|]. split; [discriminate|]. split; [intros ? []|].
  intros type. cbn. tauto.
Qed.

End CompressionTables.

(** With a table of distinct pixel types, the three views of the table agree:
    [getPixelTypes codec] lists a pixel type exactly when
    [isSupportedType type codec] holds, which is exactly when
    [getCompressionTypes type] lists the codec. *)
Theorem compression_views_agree
        (props : FormatWriter.WriterProperties) (type : PixelType)
        (codec : string)
        (distinct : NoDup (map fst (FormatWriter.pixel_compression_types props))) :
  (In type (FormatWriter.getPixelTypes props codec) <->
   FormatWriter.isSupportedType props type codec = true) /\
  (FormatWriter.isSupportedType props type codec = true <->
   In codec (FormatWriter.getCompressionTypes props type)).
Proof.
  unfold FormatWriter.getPixelTypes, FormatWriter.isSupportedType,
    FormatWriter.getCompressionTypes.
  split.
  - rewrite in_map_iff. split.
    + intros ([k v] & E & H). cbn in E. subst k.
      apply filter_In in H. destruct H as [H Hc]. cbn in Hc.
      now rewrite (In_find_type _ _ _ distinct H).
    + destruct (FormatWriter.find_type _ type) as [v|] eqn:E; [|discriminate].
      intro Hc. exists (type, v). split; [reflexivity|].
      apply filter_In. split; [now apply find_type_In|exact Hc].
  - destruct (FormatWriter.find_type _ type) as [v|] eqn:E.
    + apply contains_In.
    + split; [discriminate|intros []].
Qed.

Lemma compression_views_agree_witness :
  (In UINT16 (FormatWriter.getPixelTypes Examples.some_properties "LZW") <->
   FormatWriter.isSupportedType Examples.some_properties UINT16 "LZW" = true) /\
  (FormatWriter.isSupportedType Examples.some_properties UINT16 "LZW" = true <->
   In "LZW" (FormatWriter.getCompressionTypes Examples.some_properties UINT16)).
Proof.
  apply (compression_views_agree Examples.some_properties UINT16 "LZW").
  vm_compute. repeat constructor; cbn; intuition discriminate.
Defined.

(** The OME-TIFF writer supports a pixel type with a codec exactly when the
    pixel type is one that [tiff_properties] went through and the codec is
    "default" or a codec of the TIFF library for that pixel type; every
    pixel type it went through is supported without compression. *)
Theorem tiff_properties_supported
        (values : list PixelType) (getCodecNames : PixelType -> list string)
        (type : PixelType) (codec : string) :
  FormatWriter.isSupportedType
    (OMETIFFWriter.tiff_properties values getCodecNames) type codec = true
  <-> In type values /\ (In codec (getCodecNames type) \/ codec = "default").
Proof.
  destruct (tiff_properties_ok values getCodecNames) as (_ & _ & _ & Hmap).
  specialize (Hmap type). unfold FormatWriter.isSupportedType.
  destruct (FormatWriter.find_type _ type) as [codecs|] eqn:E.
  - destruct Hmap as [Hd Hc]. rewrite contains_In, Hc. tauto.
  - cbn in Hmap. split; [discriminate|tauto].
Qed.

(** [setCompression] of the OME-TIFF writer accepts a name exactly when one
    of the pixel types that [tiff_properties] went through is supported with
    it: the name is then recorded and nothing else of the writer changes;
    any other name is refused with a logic error and the writer is left as
    it was. *)
Theorem setCompression_accepts_supported
        (values : list PixelType) (getCodecNames : PixelType -> list string)
        (codec : string) (w : FormatWriter.t) :
  FormatWriter.setCompression
    (OMETIFFWriter.tiff_properties values getCodecNames) codec w
  = if existsb (fun type =>
                  FormatWriter.isSupportedType
                    (OMETIFFWriter.tiff_properties values getCodecNames)
                    type codec) values
    then (Ok tt, FormatWriter.set_compression w (Some codec))
    else (Throw (logic_error
                   (String.append "Invalid compression type: " codec) []), w).
Proof.
  destruct (tiff_properties_ok values getCodecNames) as (_ & Hsub & Hsup & Hmap).
  unfold FormatWriter.setCompression.
  destruct (FormatWriter.contains _ codec) eqn:Ec;
    destruct (existsb _ values) eqn:Ee; try reflexivity; exfalso.
  - apply contains_In in Ec. destruct (Hsup codec Ec) as (type & codecs & E & Hc).
    specialize (Hmap type). rewrite E in Hmap. destruct Hmap as [Hd _].
    assert (existsb (fun type =>
                  FormatWriter.isSupportedType
                    (OMETIFFWriter.tiff_properties values getCodecNames)
                    type codec) values = true) as Ht; [|congruence].
    apply existsb_exists. exists type. split; [exact Hd|].
    unfold FormatWriter.isSupportedType. rewrite E. now apply contains_In.
  - apply existsb_exists in Ee. destruct Ee as (type & _ & Hs).
    unfold FormatWriter.isSupportedType in Hs.
    destruct (FormatWriter.find_type _ type) as [codecs|] eqn:E;
      [|discriminate].
    apply contains_In in Hs. apply (Hsub type codecs codec E) in Hs.
    apply contains_In in Hs. congruence.
Qed.

(** With LZW and Deflate for the integer types only, the writer takes
    "Deflate" and refuses "JPEG"; FLOAT is supported only without
    compression, and a pixel type outside the table not at all. *)
Example some_properties_tables :
  FormatWriter.isSupportedType Examples.some_properties UINT16 "LZW" = true /\
  FormatWriter.isSupportedType Examples.some_properties FLOAT "LZW" = false /\
  FormatWriter.isSupportedType Examples.some_properties FLOAT "default" = true /\
  FormatWriter.isSupportedType Examples.some_properties DOUBLE "default" = false /\
  FormatWriter.getCompressionTypes Examples.some_properties FLOAT = ["default"] /\
  FormatWriter.getCompression
    (snd (FormatWriter.setCompression Examples.some_properties "Deflate"
                                      Examples.example_writer))
  = Some "Deflate" /\
  fst (FormatWriter.setCompression Examples.some_properties "JPEG"
                                   Examples.example_writer)
  = Throw (logic_error "Invalid compression type: JPEG" []).
Proof. vm_compute. repeat split. Qed.

(** ** The OME-TIFF writer: the TiffData elements of [fillMetadata] *)

Section WriterFillMetadata.

Import OMETIFFWriter.

Lemma nth_error_modify_nth_same {A} (d : A) f n : forall l,
  nth_error (modify_nth d f n l) n = Some (f (nth n l d)).
Proof.
  induction n as [|n IH]; intros [|a l]; cbn [modify_nth nth_error nth];
    try reflexivity.
  - rewrite IH. now destruct n.
  - apply IH.
Qed.

Lemma nth_error_modify_nth_other {A} (d : A) f n : forall l j x,
  j <> n -> nth_error l j = Some x ->
  nth_error (modify_nth d f n l) j = Some x.
Proof.
  induction n as [|n IH]; intros [|a l] [|j] x Hne H;
    cbn [modify_nth nth_error] in *; try discriminate H; try congruence.
  apply IH; [congruence|exact H].
Qed.

Lemma at_of_nat {A} (l : list A) j :
  at_ l (Z.of_nat j)
  = match nth_error l j with
    | Some a => Ok a
    | None => Throw (out_of_range "vector::at")
    end.
Proof.
  unfold at_. destruct (Z.ltb_spec (Z.of_nat j) 0); [lia|].
  now rewrite Nat2Z.id.
Qed.

Lemma map_replace_nth {A B} (g : A -> B) (l : list A) : forall n x a,
  nth_error l n = Some x -> g a = g x ->
  map g (OMETIFFReader.replace_nth n l a) = map g l.
Proof.
  induction l as [|y l IH]; intros n x a H E; [destruct n; reflexivity|].
  destruct n as [|n]; cbn [nth_error OMETIFFReader.replace_nth map] in *.
  - injection H as ->. now rewrite E.
  - now rewrite (IH n x a H E).
Qed.

Lemma nth_error_replace_nth_same {A} (l : list A) : forall n x a,
  nth_error l n = Some x ->
  nth_error (OMETIFFReader.replace_nth n l a) n = Some a.
Proof.
  induction l as [|y l IH]; intros n x a H; [destruct n; discriminate H|].
  destruct n as [|n]; cbn [nth_error OMETIFFReader.replace_nth] in *;
    [reflexivity|]. now apply (IH n x).
Qed.

(** The image of a store with other TiffData elements. *)
Local Abbreviation with_tiffdata im tds :=
  (Metadata.mkImage (Metadata.SizeX im) (Metadata.SizeY im)
     (Metadata.SizeZ im) (Metadata.SizeT im) (Metadata.SizeC im)
     (Metadata.PixelsDimensionOrder im) (Metadata.Channels im) tds).

Lemma setTiffData_Ok f s td m m' :
  setTiffData f (Z.of_nat s) (Z.of_nat td) m = Ok m' ->
  map dims m' = map dims m /\
  (forall i, i <> s -> nth_error m' i = nth_error m i) /\
  exists im,
    nth_error m s = Some im /\
    nth_error m' s
    = Some (with_tiffdata
              im (modify_nth emptyTiffData f td (Metadata.TiffDataList im))).
Proof.
  unfold setTiffData, Metadata.getImage, rbind. rewrite at_of_nat.
  destruct (nth_error m s) as [im|] eqn:E; [|discriminate].
  unfold Ok. intros [= <-]. rewrite !Nat2Z.id. split; [|split].
  - now apply (map_replace_nth dims m s im).
  - intros i Hne. apply nth_error_replace_nth_other. congruence.
  - exists im. split; [reflexivity|].
    now apply (nth_error_replace_nth_same m s im).
Qed.

Lemma fillPlanes_Ok w s im0 len : forall a m m' im,
  nth_error m s = Some im -> dims im = dims im0 ->
  fillPlanes w (Z.of_nat s) (Metadata.PixelsDimensionOrder im0)
             (Metadata.SizeZ im0)
             (Z.of_nat (List.length (Metadata.Channels im0)))
             (Metadata.SizeT im0) (planeCount im0)
             (map Z.of_nat (seq a len)) m = Ok m' ->
  map dims m' = map dims m /\
  (forall i, i <> s -> nth_error m' i = nth_error m i) /\
  exists im',
    nth_error m' s = Some im' /\ dims im' = dims im0 /\
    (forall j x, (j < a)%nat ->
                 nth_error (Metadata.TiffDataList im) j = Some x ->
                 nth_error (Metadata.TiffDataList im') j = Some x) /\
    (forall j, (a <= j < a + len)%nat ->
               exists d, nth_error (Metadata.TiffDataList im') j = Some d /\
                         recorded w (Z.of_nat s) im0 (Z.of_nat j) d).
Proof.
  induction len as [|len IH]; intros a m m' im Him Hdim0;
    cbn [seq map fillPlanes].
  - unfold Ok. intros [= <-]. split; [reflexivity|]. split; [reflexivity|].
    exists im. split; [exact Him|]. split; [exact Hdim0|].
    split; [auto|]. intros j Hj. lia.
  - unfold rbind at 1.
    destruct (FormatTools.getZCTCoords _ _ _ _ _ _) as [e|coords] eqn:Ec;
      [discriminate|].
    destruct (rbind (at_ (seriesState w) (Z.of_nat s))
                    (fun states => at_ states (Z.of_nat a)))
      as [e|planeState] eqn:Ep.
    { unfold rbind in *. destruct (at_ (seriesState w) (Z.of_nat s));
        [discriminate|]. now rewrite Ep. }
    intro Hrun.
    assert (match find (tiffs w) (OMETIFF.id planeState) with
            | Some st =>
                rbind (setTiffData
                         (fun _ => planeTiffData
                                     (OMETIFF.id planeState) (uuid st)
                                     coords (OMETIFF.index planeState))
                         (Z.of_nat s) (Z.of_nat a) m)
                      (fun m1 =>
                         fillPlanes w (Z.of_nat s)
                           (Metadata.PixelsDimensionOrder im0)
                           (Metadata.SizeZ im0)
                           (Z.of_nat (List.length (Metadata.Channels im0)))
                           (Metadata.SizeT im0) (planeCount im0)
                           (map Z.of_nat (seq (S a) len)) m1)
            | None =>
                Throw (FormatException
                         "Inconsistent writer state: TIFF file %1% not registered with a UUID"
                         [])
            end = Ok m') as Hrun'.
    { unfold rbind in *. destruct (at_ (seriesState w) (Z.of_nat s));
        [discriminate|]. rewrite Ep in Hrun. exact Hrun. }
    clear Hrun.
    destruct (find (tiffs w) (OMETIFF.id planeState)) as [st|] eqn:Ef;
      [|discriminate].
    unfold rbind at 1 in Hrun'.
    destruct (setTiffData _ _ _ m) as [e|m1] eqn:Es; [discriminate|].
    destruct (setTiffData_Ok _ _ _ _ _ Es) as (Hd1 & Ho1 & im1 & Him1 & Hm1).
    rewrite Him in Him1. injection Him1 as <-.
    destruct (IH (S a) m1 m' _ Hm1) as (Hd & Ho & im' & Him' & Hdim & Hkeep & Hrec).
    { exact Hdim0. }
    { exact Hrun'. }
    split; [now rewrite Hd|]. split.
    { intros i Hne. now rewrite Ho, Ho1. }
    exists im'. split; [exact Him'|]. split; [exact Hdim|]. split.
    + intros j x Hj Hx. apply Hkeep; [lia|]. cbn [Metadata.TiffDataList].
      apply nth_error_modify_nth_other; [lia|exact Hx].
    + intros j Hj. destruct (Nat.eq_dec j a) as [->|Hne].
      * eexists. split.
        { apply Hkeep; [lia|]. cbn [Metadata.TiffDataList].
          apply nth_error_modify_nth_same. }
        exists coords, planeState, st. repeat split; assumption.
      * destruct (Hrec j ltac:(lia)) as (d & Hd' & Hr). exists d.
        split; [exact Hd'|]. exact Hr.
Qed.

Lemma fillSeries_Ok w len : forall k m m',
  fillSeries w (map Z.of_nat (seq k len)) m = Ok m' ->
  map dims m' = map dims m /\
  (forall i, (i < k)%nat -> nth_error m' i = nth_error m i) /\
  (forall s, (k <= s < k + len)%nat ->
     exists im im',
       nth_error m s = Some im /\ nth_error m' s = Some im' /\
       forall j, Z.of_nat j < planeCount im ->
         exists d, nth_error (Metadata.TiffDataList im') j = Some d /\
                   recorded w (Z.of_nat s) im (Z.of_nat j) d).
Proof.
  induction len as [|len IH]; intros k m m'; cbn [seq map fillSeries].
  - unfold Ok. intros [= <-]. split; [reflexivity|]. split; [reflexivity|].
    intros s Hs. lia.
  - unfold Metadata.getPixelsDimensionOrder, Metadata.getPixelsSizeZ,
      Metadata.getPixelsSizeT, Metadata.getChannelCount, Metadata.getImage.
    rewrite !at_of_nat. destruct (nth_error m k) as [im|] eqn:Him;
      [|discriminate].
    unfold Ok. cbn [rbind]. fold (planeCount im).
    set (m0r := if planeCount im =? 0 then _ else _).
    assert (forall m0, m0r = Ok m0 ->
              map dims m0 = map dims m /\
              (forall i, i <> k -> nth_error m0 i = nth_error m i) /\
              exists im0, nth_error m0 k = Some im0 /\ dims im0 = dims im)
      as Hm0.
    { intros m0. subst m0r. destruct (planeCount im =? 0).
      - intro Es. apply (setTiffData_Ok _ k 0%nat) in Es.
        destruct Es as (Hd & Ho & im0 & Him0 & Hm0). split; [exact Hd|].
        split; [exact Ho|]. rewrite Him in Him0. injection Him0 as <-.
        eexists. split; [exact Hm0|reflexivity].
      - unfold Ok. intros [= <-]. split; [reflexivity|].
        split; [reflexivity|]. exists im. now split. }
    destruct m0r as [e|m0]; [discriminate|].
    destruct (Hm0 m0 eq_refl) as (Hd0 & Ho0 & im0 & Him0 & Hdim0). clear Hm0.
    unfold rbind at 1.
    destruct (fillPlanes _ _ _ _ _ _ _ _ m0) as [e|m1] eqn:Ep; [discriminate|].
    intro Hrest.
    destruct (fillPlanes_Ok w k im _ 0%nat m0 m1 im0 Him0 Hdim0 Ep)
      as (Hd1 & Ho1 & im1 & Him1 & _ & _ & Hrec).
    destruct (IH (S k) m1 m' Hrest) as (Hd & Ho & Hs).
    split; [now rewrite Hd, Hd1|]. split.
    { intros i Hi. rewrite Ho by lia. rewrite Ho1 by lia. apply Ho0. lia. }
    intros s Hr. destruct (Nat.eq_dec s k) as [->|Hne].
    + exists im, im1. split; [exact Him|]. split.
      { rewrite Ho by lia. exact Him1. }
      intros j Hj. apply Hrec. lia.
    + destruct (Hs s ltac:(lia)) as (ims & ims' & H1 & H2 & H3).
      exists ims, ims'. split; [|split; [exact H2|exact H3]].
      rewrite <- Ho0 by exact Hne. rewrite <- Ho1 by exact Hne. exact H1.
Qed.

Lemma fillMetadata_Ok w w' m seriesCount :
  omeMeta w = Some m ->
  FormatWriter.getSeriesCount (base w) = Ok seriesCount ->
  fillMetadata w = (Ok tt, w') ->
  exists m',
    w' = set_store w m' /\
    map dims m' = map dims m /\
    forall s p,
      0 <= s < seriesCount ->
      exists im,
        Metadata.getImage m s = Ok im /\
        (0 <= p < planeCount im ->
         exists d, Metadata.getTiffData m' s p = Ok d /\ recorded w s im p d).
Proof.
  intros store count. unfold fillMetadata. rewrite store, count.
  unfold Ok. cbv beta iota.
  destruct (negb (countBadPlanes (seriesState w) =? 0)); [discriminate|].
  destruct (fillSeries w _ m) as [e|m'] eqn:Ef; [discriminate|].
  unfold Ok. intros [= <-]. exists m'. split; [reflexivity|].
  destruct (fillSeries_Ok w _ 0%nat m m' Ef) as (Hd & _ & Hs).
  split; [exact Hd|]. intros s p Hr.
  destruct (Hs (Z.to_nat s) ltac:(lia)) as (im & im' & H1 & H2 & H3).
  exists im. split.
  { unfold Metadata.getImage. apply at_nth; [lia|exact H1]. }
  intro Hp. destruct (H3 (Z.to_nat p)) as (d & Hd' & Hrec).
  { rewrite Z2Nat.id by lia. lia. }
  rewrite !Z2Nat.id in Hrec by lia. exists d. split; [|exact Hrec].
  unfold Metadata.getTiffData, Metadata.getImage.
  rewrite (at_nth m' s im') by (try lia; exact H2). unfold Ok. cbn [rbind].
  apply at_nth; [lia|exact Hd'].
Qed.

End WriterFillMetadata.

(** When [fillMetadata] succeeds, the store has for every plane of every
    series a TiffData element with the directory index that [saveBytes]
    recorded for the plane, a plane count of one, the Z, C and T position of
    the plane in the dimension order of the series, and the UUID of the file
    that holds the plane; the dimensions of the images are as they were. *)
Theorem fillMetadata_records_planes
        (w w' : OMETIFFWriter.t) (m : Metadata.MetadataRetrieve)
        (seriesCount : Z)
        (store : OMETIFFWriter.omeMeta w = Some m)
        (count : FormatWriter.getSeriesCount (OMETIFFWriter.base w)
                 = Ok seriesCount)
        (run : OMETIFFWriter.fillMetadata w = (Ok tt, w')) :
  exists m',
    OMETIFFWriter.omeMeta w' = Some m' /\
    FormatWriter.metadataRetrieve (OMETIFFWriter.base w') = Some m' /\
    map dims m' = map dims m /\
    forall s p,
      0 <= s < seriesCount ->
      exists im,
        Metadata.getImage m s = Ok im /\
        (0 <= p < planeCount im ->
         exists z c t planeState st d,
           FormatTools.getZCTCoords
             (Metadata.PixelsDimensionOrder im) (Metadata.SizeZ im)
             (Z.of_nat (List.length (Metadata.Channels im)))
             (Metadata.SizeT im) (planeCount im) p = Ok (z, c, t) /\
           (states <- at_ (OMETIFFWriter.seriesState w) s ;;
            at_ states p)%res = Ok planeState /\
           OMETIFFWriter.find (OMETIFFWriter.tiffs w) (OMETIFF.id planeState)
           = Some st /\
           Metadata.getTiffData m' s p = Ok d /\
           Metadata.IFD d = Some (OMETIFF.index planeState) /\
           Metadata.PlaneCount d = Some 1 /\
           Metadata.FirstZ d = Some z /\
           Metadata.FirstC d = Some c /\
           Metadata.FirstT d = Some t /\
           Metadata.UUIDValue d
           = Some (String.append "urn:uuid:" (OMETIFFWriter.uuid st))).
Proof.
  destruct (fillMetadata_Ok w w' m seriesCount store count run)
    as (m' & -> & Hd & H).
  exists m'. split; [reflexivity|]. split; [reflexivity|]. split; [exact Hd|].
  intros s p Hs. destruct (H s p Hs) as (im & Him & Hp).
  exists im. split; [exact Him|]. intro Hr.
  destruct (Hp Hr) as (d & Hd' & [[z c] t] & planeState & st & Hc & Hst & Hf & ->).
  exists z, c, t, planeState, st. eexists. split; [exact Hc|].
  split; [exact Hst|]. split; [exact Hf|]. split; [exact Hd'|].
  cbn. repeat split.
Qed.

Lemma fillMetadata_records_planes_witness :
  exists m',
    OMETIFFWriter.omeMeta
      (snd (OMETIFFWriter.fillMetadata Examples.stack_writer_all_saved))
    = Some m' /\
    map dims m' = map dims Examples.stack_store /\
    exists d,
      Metadata.getTiffData m' 0 3 = Ok d /\
      Metadata.IFD d = Some 3 /\ Metadata.PlaneCount d = Some 1 /\
      Metadata.FirstZ d = Some 3.
Proof.
  destruct (fillMetadata_records_planes
              Examples.stack_writer_all_saved
              (snd (OMETIFFWriter.fillMetadata Examples.stack_writer_all_saved))
              Examples.stack_store 1)
    as (m' & Hm & _ & Hd & H).
  - vm_compute. reflexivity.
  - vm_compute. reflexivity.
  - vm_compute. reflexivity.
  - exists m'. split; [exact Hm|]. split; [exact Hd|].
    destruct (H 0 3 ltac:(lia)) as (im & Him & Hp).
    vm_compute in Him. injection Him as <-.
    destruct Hp as (z & c & t & planeState & st & d & Hc & Hs & _ & Hg & Hi
                    & Hn & Hz & _).
    { vm_compute. split; [discriminate|reflexivity]. }
    vm_compute in Hc. injection Hc as <- <- <-.
    vm_compute in Hs. injection Hs as <-.
    exists d. auto.
Defined.

(** The store of the four-plane stack after [fillMetadata]: plane 2 is on
    directory 2 of the file, alone, at Z = 2. *)
Example fillMetadata_stack :
  let w' := snd (OMETIFFWriter.fillMetadata Examples.stack_writer_all_saved) in
  match OMETIFFWriter.omeMeta w' with
  | Some m' =>
      Metadata.getTiffDataIFD m' 0 2 = Ok 2 /\
      Metadata.getTiffDataPlaneCount m' 0 2 = Ok 1 /\
      Metadata.getTiffDataFirstZ m' 0 2 = Ok 2 /\
      Metadata.getTiffDataCount m' 0 = Ok 4
  | None => False
  end.
Proof. vm_compute. repeat split. Qed.

(** ** Writer and reader: the TiffData elements read back *)

(** What [fillMetadata] writes, the reader's [getTiffDataValues] reads back:
    for every plane of every series of the completed store it reports a
    valid TiffData element of one plane, on the directory that the writer
    recorded for the plane and at the Z, T and C position of the plane,
    whatever values it is called with, and it leaves the core metadata
    alone. *)
Theorem fillMetadata_read_by_getTiffDataValues
        (w w' : OMETIFFWriter.t) (m : Metadata.MetadataRetrieve)
        (seriesCount : Z)
        (store : OMETIFFWriter.omeMeta w = Some m)
        (count : FormatWriter.getSeriesCount (OMETIFFWriter.base w)
                 = Ok seriesCount)
        (run : OMETIFFWriter.fillMetadata w = (Ok tt, w')) :
  exists m',
    OMETIFFWriter.omeMeta w' = Some m' /\
    forall s p v0 core,
      0 <= s < seriesCount ->
      exists im,
        Metadata.getImage m s = Ok im /\
        (0 <= p < planeCount im ->
         exists z c t planeState,
           FormatTools.getZCTCoords
             (Metadata.PixelsDimensionOrder im) (Metadata.SizeZ im)
             (Z.of_nat (List.length (Metadata.Channels im)))
             (Metadata.SizeT im) (planeCount im) p = Ok (z, c, t) /\
           (states <- at_ (OMETIFFWriter.seriesState w) s ;;
            at_ states p)%res = Ok planeState /\
           OMETIFFReader.getTiffDataValues m' s p v0 core
           = (Ok (true,
                  OMETIFFReader.mkValues (Some (OMETIFF.index planeState))
                                         1 z t c),
              core)).
Proof.
  destruct (fillMetadata_Ok w w' m seriesCount store count run)
    as (m' & -> & _ & H).
  exists m'. split; [reflexivity|]. intros s p v0 core Hs.
  destruct (H s p Hs) as (im & Him & Hp).
  exists im. split; [exact Him|]. intro Hr.
  destruct (Hp Hr) as (d & Hd & [[z c] t] & planeState & st & Hc & Hst & _ & ->).
  exists z, c, t, planeState. split; [exact Hc|]. split; [exact Hst|].
  unfold OMETIFFReader.getTiffDataValues, Metadata.getTiffDataIFD,
    Metadata.getTiffDataPlaneCount, Metadata.getTiffDataFirstC,
    Metadata.getTiffDataFirstT, Metadata.getTiffDataFirstZ.
  rewrite Hd. reflexivity.
Qed.

Lemma fillMetadata_read_by_getTiffDataValues_witness :
  exists m',
    OMETIFFWriter.omeMeta
      (snd (OMETIFFWriter.fillMetadata Examples.stack_writer_all_saved))
    = Some m' /\
    OMETIFFReader.getTiffDataValues m' 0 3 OMETIFFReader.initialValues []
    = (Ok (true, OMETIFFReader.mkValues (Some 3) 1 3 0 0), []).
Proof.
  destruct (fillMetadata_read_by_getTiffDataValues
              Examples.stack_writer_all_saved
              (snd (OMETIFFWriter.fillMetadata Examples.stack_writer_all_saved))
              Examples.stack_store 1)
    as (m' & Hm & H).
  - vm_compute. reflexivity.
  - vm_compute. reflexivity.
  - vm_compute. reflexivity.
  - exists m'. split; [exact Hm|].
    destruct (H 0 3 OMETIFFReader.initialValues [] ltac:(lia))
      as (im & Him & Hp).
    vm_compute in Him. injection Him as <-.
    destruct Hp as (z & c & t & planeState & Hc & Hs & Hv).
    { vm_compute. split; [discriminate|reflexivity]. }
    vm_compute in Hc. injection Hc as <- <- <-.
    vm_compute in Hs. injection Hs as <-.
    exact Hv.
Defined.
